(** * LemonVRCT: the capture-to-dispatch pipeline of [vrchat_translator.py]

  A shallow embedding of the class [VRChatTranslator]: the push-to-talk
  recording flags, the translation queue and its single worker, the
  speech-to-text / correction / translation fan-out, and the OSC dispatch.

  External collaborators (PyAudio, Whisper, the chat-completion client,
  the OSC client) are not part of the program.  Their answers are read
  from scripts held in the [World]; every call made to them is recorded
  in a chronological [trace]. *)

From Stdlib Require Import List ZArith NArith Bool Lia String Ascii.
Import ListNotations.

(* ================================================================== *)
(** ** Python strings *)

(** A Python [str] is a sequence of Unicode code points; [len] counts
  code points, so a CJK character has length one. *)
Module PyStr.

Definition char := N.
Definition str := list char.

(** An ASCII literal, one code point per character. *)
Fixpoint lit (s : string) : str :=
  match s with
  | EmptyString => []
  | String a r => N_of_ascii a :: lit r
  end.

Fixpoint eqb (a b : str) : bool :=
  match a, b with
  | [], [] => true
  | x :: a', y :: b' => N.eqb x y && eqb a' b'
  | _, _ => false
  end.

(** Truth value of a string: [if text:] holds for non-empty strings. *)
Definition truthy (s : str) : bool :=
  match s with [] => false | _ :: _ => true end.

Definition len (s : str) : Z := Z.of_nat (List.length s).

(** The code points for which [str.isspace] holds, the set removed by
    [str.strip()] without argument. *)
Definition isspace (c : char) : bool :=
  ((9 <=? c) && (c <=? 13)
   || (28 <=? c) && (c <=? 32)
   || (c =? 133) || (c =? 160) || (c =? 5760)
   || (8192 <=? c) && (c <=? 8202)
   || (c =? 8232) || (c =? 8233) || (c =? 8239) || (c =? 8287)
   || (c =? 12288))%N.

Fixpoint lstrip (s : str) : str :=
  match s with
  | [] => []
  | c :: r => if isspace c then lstrip r else s
  end.

Definition rstrip (s : str) : str := rev (lstrip (rev s)).

Definition strip (s : str) : str := rstrip (lstrip s).

Definition newline : char := 10%N.

(** [sep.join(lines)] for the separator ["\n"]. *)
Fixpoint join_lines (lines : list str) : str :=
  match lines with
  | [] => []
  | [l] => l
  | l :: rest => l ++ newline :: join_lines rest
  end.

End PyStr.

Import PyStr.

(* ================================================================== *)
(** ** Python dictionaries *)

(** [translations] is a [dict]: iteration follows insertion order, and
  assigning to a key that is already present replaces its value in
  place, keeping the key's position. *)
Module PyDict.

Definition dict := list (str * str).

Fixpoint setitem (d : dict) (k v : str) : dict :=
  match d with
  | [] => [(k, v)]
  | (k', v') :: r =>
      if PyStr.eqb k' k then (k', v) :: r else (k', v') :: setitem r k v
  end.

Fixpoint get (d : dict) (k : str) : option str :=
  match d with
  | [] => None
  | (k', v') :: r => if PyStr.eqb k' k then Some v' else get r k
  end.

Definition keys (d : dict) : list str := map fst d.
Definition values (d : dict) : list str := map snd d.

End PyDict.

(* ================================================================== *)
(** ** Events, collaborators' answers, and the object state *)

(** One frame is the [bytes] object returned by [stream.read]; bytes are
    kept as numbers below 256. *)
Definition frame := list Z.
Definition audio := list frame.

Inductive level := INFO | WARNING | ERROR.

(** The log calls of the modelled methods, one constructor per call
    site, carrying the values interpolated into the message. *)
Inductive log_msg :=
| MsgRecordingStarted          (* start_recording: "开始录音..." *)
| MsgStartRecordingFailed      (* start_recording: "开始录音失败" *)
| MsgRecordingStopped          (* stop_recording: "录音停止，开始处理..." *)
| MsgNoAudioData               (* stop_recording: "没有录音数据" *)
| MsgStopRecordingFailed       (* stop_recording: "停止录音过程中出错" *)
| MsgRecordingError            (* record_audio: "录音过程中出错" *)
| MsgTranscribing              (* transcribe_audio: "正在转录音频..." *)
| MsgAudioTooShort             (* transcribe_audio: "录音时间太短，无法转录" *)
| MsgAudioLength (n : Z)       (* transcribe_audio: "音频数据长度" *)
| MsgRawTranscription (t : str)(* transcribe_audio: "原始转录结果" *)
| MsgAfterCorrection (t : str) (* transcribe_audio: "语义修正后" *)
| MsgTranscribeFailed          (* transcribe_audio: "转录失败" *)
| MsgCorrecting                (* semantic_correction: "正在进行语义修正..." *)
| MsgCorrectionNoChange        (* semantic_correction: "语义修正无变化，使用原始文本" *)
| MsgCorrectionDone (t c : str)(* semantic_correction: "语义修正完成" *)
| MsgCorrectionFailed          (* semantic_correction: "语义修正失败" *)
| MsgCorrectionFallback        (* semantic_correction: "语义修正失败，使用原始文本" *)
| MsgTranslating (lang : str)  (* translate_text: "正在翻译到" *)
| MsgTranslated (lang t : str) (* translate_text: "翻译结果" *)
| MsgTranslateFailed (lang : str) (* translate_text: "翻译到 ... 失败" *)
| MsgFormatted (out : str)     (* format_output: "格式化输出" *)
| MsgNothingToSend             (* send_to_vrchat: "没有文本可发送" *)
| MsgSent (t : str)            (* send_to_vrchat: "已发送到VRChat" *)
| MsgSendFailed                (* send_to_vrchat: "发送到VRChat失败" *)
| MsgHotkeyDown                (* on_press: "检测到 ... 键，开始录音" *)
| MsgHotkeyUp.                 (* on_release: "... 键释放，停止录音" *)

(** The user message of a chat completion: the fixed instruction text
    is left out, the interpolated values are kept. *)
Inductive prompt :=
| CorrectionPrompt (text : str)
| TranslationPrompt (source_language target_language text : str).

Inductive osc_arg :=
| OscStr (s : str)
| OscBool (b : bool).

Inductive event :=
| Log (lv : level) (m : log_msg)
| AudioOpen                          (* self.audio.open(...) *)
| DeviceInfo                         (* self.audio.get_device_info_by_index *)
| RecordingThreadStart               (* recording_thread.start() returned *)
| StreamStop                         (* self.stream.stop_stream() *)
| StreamClose                        (* self.stream.close() *)
| AudioTerminate                     (* self.audio.terminate() *)
| QueuePut (item : option audio)     (* self.translation_queue.put *)
| QueueGet (item : option audio)     (* a successful translation_queue.get *)
| QueueTaskDone                      (* self.translation_queue.task_done() *)
| ModelTranscribe (samples : list Z) (language : str)
| ChatCreate (p : prompt) (max_tokens : Z)
| OscSend (address : str) (args : list osc_arg).

(** [self.model.transcribe] raises, or returns a dict whose ['text']
    entry may be missing. *)
Inductive stt_outcome :=
| SttRaise
| SttResult (text : option str).

(** [chat.completions.create(...)] followed by
    [.choices[0].message.content]: an exception anywhere on that path
    (transport error, timeout, no choice, content [None]), or the
    content string. *)
Inductive chat_outcome :=
| ChatRaise
| ChatContent (content : str).

(** The answers of the collaborators, in call order.  [true] stands for
    a call that returns, [false] for one that raises; a script that has
    run out answers every further call with an exception. *)
Record World := {
  open_results : list bool;
  info_results : list bool;
  thread_results : list bool;
  stream_results : list bool;
  transcribe_results : list stt_outcome;
  chat_results : list chat_outcome;
  send_results : list bool
}.

(** Where the worker thread stands in [process_translation_queue]:
    blocked in [queue.get], past [self.is_translating = True] with the
    dequeued item in its local variable, or out of the loop. *)
Inductive worker_state :=
| Waiting
| Holding (audio_data : audio)
| Exited.

(** The attributes of the object that the modelled methods read or
    write, with the queue, the worker's position, the collaborators'
    scripts and the trace.  [stream] tells whether [self.stream] has
    been set. *)
Record State := {
  is_recording : bool;
  audio_data : option (list frame);
  stream : bool;
  hotkey_pressed : bool;
  is_translating : bool;
  translation_queue : list (option audio);
  worker : worker_state;
  world : World;
  trace : list event
}.

(** Configuration read once in [__init__]. *)
Record Config := {
  CHANNELS : Z;
  RATE : Z;
  source_language : str;
  target_languages : list str;
  hotkey_char : str
}.

(* ================================================================== *)
(** ** Field updates *)

Definition with_is_recording (b : bool) (s : State) : State :=
  {| is_recording := b; audio_data := audio_data s; stream := stream s;
     hotkey_pressed := hotkey_pressed s; is_translating := is_translating s;
     translation_queue := translation_queue s; worker := worker s;
     world := world s; trace := trace s |}.

Definition with_audio_data (a : option (list frame)) (s : State) : State :=
  {| is_recording := is_recording s; audio_data := a; stream := stream s;
     hotkey_pressed := hotkey_pressed s; is_translating := is_translating s;
     translation_queue := translation_queue s; worker := worker s;
     world := world s; trace := trace s |}.

Definition with_stream (b : bool) (s : State) : State :=
  {| is_recording := is_recording s; audio_data := audio_data s; stream := b;
     hotkey_pressed := hotkey_pressed s; is_translating := is_translating s;
     translation_queue := translation_queue s; worker := worker s;
     world := world s; trace := trace s |}.

Definition with_hotkey_pressed (b : bool) (s : State) : State :=
  {| is_recording := is_recording s; audio_data := audio_data s;
     stream := stream s;
     hotkey_pressed := b; is_translating := is_translating s;
     translation_queue := translation_queue s; worker := worker s;
     world := world s; trace := trace s |}.

Definition with_is_translating (b : bool) (s : State) : State :=
  {| is_recording := is_recording s; audio_data := audio_data s;
     stream := stream s;
     hotkey_pressed := hotkey_pressed s; is_translating := b;
     translation_queue := translation_queue s; worker := worker s;
     world := world s; trace := trace s |}.

Definition with_translation_queue (q : list (option audio)) (s : State)
  : State :=
  {| is_recording := is_recording s; audio_data := audio_data s;
     stream := stream s;
     hotkey_pressed := hotkey_pressed s; is_translating := is_translating s;
     translation_queue := q; worker := worker s;
     world := world s; trace := trace s |}.

Definition with_worker (w : worker_state) (s : State) : State :=
  {| is_recording := is_recording s; audio_data := audio_data s;
     stream := stream s;
     hotkey_pressed := hotkey_pressed s; is_translating := is_translating s;
     translation_queue := translation_queue s; worker := w;
     world := world s; trace := trace s |}.

Definition with_world (w : World) (s : State) : State :=
  {| is_recording := is_recording s; audio_data := audio_data s;
     stream := stream s;
     hotkey_pressed := hotkey_pressed s; is_translating := is_translating s;
     translation_queue := translation_queue s; worker := worker s;
     world := w; trace := trace s |}.

Definition with_trace (t : list event) (s : State) : State :=
  {| is_recording := is_recording s; audio_data := audio_data s;
     stream := stream s;
     hotkey_pressed := hotkey_pressed s; is_translating := is_translating s;
     translation_queue := translation_queue s; worker := worker s;
     world := world s; trace := t |}.

(* ================================================================== *)
(** ** The state monad of the methods *)

Definition M (A : Type) : Type := State -> A * State.

Definition ret {A : Type} (a : A) : M A := fun s => (a, s).

Definition bind {A B : Type} (m : M A) (k : A -> M B) : M B :=
  fun s => let (a, s') := m s in k a s'.

Declare Scope py_scope.
Delimit Scope py_scope with py.
Notation "x <- m ;; k" := (bind m (fun x => k))
  (at level 61, m at next level, right associativity) : py_scope.
Notation "m ;; k" := (bind m (fun _ => k))
  (at level 61, right associativity) : py_scope.
Open Scope py_scope.

Definition modify (f : State -> State) : M unit := fun s => (tt, f s).

Definition emit (e : event) : M unit :=
  modify (fun s => with_trace (trace s ++ [e]) s).

Definition log (lv : level) (m : log_msg) : M unit := emit (Log lv m).

(** The state a method leaves behind. *)
Definition exec {A : Type} (m : M A) (s : State) : State := snd (m s).

(** What a method returns. *)
Definition result {A : Type} (m : M A) (s : State) : A := fst (m s).

(** *** Calls to the collaborators

    Each call is recorded, then answered by the head of its script. *)

Definition drop_open (w : World) : World :=
  {| open_results := tl (open_results w); info_results := info_results w;
     thread_results := thread_results w; stream_results := stream_results w;
     transcribe_results := transcribe_results w;
     chat_results := chat_results w; send_results := send_results w |}.

Definition drop_info (w : World) : World :=
  {| open_results := open_results w; info_results := tl (info_results w);
     thread_results := thread_results w; stream_results := stream_results w;
     transcribe_results := transcribe_results w;
     chat_results := chat_results w; send_results := send_results w |}.

Definition drop_thread (w : World) : World :=
  {| open_results := open_results w; info_results := info_results w;
     thread_results := tl (thread_results w);
     stream_results := stream_results w;
     transcribe_results := transcribe_results w;
     chat_results := chat_results w; send_results := send_results w |}.

Definition drop_stream (w : World) : World :=
  {| open_results := open_results w; info_results := info_results w;
     thread_results := thread_results w;
     stream_results := tl (stream_results w);
     transcribe_results := transcribe_results w;
     chat_results := chat_results w; send_results := send_results w |}.

Definition drop_transcribe (w : World) : World :=
  {| open_results := open_results w; info_results := info_results w;
     thread_results := thread_results w; stream_results := stream_results w;
     transcribe_results := tl (transcribe_results w);
     chat_results := chat_results w; send_results := send_results w |}.

Definition drop_chat (w : World) : World :=
  {| open_results := open_results w; info_results := info_results w;
     thread_results := thread_results w; stream_results := stream_results w;
     transcribe_results := transcribe_results w;
     chat_results := tl (chat_results w); send_results := send_results w |}.

Definition drop_send (w : World) : World :=
  {| open_results := open_results w; info_results := info_results w;
     thread_results := thread_results w; stream_results := stream_results w;
     transcribe_results := transcribe_results w;
     chat_results := chat_results w; send_results := tl (send_results w) |}.

(** [self.audio.open(...)]. *)
Definition audio_open : M bool :=
  emit AudioOpen ;;
  fun s => (hd false (open_results (world s)),
            with_world (drop_open (world s)) s).

(** [self.audio.get_device_info_by_index(...)]. *)
Definition get_device_info : M bool :=
  emit DeviceInfo ;;
  fun s => (hd false (info_results (world s)),
            with_world (drop_info (world s)) s).

(** [self.recording_thread.start()]: the event marks a thread that did
    start. *)
Definition thread_start : M bool :=
  fun s =>
    let started := hd false (thread_results (world s)) in
    (started,
     with_world (drop_thread (world s))
       (if started then with_trace (trace s ++ [RecordingThreadStart]) s
        else s)).

(** [self.stream.stop_stream()] and [self.stream.close()]. *)
Definition stream_call (e : event) : M bool :=
  emit e ;;
  fun s => (hd false (stream_results (world s)),
            with_world (drop_stream (world s)) s).

(** [self.model.transcribe(audio_np, language=..., fp16=False)]. *)
Definition model_transcribe (samples : list Z) (language : str)
  : M stt_outcome :=
  emit (ModelTranscribe samples language) ;;
  fun s => (hd SttRaise (transcribe_results (world s)),
            with_world (drop_transcribe (world s)) s).

(** [self.openai_client.chat.completions.create(...)] and the reading
    of [response.choices[0].message.content]. *)
Definition chat_create (p : prompt) (max_tokens : Z) : M chat_outcome :=
  emit (ChatCreate p max_tokens) ;;
  fun s => (hd ChatRaise (chat_results (world s)),
            with_world (drop_chat (world s)) s).

(** [self.osc_client.send_message(address, args)]. *)
Definition osc_send_message (address : str) (args : list osc_arg) : M bool :=
  emit (OscSend address args) ;;
  fun s => (hd false (send_results (world s)),
            with_world (drop_send (world s)) s).

(* ================================================================== *)
(** ** The methods of [VRChatTranslator] *)

(** A key event of the listener: a [KeyCode], whose [char] attribute may
    be [None], or a special [Key], which has no [char] attribute. *)
Inductive key :=
| KeyCode (char : option str)
| SpecialKey.

(** [np.frombuffer(audio_bytes, dtype=np.int16)]: two bytes per sample,
    low byte first; a buffer of odd size raises [ValueError]. *)
Definition int16 (lo hi : Z) : Z :=
  let u := (lo + 256 * hi)%Z in
  if (u <? 32768)%Z then u else (u - 65536)%Z.

Fixpoint frombuffer (bs : list Z) : option (list Z) :=
  match bs with
  | [] => Some []
  | [_] => None
  | lo :: hi :: r =>
      match frombuffer r with
      | Some l => Some (int16 lo hi :: l)
      | None => None
      end
  end.

Section Methods.

Variable cfg : Config.

(** [str.lower], as used on [key.char]. *)
Variable lower : str -> str.

(** *** Recording *)

(** [start_recording], lines 203-232. *)
Definition start_recording : M unit :=
  fun s =>
    if is_recording s then (tt, s)
    else
      (modify (with_is_recording true) ;;
       modify (with_audio_data (Some [])) ;;
       opened <- audio_open ;;
       if opened then
         modify (with_stream true) ;;
         info <- get_device_info ;;
         if info then
           log INFO MsgRecordingStarted ;;
           started <- thread_start ;;
           if started then ret tt
           else
             log ERROR MsgStartRecordingFailed ;;
             modify (with_is_recording false)
         else
           log ERROR MsgStartRecordingFailed ;;
           modify (with_is_recording false)
       else
         log ERROR MsgStartRecordingFailed ;;
         modify (with_is_recording false)) s.

(** One turn of the loop of [record_audio], lines 234-241, on a live
    recording thread: [data] is the frame read from the stream, [None]
    when the read raises (the thread then logs and ends).  The test of
    the flag, the read and the append are one step: a read that returns
    after [stop_recording] is not followed, and the state does not
    remember that a thread has ended. *)
Definition record_audio_turn (data : option frame) : M unit :=
  fun s =>
    if is_recording s then
      match data, audio_data s with
      | Some d, Some l => (tt, with_audio_data (Some (l ++ [d])) s)
      | _, _ => log ERROR MsgRecordingError s
      end
    else (tt, s).

(** [stop_recording], lines 243-267. *)
Definition stop_recording : M unit :=
  fun s =>
    if negb (is_recording s) then (tt, s)
    else
      (modify (with_is_recording false) ;;
       stopped <- (fun s' =>
                     if stream s' then
                       (ok <- stream_call StreamStop ;;
                        if ok then stream_call StreamClose else ret false) s'
                     else (true, s')) ;;
       if stopped then
         log INFO MsgRecordingStopped ;;
         fun s' =>
           match audio_data s' with
           | Some (f :: fs) =>
               (emit (QueuePut (Some (f :: fs))) ;;
                modify (fun s'' =>
                          with_translation_queue
                            (translation_queue s'' ++ [Some (f :: fs)]) s'') ;;
                modify (with_audio_data (Some []))) s'
           | _ => log ERROR MsgNoAudioData s'
           end
       else
         log ERROR MsgStopRecordingFailed) s.

(** *** Speech to text and correction *)

(** [semantic_correction], lines 307-349. *)
Definition semantic_correction (text : str) : M str :=
  if negb (truthy text) || (len (strip text) <? 2)%Z then ret text
  else
    log INFO MsgCorrecting ;;
    response <- chat_create (CorrectionPrompt text) 500 ;;
    match response with
    | ChatContent content =>
        let corrected_text := strip content in
        if negb (truthy corrected_text) || PyStr.eqb corrected_text text then
          log INFO MsgCorrectionNoChange ;;
          ret text
        else
          log INFO (MsgCorrectionDone text corrected_text) ;;
          ret corrected_text
    | ChatRaise =>
        log ERROR MsgCorrectionFailed ;;
        log INFO MsgCorrectionFallback ;;
        ret text
    end.

(** [transcribe_audio], lines 269-305.  The waveform handed to the model
    is the sample sequence divided by 32768; the event records the
    samples.  [len(audio_np) < self.RATE * 0.5] is the integer
    comparison [2 * len < RATE]. *)
Definition transcribe_audio (audio_data : audio) : M (option str) :=
  log INFO MsgTranscribing ;;
  let audio_bytes := List.concat audio_data in
  match frombuffer audio_bytes with
  | None =>
      log ERROR MsgTranscribeFailed ;;
      ret None
  | Some audio_np =>
      if (2 * Z.of_nat (List.length audio_np) <? RATE cfg)%Z then
        log WARNING MsgAudioTooShort ;;
        ret None
      else
        log INFO (MsgAudioLength (Z.of_nat (List.length audio_np))) ;;
        answer <- model_transcribe audio_np (source_language cfg) ;;
        match answer with
        | SttRaise =>
            log ERROR MsgTranscribeFailed ;;
            ret None
        | SttResult text =>
            let original_text :=
              strip (match text with Some t => t | None => [] end) in
            log INFO (MsgRawTranscription original_text) ;;
            if truthy original_text then
              corrected_text <- semantic_correction original_text ;;
              log INFO (MsgAfterCorrection corrected_text) ;;
              ret (Some corrected_text)
            else ret None
        end
  end.

(** *** Translation, formatting, dispatch *)

(** [translate_text], lines 351-378. *)
Definition translate_text (text target_language : str) : M str :=
  if negb (truthy text) then ret []
  else
    log INFO (MsgTranslating target_language) ;;
    response <-
      chat_create
        (TranslationPrompt (source_language cfg) target_language text) 1000 ;;
    match response with
    | ChatContent content =>
        let translated_text := strip content in
        log INFO (MsgTranslated target_language translated_text) ;;
        ret translated_text
    | ChatRaise =>
        log ERROR (MsgTranslateFailed target_language) ;;
        ret []
    end.

(** The loop of lines 396-399 over the remaining target languages. *)
Fixpoint translate_targets (original_text : str) (langs : list str)
  (translations : PyDict.dict) : M PyDict.dict :=
  match langs with
  | [] => ret translations
  | lang :: rest =>
      translated_text <- translate_text original_text lang ;;
      translate_targets original_text rest
        (if truthy translated_text
         then PyDict.setitem translations lang translated_text
         else translations)
  end.

(** The lines collected by [format_output], lines 418-427. *)
Definition output_lines (translations : PyDict.dict) (original_text : str)
  : list str :=
  filter truthy (PyDict.values translations)
  ++ (if truthy original_text then [original_text] else []).

(** [format_output], lines 416-432. *)
Definition format_output (translations : PyDict.dict) (original_text : str)
  : M str :=
  let output := join_lines (output_lines translations original_text) in
  log INFO (MsgFormatted output) ;;
  ret output.

Definition chatbox_input : str := lit "/chatbox/input".

(** [send_to_vrchat], lines 434-447. *)
Definition send_to_vrchat (text : str) : M unit :=
  if negb (truthy text) then log WARNING MsgNothingToSend
  else
    sent <- osc_send_message chatbox_input
              [OscStr text; OscBool true; OscBool false] ;;
    if sent then log INFO (MsgSent text)
    else log ERROR MsgSendFailed.

(** *** The worker *)

(** Lines 393-405: what the worker does with the text it got back from
    [transcribe_audio]. *)
Definition translate_and_send (original_text : option str) : M unit :=
  match original_text with
  | Some text =>
      if truthy text then
        translations <- translate_targets text (target_languages cfg) [] ;;
        output_text <- format_output translations text ;;
        send_to_vrchat output_text
      else ret tt
  | None => ret tt
  end.

(** Lines 384-388: one [queue.get(timeout=1)].  An empty queue raises
    [queue.Empty] and the loop goes round again; [None] breaks out of
    the loop; any other item is taken and the busy flag raised. *)
Definition worker_get : M unit :=
  fun s =>
    match translation_queue s with
    | [] => (tt, s)
    | item :: rest =>
        (modify (with_translation_queue rest) ;;
         emit (QueueGet item) ;;
         match item with
         | None => modify (with_worker Exited)
         | Some audio_data =>
             modify (with_is_translating true) ;;
             modify (with_worker (Holding audio_data))
         end) s
    end.

(** Lines 390-408: the rest of the loop body for a dequeued recording. *)
Definition worker_process (audio_data : audio) : M unit :=
  original_text <- transcribe_audio audio_data ;;
  translate_and_send original_text ;;
  modify (with_is_translating false) ;;
  emit QueueTaskDone ;;
  modify (with_worker Waiting).

(** One move of the worker thread. *)
Definition worker_step : M unit :=
  fun s =>
    match worker s with
    | Waiting => worker_get s
    | Holding audio_data => worker_process audio_data s
    | Exited => (tt, s)
    end.

(** [process_translation_queue], lines 380-414, run for at most [fuel]
    moves of the worker with nothing else running; the loop has been
    left when the worker is [Exited]. *)
Fixpoint process_translation_queue (fuel : nat) (s : State) : State :=
  match fuel with
  | O => s
  | S fuel' =>
      match worker s with
      | Exited => s
      | _ => process_translation_queue fuel' (exec worker_step s)
      end
  end.

(** *** The hotkey *)

(** [hasattr(key, 'char') and key.char and
    key.char.lower() == self.hotkey_char]. *)
Definition is_hotkey (k : key) : bool :=
  match k with
  | KeyCode (Some c) => truthy c && PyStr.eqb (lower c) (hotkey_char cfg)
  | _ => false
  end.

(** [on_press], lines 456-467. *)
Definition on_press (k : key) : M unit :=
  if is_hotkey k then
    modify (with_hotkey_pressed true) ;;
    fun s =>
      if negb (is_recording s) && negb (is_translating s) then
        (log INFO MsgHotkeyDown ;; start_recording) s
      else (tt, s)
  else ret tt.

(** [on_release], lines 469-480. *)
Definition on_release (k : key) : M unit :=
  if is_hotkey k then
    modify (with_hotkey_pressed false) ;;
    fun s =>
      if is_recording s then (log INFO MsgHotkeyUp ;; stop_recording) s
      else (tt, s)
  else ret tt.

(** [cleanup], lines 501-506, with [self.audio.terminate()]
    returning. *)
Definition cleanup : M unit :=
  emit AudioTerminate ;;
  emit (QueuePut None) ;;
  modify (fun s => with_translation_queue (translation_queue s ++ [None]) s).

(** *** The threads together *)

(** What can happen next: a key event on the listener thread, a frame
    read on a recording thread, a move of the worker, or shutdown.  A
    method body runs as one step.  The worker's loop body is two steps:
    [queue.get] with the raising of the busy flag (lines 384-388), then
    the job with the lowering of the flag and [task_done] (lines
    391-408).  In the code the other threads can also run at the lines
    in between; a run of the model is one in which they do not. *)
Inductive action :=
| Press (k : key)
| Release (k : key)
| Capture (data : option frame)
| Work
| Shutdown.

Definition act (a : action) : M unit :=
  match a with
  | Press k => on_press k
  | Release k => on_release k
  | Capture data => record_audio_turn data
  | Work => worker_step
  | Shutdown => cleanup
  end.

Definition schedule (acts : list action) (s : State) : State :=
  fold_left (fun st a => exec (act a) st) acts s.

End Methods.

(** The object as [__init__] leaves it, with the worker thread started
    and the collaborators' answers [w]. *)
Definition initial (w : World) : State :=
  {| is_recording := false; audio_data := None; stream := false;
     hotkey_pressed := false; is_translating := false;
     translation_queue := []; worker := Waiting;
     world := w; trace := [] |}.

(* ================================================================== *)
(** ** Reading a trace *)

(** The datagrams handed to the OSC client. *)
Definition sends (t : list event) : list (str * list osc_arg) :=
  flat_map (fun e => match e with
                     | OscSend a args => [(a, args)]
                     | _ => []
                     end) t.

(** The chat-completion requests. *)
Definition chats (t : list event) : list prompt :=
  flat_map (fun e => match e with ChatCreate p _ => [p] | _ => [] end) t.

(** The speech-to-text calls. *)
Definition transcriptions (t : list event) : list (list Z) :=
  flat_map (fun e => match e with ModelTranscribe w _ => [w] | _ => [] end) t.

(** The items put on, and taken from, the translation queue. *)
Definition puts (t : list event) : list (option audio) :=
  flat_map (fun e => match e with QueuePut i => [i] | _ => [] end) t.

Definition gets (t : list event) : list (option audio) :=
  flat_map (fun e => match e with QueueGet i => [i] | _ => [] end) t.

(** The log entries of a given level. *)
Definition logged (lv : level) (t : list event) : list log_msg :=
  flat_map (fun e =>
              match e, lv with
              | Log INFO m, INFO => [m]
              | Log WARNING m, WARNING => [m]
              | Log ERROR m, ERROR => [m]
              | _, _ => []
              end) t.

(** The recording sessions begun: each start of a recording thread that
    went through. *)
Definition thread_starts (t : list event) : nat :=
  List.length (filter (fun e => match e with RecordingThreadStart => true
                                        | _ => false end) t).

(** The state after a run of collaborator calls and log entries on the
    worker side: [a], [b], [c] answers taken from the speech-to-text,
    chat and OSC scripts, and [evs] appended to the trace. *)
Definition advanced (s : State) (a b c : nat) (evs : list event) : State :=
  {| is_recording := is_recording s; audio_data := audio_data s;
     stream := stream s; hotkey_pressed := hotkey_pressed s;
     is_translating := is_translating s;
     translation_queue := translation_queue s; worker := worker s;
     world := {| open_results := open_results (world s);
                 info_results := info_results (world s);
                 thread_results := thread_results (world s);
                 stream_results := stream_results (world s);
                 transcribe_results := skipn a (transcribe_results (world s));
                 chat_results := skipn b (chat_results (world s));
                 send_results := skipn c (send_results (world s)) |};
     trace := trace s ++ evs |}.


(* ================================================================== *)
(** ** Vocabulary of the statements *)

(** The text [translate_text] returns for an answer of the service:
    the stripped content, or the empty string after an exception. *)
Definition translation_of (o : chat_outcome) : str :=
  match o with
  | ChatContent content => strip content
  | ChatRaise => []
  end.

(** The next [n] answers of a script. *)
Fixpoint answers (n : nat) (script : list chat_outcome) : list chat_outcome :=
  match n with
  | O => []
  | S n' => hd ChatRaise script :: answers n' (tl script)
  end.

(** The number of 16-bit samples held by a recording. *)
Definition sample_count (a : audio) : Z :=
  (Z.of_nat (List.length (List.concat a)) / 2)%Z.

(** The test of line 279: fewer samples than half the configured
    rate. *)
Definition below_minimum_duration (cfg : Config) (a : audio) : Prop :=
  (2 * sample_count a < RATE cfg)%Z.

(** Less than half a second of sound.  The stream is opened with
    [CHANNELS] channels at [RATE] frames a second (lines 213-220) and
    delivers [CHANNELS] samples for every frame, so a recording of [n]
    samples lasts [n / (CHANNELS * RATE)] seconds. *)
Definition shorter_than_half_second (cfg : Config) (a : audio) : Prop :=
  (2 * sample_count a < CHANNELS cfg * RATE cfg)%Z.

(** A speech-to-text answer with nothing in it: an exception, a result
    without text, or text that is empty once stripped. *)
Definition stt_empty (o : stt_outcome) : bool :=
  match o with
  | SttRaise => true
  | SttResult None => true
  | SttResult (Some t) => negb (truthy (strip t))
  end.

(** The end of a job, lines 407-408: the busy flag is lowered, the
    queue is told, and the worker goes back to [queue.get]. *)
Definition job_done (s : State) : State :=
  with_worker Waiting
    (with_trace (trace s ++ [QueueTaskDone]) (with_is_translating false s)).

(** The log entry that closes one [translate_text] call. *)
Definition translate_log (lang : str) (o : chat_outcome) : event :=
  match o with
  | ChatContent content => Log INFO (MsgTranslated lang (strip content))
  | ChatRaise => Log ERROR (MsgTranslateFailed lang)
  end.

(** The events of the fan-out, for each language with its answer. *)
Definition translate_events (cfg : Config) (text : str)
  (calls : list (str * chat_outcome)) : list event :=
  flat_map (fun c =>
              [Log INFO (MsgTranslating (fst c));
               ChatCreate
                 (TranslationPrompt (source_language cfg) (fst c) text) 1000;
               translate_log (fst c) (snd c)]) calls.

(** The dictionary the fan-out builds from the answers. *)
Definition collect (d : PyDict.dict) (calls : list (str * chat_outcome))
  : PyDict.dict :=
  fold_left (fun d c =>
               if truthy (translation_of (snd c))
               then PyDict.setitem d (fst c) (translation_of (snd c))
               else d) calls d.

(** The translation a language ends up with: that of its last call that
    gave a non-empty text, if there is one.  Calls for other languages
    play no part. *)
Fixpoint last_translation (lang : str) (calls : list (str * chat_outcome))
  : option str :=
  match calls with
  | [] => None
  | c :: rest =>
      match last_translation lang rest with
      | Some v => Some v
      | None =>
          if PyStr.eqb (fst c) lang && truthy (translation_of (snd c))
          then Some (translation_of (snd c))
          else None
      end
  end.

(** The message as the specification words it: for each configured
    target language, in the order of the configured list, the
    translation the set holds for it, empty ones left out; then the
    source text. *)
Definition spec_output_message (targets : list str)
  (translations : PyDict.dict) (text : str) : str :=
  join_lines
    (filter truthy
       (flat_map (fun l => match PyDict.get translations l with
                           | Some v => [v]
                           | None => []
                           end) targets)
     ++ [text]).

(** *** Concrete runs *)

Definition ni_hao : str := [20320; 22909]%N.
Definition ni_hao_shi_jie : str := [20320; 22909; 19990; 30028]%N.
Definition konnichiwa_sekai : str :=
  [12371; 12435; 12395; 12385; 12399; 19990; 30028]%N.

Definition quiet_world : World :=
  {| open_results := []; info_results := []; thread_results := [];
     stream_results := []; transcribe_results := []; chat_results := [];
     send_results := [] |}.

Definition with_chat (script : list chat_outcome) (w : World) : World :=
  {| open_results := open_results w; info_results := info_results w;
     thread_results := thread_results w; stream_results := stream_results w;
     transcribe_results := transcribe_results w; chat_results := script;
     send_results := send_results w |}.

(** The end-to-end scenario: source "zh", targets "en" and "ja". *)
Definition scenario_cfg : Config :=
  {| CHANNELS := 1; RATE := 16000; source_language := lit "zh";
     target_languages := [lit "en"; lit "ja"]; hotkey_char := lit "k" |}.

(** Half a second of silence in one frame, 8000 samples. *)
Definition scenario_audio : audio := [repeat 0%Z (Z.to_nat 16000)].

Definition scenario_world : World :=
  {| open_results := [true]; info_results := [true]; thread_results := [true];
     stream_results := [true; true];
     transcribe_results := [SttResult (Some ni_hao_shi_jie)];
     chat_results := [ChatContent ni_hao_shi_jie;
                      ChatContent (lit "Hello world");
                      ChatContent konnichiwa_sekai];
     send_results := [true] |}.

(** The scenario recorded with two channels: three tenths of a second
    of silence, 4800 frames of two samples each, in one piece. *)
Definition stereo_cfg : Config :=
  {| CHANNELS := 2; RATE := 16000; source_language := lit "zh";
     target_languages := [lit "en"; lit "ja"]; hotkey_char := lit "k" |}.

Definition stereo_audio : audio := [repeat 0%Z (Z.to_nat 19200)].

(** A configuration that names each target language twice, and a
    service whose first call fails. *)
Definition repeated_cfg : Config :=
  {| CHANNELS := 1; RATE := 16000; source_language := lit "zh";
     target_languages := [lit "en"; lit "ja"; lit "en"; lit "ja"];
     hotkey_char := lit "k" |}.

Definition repeated_world : World :=
  with_chat [ChatRaise; ChatContent konnichiwa_sekai;
             ChatContent (lit "Hello world"); ChatContent konnichiwa_sekai]
    quiet_world.

(** The [translations] dictionary of that run, for the text "你好". *)
Definition repeated_translations : PyDict.dict :=
  result (translate_targets repeated_cfg ni_hao
            (target_languages repeated_cfg) [])
    (initial repeated_world).

(** [semantic_correction] returns at once on an empty text and on one
    whose stripped form has fewer than two characters. *)
Definition correction_skipped (text : str) : bool :=
  negb (truthy text) || (len (strip text) <? 2)%Z.

(** The text [semantic_correction] returns for an answer of the
    service, when it asks. *)
Definition refined (text : str) (o : chat_outcome) : str :=
  match o with
  | ChatContent content =>
      if negb (truthy (strip content)) || PyStr.eqb (strip content) text
      then text else strip content
  | ChatRaise => text
  end.

(** A string that does not begin with white space. *)
Definition starts_clean (t : str) : bool :=
  match t with [] => true | c :: _ => negb (isspace c) end.

(** Events a job emits between taking a recording and [task_done]. *)
Definition worker_event (e : event) : bool :=
  match e with
  | Log _ _ | ModelTranscribe _ _ | ChatCreate _ _ | OscSend _ _ => true
  | _ => false
  end.

(** Events of the listener and recording side that leave the queue
    alone. *)
Definition recording_event (e : event) : bool :=
  match e with
  | Log _ _ | AudioOpen | DeviceInfo | RecordingThreadStart
  | StreamStop | StreamClose | AudioTerminate => true
  | _ => false
  end.

(** A release of the trigger key. *)
Definition hotkey_release (cfg : Config) (lower : str -> str) (a : action)
  : bool :=
  match a with
  | Release k => is_hotkey cfg lower k
  | _ => false
  end.

Definition is_shutdown (a : action) : bool :=
  match a with Shutdown => true | _ => false end.

(** Whether the worker holds a dequeued recording. *)
Definition holding (w : worker_state) : bool :=
  match w with Holding _ => true | _ => false end.

(** Reading a trace from the start, is a job open?  [None] reports a
    trace in which a recording was taken while another job was still
    open, or a job event or [task_done] occurred outside a job. *)
Definition track (st : option bool) (e : event) : option bool :=
  match st with
  | None => None
  | Some busy =>
      match e with
      | QueueGet (Some _) => if busy then None else Some true
      | QueueTaskDone => if busy then Some false else None
      | ModelTranscribe _ _ | ChatCreate _ _ | OscSend _ _ =>
          if busy then Some true else None
      | _ => Some busy
      end
  end.

Definition jobs_in_turn (t : list event) : option bool :=
  fold_left track t (Some false).

(** What holds of the queue and the worker at every moment: the items
    put so far are those taken so far followed by those still queued;
    the jobs in the trace come one after the other, the last one being
    open exactly when the worker holds a recording; and a worker that
    has left its loop has taken the sentinel. *)
Definition queue_invariant (s : State) : Prop :=
  puts (trace s) = gets (trace s) ++ translation_queue s
  /\ jobs_in_turn (trace s) = Some (holding (worker s))
  /\ (worker s = Exited -> In None (gets (trace s))).

(** [str.lower] on ASCII letters, for the concrete runs. *)
Definition ascii_lower (t : str) : str :=
  map (fun c => if ((65 <=? c) && (c <=? 90))%N then (c + 32)%N else c) t.

(** The trigger key of the scenario, and a frame of two samples. *)
Definition key_k : key := KeyCode (Some (lit "k")).
Definition short_frame : frame := [0; 0; 1; 0]%Z.

(** A device that fails to open once, then opens. *)
Definition flaky_device_world : World :=
  {| open_results := [false; true]; info_results := [true];
     thread_results := [true]; stream_results := [true; true];
     transcribe_results := []; chat_results := []; send_results := [] |}.

(** A model that hears only white space. *)
Definition silent_world : World :=
  {| open_results := []; info_results := []; thread_results := [];
     stream_results := [];
     transcribe_results := [SttResult (Some (lit "  "))];
     chat_results := []; send_results := [] |}.

(** The scenario with a correction service that raises. *)
Definition failing_correction_world : World :=
  with_chat [ChatRaise; ChatContent (lit "Hello world");
             ChatContent konnichiwa_sekai] scenario_world.

(** A device that opens twice, for two recordings in a row. *)
Definition two_takes_world : World :=
  {| open_results := [true; true]; info_results := [true; true];
     thread_results := [true; true];
     stream_results := [true; true; true; true];
     transcribe_results := []; chat_results := []; send_results := [] |}.

(* ================================================================== *)
(** ** Further vocabulary *)

From Stdlib Require Import Sorted.

(** The recordings among queue items, the sentinel left out. *)
Definition recordings (items : list (option audio)) : list audio :=
  flat_map (fun i => match i with Some a => [a] | None => [] end) items.

(** The number of [task_done] calls. *)
Definition task_dones (t : list event) : nat :=
  List.length (filter (fun e => match e with QueueTaskDone => true
                                        | _ => false end) t).

(** Both calls that close the stream return. *)
Definition stream_closes (s : State) : bool :=
  negb (stream s)
  || (hd false (stream_results (world s))
      && hd false (tl (stream_results (world s)))).

(** The audio device answers a press with an open stream and a running
    recording thread. *)
Definition device_ready (s : State) : bool :=
  hd false (open_results (world s))
  && hd false (info_results (world s))
  && hd false (thread_results (world s)).

(** Between two steps of the worker the busy flag is up exactly when
    it holds a recording (in the code the flag goes up a moment after
    [queue.get] and down a moment before [task_done]); and as long as
    the frame buffer is [None] no recording thread has been started and
    no recording enqueued. *)
Definition flags_sound (s : State) : Prop :=
  is_translating s = holding (worker s)
  /\ (audio_data s = None ->
      thread_starts (trace s) = 0 /\ recordings (puts (trace s)) = []).

(** The books of the queue: every item taken has been acknowledged by
    [task_done] except the recording the worker holds and the sentinel;
    no more messages were sent than jobs finished; no more recordings
    were enqueued than recording threads started. *)
Definition accounts (s : State) : Prop :=
  List.length (gets (trace s))
  = task_dones (trace s) + match worker s with Waiting => 0 | _ => 1 end
  /\ List.length (recordings (gets (trace s)))
     = task_dones (trace s) + (if holding (worker s) then 1 else 0)
  /\ List.length (sends (trace s)) <= task_dones (trace s)
  /\ List.length (recordings (puts (trace s)))
     + (if is_recording s then 1 else 0)
     <= thread_starts (trace s).

(** The books of a record of calls, at any moment of a run: no more
    messages sent and no more jobs finished than recordings taken, at
    most one recording taken and not yet finished, no more recordings
    taken than put, no more put than recording threads started. *)
Definition books (t : list event) : Prop :=
  List.length (sends t) <= List.length (recordings (gets t))
  /\ task_dones t <= List.length (recordings (gets t))
  /\ List.length (recordings (gets t)) <= S (task_dones t)
  /\ List.length (recordings (gets t)) <= List.length (recordings (puts t))
  /\ List.length (recordings (puts t)) <= thread_starts t.

(* ================================================================== *)
(** ** Choosing the input device *)

(** The entries of a PyAudio device-info dict that the program reads;
    an entry may be missing.  Sample rates are kept as integers. *)
Record device_info := {
  info_index : option Z;
  info_name : option str;
  info_maxInputChannels : option Z;
  info_defaultSampleRate : option Z
}.

(** The PyAudio object as [setup_audio] uses it; [None] stands for a
    call that raises. *)
Record PyAudio := {
  get_device_count : option Z;
  get_device_info_by_index : Z -> option device_info;
  get_default_input_device_info : option device_info
}.

(** An entry of [self.available_devices]. *)
Record input_device := {
  dev_index : Z;
  dev_name : str;
  dev_maxInputChannels : Z;
  dev_defaultSampleRate : Z
}.

(** The log calls of [setup_audio], [get_audio_devices] and
    [select_input_device]. *)
Inductive setup_log :=
| LogDevicesFound (n : nat)      (* setup_audio, info, line 110 *)
| LogAudioReady                  (* setup_audio, info, line 115 *)
| LogAudioFailed                 (* setup_audio, error, line 117 *)
| LogListFailed                  (* get_audio_devices, error, line 134 *)
| LogUsingConfigured (name : option str) (i : Z)
                                 (* select_input_device, info, line 148 *)
| LogUsingDefault (name : option str) (i : option Z)
                                 (* select_input_device, info, line 153 *)
| LogSelectFailed                (* select_input_device, error, line 157 *)
| LogUsingFirst (name : str)     (* select_input_device, info, line 160 *)
| LogNoInputDevice.              (* select_input_device, error, line 163 *)

(** [device_info.get('maxInputChannels', 0)]. *)
Definition channels (d : device_info) : Z :=
  match info_maxInputChannels d with Some c => c | None => 0%Z end.

(** [range(n)]. *)
Definition range (n : Z) : list Z := map Z.of_nat (seq 0 (Z.to_nat n)).

(** The loop of [get_audio_devices], lines 124-132, over the remaining
    indexes; the flag tells whether [get_device_info_by_index] raised,
    which ends the loop. *)
Fixpoint list_devices (audio : PyAudio) (indexes : list Z)
  (devices : list input_device) : list input_device * bool :=
  match indexes with
  | [] => (devices, false)
  | i :: rest =>
      match get_device_info_by_index audio i with
      | None => (devices, true)
      | Some device_info =>
          list_devices audio rest
            (if (0 <? channels device_info)%Z then
               devices
               ++ [{| dev_index := i;
                      dev_name := match info_name device_info with
                                  | Some n => n
                                  | None => lit "Unknown"
                                  end;
                      dev_maxInputChannels := channels device_info;
                      dev_defaultSampleRate :=
                        match info_defaultSampleRate device_info with
                        | Some r => r
                        | None => 0%Z
                        end |}]
             else devices)
      end
  end.

(** [get_audio_devices], lines 120-136: the devices found and the log. *)
Definition get_audio_devices (audio : PyAudio)
  : list input_device * list setup_log :=
  match get_device_count audio with
  | None => ([], [LogListFailed])
  | Some n =>
      let (devices, raised) := list_devices audio (range n) [] in
      (devices, if raised then [LogListFailed] else [])
  end.

(** The [try] block of [select_input_device], lines 141-154:
    [Some index] when it returns, [None] when it raises.  [env] is the
    value of [AUDIO_DEVICE_INDEX], [int_of] is Python's [int] on a
    string, [None] when it raises [ValueError]. *)
Definition select_attempt (env : option str) (int_of : str -> option Z)
  (audio : PyAudio) : option (option Z) * list setup_log :=
  let use_default :=
    match get_default_input_device_info audio with
    | Some default_device =>
        (Some (info_index default_device),
         [LogUsingDefault (info_name default_device)
            (info_index default_device)])
    | None => (None, [])
    end in
  match env with
  | Some text =>
      if truthy text then
        match int_of text with
        | None => (None, [])
        | Some device_index =>
            if (0 <=? device_index)%Z then
              match get_device_count audio with
              | None => (None, [])
              | Some count =>
                  if (device_index <? count)%Z then
                    match get_device_info_by_index audio device_index with
                    | None => (None, [])
                    | Some device_info =>
                        if (0 <? channels device_info)%Z then
                          (Some (Some device_index),
                           [LogUsingConfigured (info_name device_info)
                              device_index])
                        else use_default
                    end
                  else use_default
              end
            else use_default
        end
      else use_default
  | None => use_default
  end.

(** [select_input_device], lines 138-164: the index returned, [None]
    when the method raises. *)
Definition select_input_device (env : option str) (int_of : str -> option Z)
  (audio : PyAudio) (available_devices : list input_device)
  : option (option Z) * list setup_log :=
  match select_attempt env int_of audio with
  | (Some index, logs) => (Some index, logs)
  | (None, logs) =>
      match available_devices with
      | first :: _ =>
          (Some (Some (dev_index first)),
           logs ++ [LogSelectFailed; LogUsingFirst (dev_name first)])
      | [] => (None, logs ++ [LogSelectFailed; LogNoInputDevice])
      end
  end.

(** [setup_audio], lines 103-118: [created] is the outcome of
    [pyaudio.PyAudio()]; the result is [self.available_devices] with
    [self.input_device_index], [None] when the method raises. *)
Definition setup_audio (created : option PyAudio) (env : option str)
  (int_of : str -> option Z)
  : option (list input_device * option Z) * list setup_log :=
  match created with
  | None => (None, [LogAudioFailed])
  | Some audio =>
      let (available_devices, logs) := get_audio_devices audio in
      let found := LogDevicesFound (List.length available_devices) in
      match select_input_device env int_of audio available_devices with
      | (Some input_device_index, logs') =>
          (Some (available_devices, input_device_index),
           logs ++ [found] ++ logs' ++ [LogAudioReady])
      | (None, logs') => (None, logs ++ [found] ++ logs' ++ [LogAudioFailed])
      end
  end.

(** A device that can be read and has input channels. *)
Definition has_input (audio : PyAudio) (i : Z) : bool :=
  match get_device_info_by_index audio i with
  | Some d => (0 <? channels d)%Z
  | None => false
  end.

Definition readable (audio : PyAudio) (i : Z) : bool :=
  match get_device_info_by_index audio i with
  | Some _ => true
  | None => false
  end.

(** The longest prefix whose elements satisfy [f]. *)
Fixpoint take_while {A : Type} (f : A -> bool) (l : list A) : list A :=
  match l with
  | [] => []
  | x :: r => if f x then x :: take_while f r else []
  end.

(* ================================================================== *)
(** ** Reading the target languages *)

Definition comma : char := 44%N.

(** [s.split(sep)] for a separator of one character: the pieces
    between the separators, empty pieces included; never an empty
    list. *)
Fixpoint split_on (sep : char) (s : str) : list str :=
  match s with
  | [] => [[]]
  | c :: r =>
      if (c =? sep)%N then [] :: split_on sep r
      else match split_on sep r with
           | piece :: pieces => (c :: piece) :: pieces
           | [] => [[c]]
           end
  end.

(** [sep.join(pieces)] for a separator of one character. *)
Fixpoint join_on (sep : char) (pieces : list str) : str :=
  match pieces with
  | [] => []
  | [piece] => piece
  | piece :: rest => piece ++ sep :: join_on sep rest
  end.

(** [os.getenv("TARGET_LANGUAGES", "en,ja,ko").split(",")], line 57;
    [setting] is the value of the variable, [None] when it is unset. *)
Definition target_languages_from (setting : option str) : list str :=
  split_on comma
    (match setting with Some v => v | None => lit "en,ja,ko" end).

(** The number of occurrences of a character. *)
Definition occurrences (c : char) (s : str) : nat :=
  List.length (filter (N.eqb c) s).

(* ================================================================== *)
(** ** Further concrete runs *)

(** The scenario after a press of the trigger key and one frame. *)
Definition recording_state : State :=
  schedule scenario_cfg ascii_lower
    [Press key_k; Capture (Some short_frame)] (initial scenario_world).

(** A device whose stream cannot be stopped. *)
Definition stuck_stream_world : World :=
  {| open_results := [true; true]; info_results := [true; true];
     thread_results := [true; true]; stream_results := [false];
     transcribe_results := []; chat_results := []; send_results := [] |}.

Definition stuck_recording_state : State :=
  schedule scenario_cfg ascii_lower
    [Press key_k; Capture (Some short_frame)] (initial stuck_stream_world).

(** The scenario with the recording in the worker's hands. *)
Definition translating_state : State :=
  schedule scenario_cfg ascii_lower
    [Press key_k; Capture (Some short_frame); Release key_k; Work]
    (initial scenario_world).

(** The scenario after shutdown, the worker having taken the sentinel. *)
Definition exited_state : State :=
  process_translation_queue scenario_cfg 1
    (exec cleanup (initial scenario_world)).

(** Three devices: an output, and two microphones. *)
Definition three_devices : PyAudio :=
  {| get_device_count := Some 3%Z;
     get_device_info_by_index :=
       fun i =>
         if (i =? 0)%Z then
           Some {| info_index := Some 0%Z; info_name := Some (lit "Speakers");
                   info_maxInputChannels := Some 0%Z;
                   info_defaultSampleRate := Some 48000%Z |}
         else if (i =? 1)%Z then
           Some {| info_index := Some 1%Z; info_name := Some (lit "Headset");
                   info_maxInputChannels := Some 1%Z;
                   info_defaultSampleRate := Some 16000%Z |}
         else if (i =? 2)%Z then
           Some {| info_index := Some 2%Z; info_name := None;
                   info_maxInputChannels := Some 2%Z;
                   info_defaultSampleRate := None |}
         else None;
     get_default_input_device_info := None |}.

(** A stand-in for [int] on strings of one decimal digit, for the
    concrete runs. *)
Definition one_digit (t : str) : option Z :=
  match t with
  | [c] => if ((48 <=? c) && (c <=? 57))%N
           then Some (Z.of_N c - 48)%Z else None
  | _ => None
  end.

(* ================================================================== *)
(** ** The configuration file *)

(** [ConfigManager] of config_gui.py, lines 128-189: the settings are a
    [dict] of strings, kept in the file [.env] as lines [KEY=value]. *)
Module ConfigManager.

Definition hash : char := 35%N.
Definition equals : char := 61%N.
Definition carriage_return : char := 13%N.

(** Reading in text mode with the default [newline=None]: ["\r\n"] and
    a lone ["\r"] both arrive as ["\n"]. *)
Fixpoint universal_newlines (t : str) : str :=
  match t with
  | [] => []
  | c :: r =>
      if (c =? carriage_return)%N then
        newline :: match r with
                   | c' :: r' =>
                       if (c' =? newline)%N then universal_newlines r'
                       else universal_newlines r
                   | [] => []
                   end
      else c :: universal_newlines r
  end.

(** Writing in text mode: every ["\n"] is written as [os.linesep]. *)
Definition write_newlines (linesep : str) (t : str) : str :=
  flat_map (fun c => if (c =? newline)%N then linesep else [c]) t.

(** [for line in f]: the lines of the text, each with its ["\n"], the
    last one possibly without. *)
Fixpoint file_lines (t : str) : list str :=
  match t with
  | [] => []
  | c :: r =>
      if (c =? newline)%N then [c] :: file_lines r
      else match file_lines r with
           | line :: lines => (c :: line) :: lines
           | [] => [[c]]
           end
  end.

(** [line.startswith(c)] for one character. *)
Definition startswith (c : char) (line : str) : bool :=
  match line with
  | x :: _ => (x =? c)%N
  | [] => false
  end.

(** [c in line] for one character. *)
Definition contains (c : char) (line : str) : bool :=
  existsb (N.eqb c) line.

(** [line.split(sep, 1)] unpacked into two names: the text before the
    first separator and the text after it; [None] when there is no
    separator, where the unpacking raises. *)
Fixpoint split_once (sep : char) (line : str) : option (str * str) :=
  match line with
  | [] => None
  | c :: r =>
      if (c =? sep)%N then Some ([], r)
      else match split_once sep r with
           | Some (before, after) => Some (c :: before, after)
           | None => None
           end
  end.

(** The body of the loop of [load_config], lines 141-144, on one line
    of the file; [None] when it raises. *)
Definition load_line (config : PyDict.dict) (raw : str)
  : option PyDict.dict :=
  let line := strip raw in
  if truthy line && negb (startswith hash line) && contains equals line
  then
    match split_once equals line with
    | Some (key, value) =>
        Some (PyDict.setitem config (strip key) (strip value))
    | None => None
    end
  else Some config.

Fixpoint load_lines (config : PyDict.dict) (lines : list str)
  : option PyDict.dict :=
  match lines with
  | [] => Some config
  | raw :: rest =>
      match load_line config raw with
      | Some config' => load_lines config' rest
      | None => None
      end
  end.

(** The entry that one line of the file defines, if it defines one:
    the assignment of line 144 read on its own. *)
Definition line_entry (raw : str) : option (str * str) :=
  let line := strip raw in
  if truthy line && negb (startswith hash line) && contains equals line
  then
    match split_once equals line with
    | Some (key, value) => Some (strip key, strip value)
    | None => None
    end
  else None.

(** The entries of a file, in the order of its lines. *)
Definition entries (t : str) : list (str * str) :=
  flat_map (fun raw => match line_entry raw with
                       | Some e => [e]
                       | None => []
                       end)
    (file_lines (universal_newlines t)).

(** [d.update(entries)]: the entries assigned one after the other. *)
Definition update (d items : PyDict.dict) : PyDict.dict :=
  fold_left (fun c e => PyDict.setitem c (fst e) (snd e)) items d.

(** What [save_config] writes, lines 176-177: one [f"{key}={value}\n"]
    per item, in the order of the dict. *)
Fixpoint save_text (config : PyDict.dict) : str :=
  match config with
  | [] => []
  | (key, value) :: rest =>
      key ++ equals :: value ++ newline :: save_text rest
  end.

(** What the program finds at [.env]: no file, a file that cannot be
    opened or decoded, or the text of the file as stored. *)
Inductive env_file :=
| Absent
| Unreadable
| Text (t : str).

Inductive printed :=
| LoadFailed       (* "加载配置文件失败" *)
| SaveFailed.      (* "保存配置文件失败" *)

(** The object and its surroundings: [writable] tells whether
    [open(self.env_file, 'w')] succeeds; a failed save is a failure to
    open, which leaves the file as it was.  The writes themselves are
    taken to return: a value that cannot be encoded, or a full disk,
    makes [f.write] raise after the file has been emptied, and lies
    outside this model; what is said of a save below is said of one
    that returned [True]. *)
Record Manager := {
  config : PyDict.dict;
  file : env_file;
  writable : bool;
  output : list printed
}.

Definition with_config (c : PyDict.dict) (m : Manager) : Manager :=
  {| config := c; file := file m; writable := writable m;
     output := output m |}.

Definition with_file (f : env_file) (m : Manager) : Manager :=
  {| config := config m; file := f; writable := writable m;
     output := output m |}.

Definition print (p : printed) (m : Manager) : Manager :=
  {| config := config m; file := file m; writable := writable m;
     output := output m ++ [p] |}.

(** The settings of [create_default_config], lines 154-169. *)
Definition default_config : PyDict.dict :=
  [ (lit "SOURCE_LANGUAGE", lit "zh");
    (lit "TARGET_LANGUAGES", lit "en");
    (lit "OSC_IP", lit "127.0.0.1");
    (lit "OSC_PORT", lit "9000");
    (lit "HOTKEY", lit "k");
    (lit "AUDIO_DEVICE_INDEX", lit "0");
    (lit "WHISPER_MODEL", lit "large-v3-turbo");
    (lit "DEEPSEEK_BASE_URL", lit "https://api.deepseek.com");
    (lit "DEEPSEEK_API_KEY", lit "");
    (lit "DEEPSEEK_MODEL", lit "deepseek-chat");
    (lit "AUDIO_CHUNK", lit "1024");
    (lit "AUDIO_RATE", lit "16000");
    (lit "AUDIO_CHANNELS", lit "1");
    (lit "LOG_LEVEL", lit "INFO") ].

Section Platform.

(** [os.linesep]. *)
Variable linesep : str.

(** [save_config], lines 172-181. *)
Definition save_config (m : Manager) : bool * Manager :=
  if writable m then
    (true, with_file (Text (write_newlines linesep (save_text (config m)))) m)
  else (false, print SaveFailed m).

(** [create_default_config], lines 152-170. *)
Definition create_default_config (m : Manager) : Manager :=
  snd (save_config (with_config default_config m)).

(** [load_config], lines 135-150. *)
Definition load_config (m : Manager) : Manager :=
  match file m with
  | Text t =>
      match load_lines (config m) (file_lines (universal_newlines t)) with
      | Some c => with_config c m
      | None => create_default_config (print LoadFailed m)
      end
  | Absent => create_default_config m
  | Unreadable => create_default_config (print LoadFailed m)
  end.

(** [ConfigManager()], lines 130-133. *)
Definition new (f : env_file) (w : bool) : Manager :=
  load_config {| config := []; file := f; writable := w; output := [] |}.

End Platform.

(** [get] and [set], lines 183-189. *)
Definition get (m : Manager) (key : str) (default : option str)
  : option str :=
  match PyDict.get (config m) key with
  | Some v => Some v
  | None => default
  end.

Definition set (m : Manager) (key value : str) : Manager :=
  with_config (PyDict.setitem (config m) key value) m.

(** An entry that the file can hold as it is: key and value without
    surrounding white space and without line breaks, a key without
    ["="] that does not begin a comment. *)
Definition clean_entry (e : str * str) : bool :=
  PyStr.eqb (strip (fst e)) (fst e)
  && PyStr.eqb (strip (snd e)) (snd e)
  && negb (contains equals (fst e))
  && negb (startswith hash (fst e))
  && forallb (fun c => negb (c =? newline)%N
                       && negb (c =? carriage_return)%N)
       (fst e ++ snd e).

(** A line as [for line in f] delivers it: no carriage return, and a
    line feed at the end only. *)
Definition line_ok (raw : str) : Prop :=
  exists body,
    ~ In newline body /\ ~ In carriage_return body
    /\ (raw = body ++ [newline] \/ raw = body).

Definition LF : str := [newline].
Definition CRLF : str := [carriage_return; newline].

(** A file edited by hand: a comment, blank space around names and
    values, a line without ["="], Windows line ends, a key given
    twice. *)
Definition hand_edited : str :=
  lit "# settings" ++ CRLF
  ++ lit "  HOTKEY = k  " ++ CRLF
  ++ lit "TARGET_LANGUAGES=en,ja" ++ LF
  ++ lit "no separator here" ++ LF
  ++ lit "URL=http://host/?a=b" ++ LF
  ++ lit "HOTKEY=j".

(** An object that holds a setting the file does not mention. *)
Definition stale_manager : Manager :=
  {| config := [(lit "HOTKEY", lit "k"); (lit "OSC_PORT", lit "9001")];
     file := Text hand_edited; writable := true; output := [] |}.

(** An object with no file yet. *)
Definition first_start : Manager :=
  {| config := [(lit "HOTKEY", lit "j")]; file := Absent;
     writable := true; output := [] |}.

(** A value typed with blanks around it. *)
Definition padded_manager : Manager :=
  {| config := [(lit "DEEPSEEK_API_KEY", lit " sk-1 ")]; file := Absent;
     writable := true; output := [] |}.

End ConfigManager.
(* ================================================================== *)
(** ** Strings and dictionaries: basic facts *)

Lemma eqb_eq (a b : str) : PyStr.eqb a b = true <-> a = b.
Proof.
  revert b; induction a as [|x a IH]; intros [|y b]; simpl;
    try (split; [discriminate | discriminate]); try tauto.
  rewrite andb_true_iff, N.eqb_eq, IH.
  split; [intros [-> ->]; reflexivity | intros H; inversion H; auto].
Qed.

Lemma eqb_refl (a : str) : PyStr.eqb a a = true.
Proof. apply eqb_eq; reflexivity. Qed.

Lemma eqb_neq (a b : str) : PyStr.eqb a b = false <-> a <> b.
Proof.
  rewrite <- eqb_eq. destruct (PyStr.eqb a b); split; congruence.
Qed.

Lemma truthy_false (t : str) : truthy t = false <-> t = [].
Proof. destruct t; simpl; split; congruence. Qed.

Lemma truthy_true (t : str) : truthy t = true <-> t <> [].
Proof. destruct t; simpl; split; congruence. Qed.

Lemma lstrip_length (t : str) : (List.length (lstrip t) <= List.length t)%nat.
Proof.
  induction t as [|c t IH]; simpl; [lia|].
  destruct (isspace c); simpl; lia.
Qed.

Lemma strip_length (t : str) : (List.length (strip t) <= List.length t)%nat.
Proof.
  unfold strip, rstrip.
  rewrite length_rev.
  etransitivity; [apply lstrip_length|].
  rewrite length_rev. apply lstrip_length.
Qed.

Lemma strip_nil : strip [] = [].
Proof. reflexivity. Qed.

Example len_counts_code_points : len ni_hao_shi_jie = 4%Z.
Proof. reflexivity. Qed.

Example strip_both_ends :
  strip (lit "  Hello world ") = lit "Hello world"
  /\ strip (12288%N :: ni_hao ++ [10%N]) = ni_hao
  /\ strip (lit "   ") = [].
Proof. repeat split. Qed.

Example join_three_lines :
  join_lines [lit "a"; lit "b"; lit "c"] = lit "a" ++ 10%N :: lit "b"
                                           ++ 10%N :: lit "c".
Proof. reflexivity. Qed.

Example frombuffer_samples :
  frombuffer [1; 0; 255; 255; 0; 128]%Z = Some [1; -1; -32768]%Z
  /\ frombuffer [1; 0; 255]%Z = None.
Proof. split; reflexivity. Qed.

Example setitem_keeps_position :
  PyDict.setitem [(lit "ja", lit "a"); (lit "en", lit "b")] (lit "ja") (lit "c")
  = [(lit "ja", lit "c"); (lit "en", lit "b")].
Proof. reflexivity. Qed.

Lemma advanced_id (s : State) : advanced s 0 0 0 [] = s.
Proof.
  destruct s as [r a st h t q w [o i th sr tr cr sn] tc].
  unfold advanced; simpl. rewrite app_nil_r. reflexivity.
Qed.

Lemma advanced_advanced (s : State) a b c evs a' b' c' evs' :
  advanced (advanced s a b c evs) a' b' c' evs'
  = advanced s (a + a') (b + b') (c + c') (evs ++ evs').
Proof.
  unfold advanced; simpl.
  rewrite !skipn_skipn, app_assoc.
  rewrite (Nat.add_comm a'), (Nat.add_comm b'), (Nat.add_comm c').
  reflexivity.
Qed.

(* ================================================================== *)
(** ** What each call does to the state *)

Lemma skipn_1_tl (A : Type) (l : list A) : skipn 1 l = tl l.
Proof. destruct l; reflexivity. Qed.

Lemma emit_run (e : event) (s : State) :
  emit e s = (tt, advanced s 0 0 0 [e]).
Proof.
  destruct s as [r a st h t q w [o i th sr tr cr sn] tc]; reflexivity.
Qed.

Lemma log_run (lv : level) (m : log_msg) (s : State) :
  log lv m s = (tt, advanced s 0 0 0 [Log lv m]).
Proof. apply emit_run. Qed.

Lemma chat_create_run (p : prompt) (n : Z) (s : State) :
  chat_create p n s
  = (hd ChatRaise (chat_results (world s)), advanced s 0 1 0 [ChatCreate p n]).
Proof.
  destruct s as [r a st h t q w [o i th sr tr [|c cr] sn] tc]; reflexivity.
Qed.

Lemma model_transcribe_run (w : list Z) (l : str) (s : State) :
  model_transcribe w l s
  = (hd SttRaise (transcribe_results (world s)),
     advanced s 1 0 0 [ModelTranscribe w l]).
Proof.
  destruct s as [r a st h t q wd [o i th sr [|x tr] cr sn] tc]; reflexivity.
Qed.

Lemma osc_send_message_run (addr : str) (args : list osc_arg) (s : State) :
  osc_send_message addr args s
  = (hd false (send_results (world s)), advanced s 0 0 1 [OscSend addr args]).
Proof.
  destruct s as [r a st h t q wd [o i th sr tr cr [|x sn]] tc]; reflexivity.
Qed.

Lemma bind_run {A B : Type} {m : M A} {s s' : State} {a : A}
  (k : A -> M B) :
  m s = (a, s') -> bind m k s = k a s'.
Proof. unfold bind; intros ->; reflexivity. Qed.

Lemma send_to_vrchat_run (text : str) (s : State) :
  send_to_vrchat text s
  = (tt,
     if truthy text then
       advanced s 0 0 1
         [OscSend (lit "/chatbox/input")
            [OscStr text; OscBool true; OscBool false];
          if hd false (send_results (world s))
          then Log INFO (MsgSent text) else Log ERROR MsgSendFailed]
     else advanced s 0 0 0 [Log WARNING MsgNothingToSend]).
Proof.
  unfold send_to_vrchat.
  destruct (truthy text); simpl; [|apply log_run].
  erewrite bind_run by apply osc_send_message_run.
  destruct (hd false (send_results (world s)));
    rewrite log_run, advanced_advanced; reflexivity.
Qed.

(** C8.  [send_to_vrchat] on an empty message only logs a warning.  On
    any other message it hands the OSC client exactly one message for
    the address [/chatbox/input] with the arguments [message, True,
    False]; when that call raises, the error is logged, the method
    returns, and no second attempt is made. *)
Theorem send_to_vrchat_dispatch (text : str) (s : State) :
  exec (send_to_vrchat text) s
  = if truthy text then
      advanced s 0 0 1
        [OscSend (lit "/chatbox/input")
           [OscStr text; OscBool true; OscBool false];
         if hd false (send_results (world s))
         then Log INFO (MsgSent text) else Log ERROR MsgSendFailed]
    else advanced s 0 0 0 [Log WARNING MsgNothingToSend].
Proof.
  unfold exec. rewrite send_to_vrchat_run. reflexivity.
Qed.

Ltac run_call :=
  first [ apply log_run | apply emit_run | apply chat_create_run
        | apply model_transcribe_run | apply osc_send_message_run
        | apply send_to_vrchat_run ].

Lemma transcribe_results_advanced (s : State) a b c evs :
  transcribe_results (world (advanced s a b c evs))
  = skipn a (transcribe_results (world s)).
Proof. reflexivity. Qed.

Lemma chat_results_advanced (s : State) a b c evs :
  chat_results (world (advanced s a b c evs))
  = skipn b (chat_results (world s)).
Proof. reflexivity. Qed.

Lemma send_results_advanced (s : State) a b c evs :
  send_results (world (advanced s a b c evs))
  = skipn c (send_results (world s)).
Proof. reflexivity. Qed.

Ltac run :=
  repeat first [ erewrite bind_run by run_call
               | rewrite log_run | rewrite emit_run
               | rewrite send_to_vrchat_run
               | rewrite advanced_advanced
               | rewrite transcribe_results_advanced
               | rewrite chat_results_advanced
               | rewrite send_results_advanced ];
  cbn [Nat.add skipn app].

Lemma world_advanced_0 (s : State) (evs : list event) :
  world (advanced s 0 0 0 evs) = world s.
Proof.
  destruct s as [r a st h t q w [o i th sr tr cr sn] tc]; reflexivity.
Qed.

Lemma sends_app (t u : list event) : sends (t ++ u) = sends t ++ sends u.
Proof. apply flat_map_app. Qed.

Lemma chats_app (t u : list event) : chats (t ++ u) = chats t ++ chats u.
Proof. apply flat_map_app. Qed.

Lemma transcriptions_app (t u : list event) :
  transcriptions (t ++ u) = transcriptions t ++ transcriptions u.
Proof. apply flat_map_app. Qed.

Lemma puts_app (t u : list event) : puts (t ++ u) = puts t ++ puts u.
Proof. apply flat_map_app. Qed.

Lemma gets_app (t u : list event) : gets (t ++ u) = gets t ++ gets u.
Proof. apply flat_map_app. Qed.

Lemma logged_app (lv : level) (t u : list event) :
  logged lv (t ++ u) = logged lv t ++ logged lv u.
Proof. apply flat_map_app. Qed.

Lemma frombuffer_length (bs l : list Z) :
  frombuffer bs = Some l -> (List.length bs = 2 * List.length l)%nat.
Proof.
  revert bs l. fix IH 1. intros [|lo [|hi r]] l; simpl.
  - intros [= <-]; reflexivity.
  - discriminate.
  - destruct (frombuffer r) as [l'|] eqn:E; [|discriminate].
    intros [= <-]. simpl. rewrite (IH r l' E). lia.
Qed.

(** A recording that is too short, or whose bytes do not make whole
    samples, ends [transcribe_audio] before the model is called. *)
Lemma transcribe_audio_short (cfg : Config) (a : audio) (s : State) :
  below_minimum_duration cfg a ->
  exists lv m,
    transcribe_audio cfg a s
    = (None, advanced s 0 0 0 [Log INFO MsgTranscribing; Log lv m])
    /\ ((lv = WARNING /\ m = MsgAudioTooShort)
        \/ (lv = ERROR /\ m = MsgTranscribeFailed)).
Proof.
  intros Hshort. unfold transcribe_audio.
  destruct (frombuffer (List.concat a)) as [np|] eqn:Hbuf.
  - exists WARNING, MsgAudioTooShort. split; [|left; auto].
    assert (Hlen : (2 * Z.of_nat (List.length np) <? RATE cfg)%Z = true).
    { apply Z.ltb_lt.
      apply frombuffer_length in Hbuf.
      unfold below_minimum_duration, sample_count in Hshort.
      rewrite Hbuf in Hshort.
      replace (Z.of_nat (2 * List.length np) / 2)%Z
        with (Z.of_nat (List.length np)) in Hshort; [exact Hshort|].
      rewrite Nat2Z.inj_mul, Z.mul_comm, Z.div_mul by lia. reflexivity. }
    run. rewrite Hlen. run. reflexivity.
  - exists ERROR, MsgTranscribeFailed. split; [|right; auto].
    run. reflexivity.
Qed.

Lemma worker_process_run (cfg : Config) (a : audio) (s : State)
  {s1 s2 : State} {r : option str} :
  transcribe_audio cfg a s = (r, s1) ->
  translate_and_send cfg r s1 = (tt, s2) ->
  exec (worker_process cfg a) s = job_done s2.
Proof.
  intros H1 H2. unfold exec, worker_process.
  rewrite (bind_run _ H1), (bind_run _ H2).
  reflexivity.
Qed.

(** A recording with fewer samples than half the rate is dropped:
    [transcribe_audio] returns [None] after a log entry, and the job
    ends without any call to the speech-to-text model, to the chat
    service or to the OSC client. *)
Lemma few_samples_discarded (cfg : Config) (a : audio) (s : State) :
  below_minimum_duration cfg a ->
  result (transcribe_audio cfg a) s = None
  /\ transcriptions (trace (exec (worker_process cfg a) s))
     = transcriptions (trace s)
  /\ chats (trace (exec (worker_process cfg a) s)) = chats (trace s)
  /\ sends (trace (exec (worker_process cfg a) s)) = sends (trace s)
  /\ (logged WARNING (trace (exec (worker_process cfg a) s))
      = logged WARNING (trace s) ++ [MsgAudioTooShort]
      \/ logged ERROR (trace (exec (worker_process cfg a) s))
         = logged ERROR (trace s) ++ [MsgTranscribeFailed]).
Proof.
  intros Hshort.
  destruct (transcribe_audio_short cfg a s Hshort) as (lv & m & Hrun & Hlog).
  split; [unfold result; rewrite Hrun; reflexivity|].
  rewrite (worker_process_run cfg a s Hrun (eq_refl _)).
  unfold job_done; simpl.
  rewrite !transcriptions_app, !chats_app, !sends_app, !logged_app.
  simpl. rewrite !app_nil_r.
  repeat split.
  destruct Hlog as [[-> ->]|[-> ->]]; simpl; [left|right]; reflexivity.
Qed.

(** C5 (a defect of the code).  The test of line 279 counts samples
    and leaves [CHANNELS] out, although its comment asks for at least
    half a second.  With [AUDIO_CHANNELS=2] and the rate 16000, a
    recording of three tenths of a second holds 9600 samples, which is
    not below 8000: it is handed to the speech-to-text model,
    translated and sent. *)
Theorem short_stereo_audio_transcribed :
  shorter_than_half_second stereo_cfg stereo_audio
  /\ ~ below_minimum_duration stereo_cfg stereo_audio
  /\ transcriptions
       (trace (exec (worker_process stereo_cfg stereo_audio)
                 (initial scenario_world)))
     = [repeat 0%Z (Z.to_nat 9600)]
  /\ List.length
       (chats (trace (exec (worker_process stereo_cfg stereo_audio)
                        (initial scenario_world))))
     = 3
  /\ sends (trace (exec (worker_process stereo_cfg stereo_audio)
                     (initial scenario_world)))
     = [(lit "/chatbox/input",
         [OscStr (lit "Hello world" ++ newline :: konnichiwa_sekai
                  ++ newline :: ni_hao_shi_jie);
          OscBool true; OscBool false])].
Proof.
  split; [vm_compute; reflexivity|].
  split; [intros H; vm_compute in H; discriminate H|].
  split; [vm_compute; reflexivity|].
  split; vm_compute; reflexivity.
Qed.

(** X24.  With one channel, the default, every dequeued recording of
    less than half a second is dropped: [transcribe_audio] returns
    [None] after a log entry, and the job ends without any call to the
    speech-to-text model, to the chat service or to the OSC client. *)
Theorem short_mono_audio_discarded (cfg : Config) (a : audio) (s : State) :
  CHANNELS cfg = 1%Z ->
  shorter_than_half_second cfg a ->
  result (transcribe_audio cfg a) s = None
  /\ transcriptions (trace (exec (worker_process cfg a) s))
     = transcriptions (trace s)
  /\ chats (trace (exec (worker_process cfg a) s)) = chats (trace s)
  /\ sends (trace (exec (worker_process cfg a) s)) = sends (trace s)
  /\ (logged WARNING (trace (exec (worker_process cfg a) s))
      = logged WARNING (trace s) ++ [MsgAudioTooShort]
      \/ logged ERROR (trace (exec (worker_process cfg a) s))
         = logged ERROR (trace s) ++ [MsgTranscribeFailed]).
Proof.
  intros Hmono Hshort. apply few_samples_discarded.
  unfold shorter_than_half_second in Hshort.
  unfold below_minimum_duration. rewrite Hmono in Hshort. lia.
Qed.

Lemma transcribe_audio_empty (cfg : Config) (a : audio) (s : State) :
  stt_empty (hd SttRaise (transcribe_results (world s))) = true ->
  exists n evs,
    transcribe_audio cfg a s = (None, advanced s n 0 0 evs)
    /\ chats evs = [] /\ sends evs = [].
Proof.
  intros Hempty. unfold transcribe_audio.
  destruct (frombuffer (List.concat a)) as [np|].
  - destruct (2 * Z.of_nat (List.length np) <? RATE cfg)%Z.
    + run. eexists 0%nat, _. split; [reflexivity|split; reflexivity].
    + run.
      destruct (hd SttRaise (transcribe_results (world s))) as [|[t|]].
      * run. eexists _, _. split; [reflexivity|split; reflexivity].
      * simpl in Hempty. apply negb_true_iff in Hempty.
        run. rewrite Hempty. eexists _, _.
        split; [reflexivity|split; reflexivity].
      * run. simpl. eexists _, _.
        split; [reflexivity|split; reflexivity].
  - run. eexists 0%nat, _. split; [reflexivity|split; reflexivity].
Qed.

(** C6.  When the speech-to-text call raises, or its text is empty once
    stripped, [transcribe_audio] returns [None]; the job then ends
    without any chat request (no correction, no translation) and
    without any message handed to the OSC client. *)
Theorem empty_transcription_discarded (cfg : Config) (a : audio) (s : State) :
  stt_empty (hd SttRaise (transcribe_results (world s))) = true ->
  result (transcribe_audio cfg a) s = None
  /\ chats (trace (exec (worker_process cfg a) s)) = chats (trace s)
  /\ sends (trace (exec (worker_process cfg a) s)) = sends (trace s)
  /\ is_translating (exec (worker_process cfg a) s) = false
  /\ worker (exec (worker_process cfg a) s) = Waiting.
Proof.
  intros Hempty.
  destruct (transcribe_audio_empty cfg a s Hempty)
    as (n & evs & Hrun & Hchats & Hsends).
  split; [unfold result; rewrite Hrun; reflexivity|].
  rewrite (worker_process_run cfg a s Hrun (eq_refl _)).
  unfold job_done; simpl.
  rewrite !chats_app, !sends_app, Hchats, Hsends. simpl.
  rewrite !app_nil_r. repeat split.
Qed.

(* ================================================================== *)
(** ** The translation fan-out *)

Lemma translate_text_run (cfg : Config) (text lang : str) (s : State) :
  truthy text = true ->
  translate_text cfg text lang s
  = (translation_of (hd ChatRaise (chat_results (world s))),
     advanced s 0 1 0
       (translate_events cfg text
          [(lang, hd ChatRaise (chat_results (world s)))])).
Proof.
  intros Ht. unfold translate_text. rewrite Ht. cbn [negb].
  run. destruct (hd ChatRaise (chat_results (world s))); run; reflexivity.
Qed.

Lemma answers_length (n : nat) (script : list chat_outcome) :
  List.length (answers n script) = n.
Proof. revert script; induction n; simpl; auto. Qed.

Lemma translate_targets_run (cfg : Config) (text : str) (langs : list str) :
  truthy text = true ->
  forall (d : PyDict.dict) (s : State),
    translate_targets cfg text langs d s
    = (collect d
         (combine langs (answers (List.length langs) (chat_results (world s)))),
       advanced s 0 (List.length langs) 0
         (translate_events cfg text
            (combine langs
               (answers (List.length langs) (chat_results (world s)))))).
Proof.
  intros Ht. induction langs as [|lang rest IH]; intros d s.
  - simpl. unfold ret. rewrite advanced_id. reflexivity.
  - cbn [translate_targets].
    rewrite (bind_run _ (translate_text_run cfg text lang s Ht)).
    rewrite IH. rewrite advanced_advanced, chat_results_advanced, skipn_1_tl.
    reflexivity.
Qed.

Lemma chats_translate_events (cfg : Config) (text : str)
  (calls : list (str * chat_outcome)) :
  chats (translate_events cfg text calls)
  = map (fun c => TranslationPrompt (source_language cfg) (fst c) text) calls.
Proof.
  induction calls as [|[l o] r IH]; simpl; [reflexivity|].
  destruct o; simpl; f_equal; exact IH.
Qed.

Lemma sends_translate_events (cfg : Config) (text : str)
  (calls : list (str * chat_outcome)) :
  sends (translate_events cfg text calls) = [].
Proof.
  induction calls as [|[l o] r IH]; simpl; [reflexivity|].
  destruct o; simpl; exact IH.
Qed.

Lemma map_fst_combine_answers (langs : list str) (script : list chat_outcome) :
  map fst (combine langs (answers (List.length langs) script)) = langs.
Proof.
  revert script; induction langs as [|l r IH]; intros script; simpl;
    [reflexivity|]. f_equal. apply IH.
Qed.

Lemma map_snd_combine_answers (langs : list str) (script : list chat_outcome) :
  map snd (combine langs (answers (List.length langs) script))
  = answers (List.length langs) script.
Proof.
  revert script; induction langs as [|l r IH]; intros script; simpl;
    [reflexivity|]. f_equal. apply IH.
Qed.

(** *** Dictionary facts *)

Lemma get_setitem (d : PyDict.dict) (k v k' : str) :
  PyDict.get (PyDict.setitem d k v) k'
  = if PyStr.eqb k k' then Some v else PyDict.get d k'.
Proof.
  induction d as [|[k0 v0] r IH]; simpl.
  - reflexivity.
  - destruct (PyStr.eqb k0 k) eqn:E0; simpl.
    + apply eqb_eq in E0; subst k0.
      destruct (PyStr.eqb k k'); reflexivity.
    + destruct (PyStr.eqb k0 k') eqn:E1.
      * apply eqb_eq in E1; subst k'.
        destruct (PyStr.eqb k k0) eqn:E2; [|reflexivity].
        apply eqb_eq in E2; subst. rewrite eqb_refl in E0. discriminate.
      * exact IH.
Qed.

Lemma get_none_keys (d : PyDict.dict) (k : str) :
  PyDict.get d k = None <-> ~ In k (PyDict.keys d).
Proof.
  induction d as [|[k0 v0] r IH]; simpl.
  - tauto.
  - destruct (PyStr.eqb k0 k) eqn:E.
    + apply eqb_eq in E. split; [discriminate|]. intros H; exfalso; auto.
    + apply eqb_neq in E. rewrite IH. tauto.
Qed.

Lemma keys_setitem (d : PyDict.dict) (k v : str) :
  PyDict.keys (PyDict.setitem d k v)
  = match PyDict.get d k with
    | Some _ => PyDict.keys d
    | None => PyDict.keys d ++ [k]
    end.
Proof.
  unfold PyDict.keys.
  induction d as [|[k0 v0] r IH]; simpl; [reflexivity|].
  destruct (PyStr.eqb k0 k) eqn:E; simpl; [reflexivity|].
  rewrite IH.
  destruct (PyDict.get r k); reflexivity.
Qed.

Lemma setitem_fresh (d : PyDict.dict) (k v : str) :
  PyDict.get d k = None -> PyDict.setitem d k v = d ++ [(k, v)].
Proof.
  induction d as [|[k0 v0] r IH]; simpl; [reflexivity|].
  destruct (PyStr.eqb k0 k); [discriminate|].
  intros H; rewrite (IH H); reflexivity.
Qed.

Lemma NoDup_keys_setitem (d : PyDict.dict) (k v : str) :
  NoDup (PyDict.keys d) -> NoDup (PyDict.keys (PyDict.setitem d k v)).
Proof.
  intros Hd. rewrite keys_setitem.
  destruct (PyDict.get d k) eqn:E; [exact Hd|].
  apply get_none_keys in E.
  apply NoDup_rev in Hd. rewrite <- (rev_involutive (_ ++ _)).
  apply NoDup_rev. rewrite rev_app_distr. simpl.
  constructor; [|exact Hd]. rewrite <- in_rev. exact E.
Qed.

Lemma In_get (d : PyDict.dict) (k v : str) :
  NoDup (PyDict.keys d) -> (In (k, v) d <-> PyDict.get d k = Some v).
Proof.
  induction d as [|[k0 v0] r IH]; simpl; intros Hd.
  - split; [tauto|discriminate].
  - inversion Hd as [|? ? Hnotin Hr]; subst.
    destruct (PyStr.eqb k0 k) eqn:E.
    + apply eqb_eq in E; subst k0. split.
      * intros [H|H]; [congruence|].
        exfalso; apply Hnotin. apply (in_map fst) in H. exact H.
      * intros [= ->]; left; reflexivity.
    + apply eqb_neq in E. rewrite <- (IH Hr). split.
      * intros [H|H]; [congruence|exact H].
      * intros H; right; exact H.
Qed.

(** *** What [collect] builds *)

Lemma NoDup_keys_collect (calls : list (str * chat_outcome)) :
  forall d, NoDup (PyDict.keys d) -> NoDup (PyDict.keys (collect d calls)).
Proof.
  induction calls as [|c r IH]; intros d Hd; simpl; [exact Hd|].
  apply IH. destruct (truthy (translation_of (snd c))); [|exact Hd].
  apply NoDup_keys_setitem; exact Hd.
Qed.

Lemma get_collect (calls : list (str * chat_outcome)) (lang : str) :
  forall d,
    PyDict.get (collect d calls) lang
    = match last_translation lang calls with
      | Some v => Some v
      | None => PyDict.get d lang
      end.
Proof.
  induction calls as [|c r IH]; intros d; simpl; [reflexivity|].
  unfold collect in IH |- *. simpl. rewrite IH.
  destruct (last_translation lang r); [reflexivity|].
  destruct (truthy (translation_of (snd c))); simpl.
  - rewrite get_setitem. destruct (PyStr.eqb (fst c) lang); reflexivity.
  - rewrite andb_false_r. reflexivity.
Qed.

Lemma values_truthy_setitem (d : PyDict.dict) (k v : str) :
  truthy v = true ->
  Forall (fun x => truthy x = true) (PyDict.values d) ->
  Forall (fun x => truthy x = true) (PyDict.values (PyDict.setitem d k v)).
Proof.
  intros Hv. induction d as [|[k0 v0] r IH]; simpl; intros Hd.
  - constructor; [exact Hv|constructor].
  - inversion Hd; subst.
    destruct (PyStr.eqb k0 k); simpl; constructor; auto.
Qed.

Lemma values_truthy_collect (calls : list (str * chat_outcome)) :
  forall d,
    Forall (fun x => truthy x = true) (PyDict.values d) ->
    Forall (fun x => truthy x = true) (PyDict.values (collect d calls)).
Proof.
  induction calls as [|c r IH]; intros d Hd; simpl; [exact Hd|].
  apply IH. destruct (truthy (translation_of (snd c))) eqn:E; [|exact Hd].
  apply values_truthy_setitem; assumption.
Qed.

Lemma filter_all (A : Type) (f : A -> bool) (l : list A) :
  Forall (fun x => f x = true) l -> filter f l = l.
Proof.
  induction 1 as [|x l Hx _ IH]; simpl; [reflexivity|].
  rewrite Hx, IH; reflexivity.
Qed.

(** With pairwise distinct languages every successful call adds its
    entry at the end. *)
Lemma collect_distinct (calls : list (str * chat_outcome)) :
  forall d,
    NoDup (map fst calls) ->
    (forall l, In l (map fst calls) -> PyDict.get d l = None) ->
    collect d calls
    = d ++ map (fun c => (fst c, translation_of (snd c)))
             (filter (fun c => truthy (translation_of (snd c))) calls).
Proof.
  induction calls as [|c r IH]; intros d Hnd Hfresh; simpl.
  - rewrite app_nil_r; reflexivity.
  - simpl in Hnd. inversion Hnd as [|? ? Hnotin Hr]; subst.
    destruct (truthy (translation_of (snd c))) eqn:E.
    + rewrite IH; [|exact Hr|].
      * rewrite setitem_fresh by (apply Hfresh; left; reflexivity).
        rewrite <- app_assoc. reflexivity.
      * intros l Hl. rewrite get_setitem.
        destruct (PyStr.eqb (fst c) l) eqn:El.
        -- apply eqb_eq in El; subst l. contradiction.
        -- apply Hfresh; right; exact Hl.
    + apply IH; [exact Hr|]. intros l Hl; apply Hfresh; right; exact Hl.
Qed.

(** *** Formatting and dispatch after the fan-out *)

Lemma join_lines_truthy (ls : list str) (text : str) :
  truthy text = true -> truthy (join_lines (ls ++ [text])) = true.
Proof.
  intros Ht. destruct ls as [|l ls]; simpl; [exact Ht|].
  destruct (ls ++ [text]) eqn:E.
  - destruct ls; discriminate.
  - destruct l; reflexivity.
Qed.

Lemma format_output_run (translations : PyDict.dict) (text : str)
  (s : State) :
  format_output translations text s
  = (join_lines (output_lines translations text),
     advanced s 0 0 0
       [Log INFO (MsgFormatted (join_lines (output_lines translations text)))]).
Proof. unfold format_output. run. reflexivity. Qed.

Lemma translate_and_send_run (cfg : Config) (text : str) (s : State) :
  truthy text = true ->
  let calls :=
    combine (target_languages cfg)
      (answers (List.length (target_languages cfg)) (chat_results (world s))) in
  let message := join_lines (PyDict.values (collect [] calls) ++ [text]) in
  translate_and_send cfg (Some text) s
  = (tt,
     advanced s 0 (List.length (target_languages cfg)) 1
       (translate_events cfg text calls
        ++ [Log INFO (MsgFormatted message);
            OscSend (lit "/chatbox/input")
              [OscStr message; OscBool true; OscBool false];
            if hd false (send_results (world s))
            then Log INFO (MsgSent message) else Log ERROR MsgSendFailed])).
Proof.
  intros Ht calls message. unfold translate_and_send. rewrite Ht.
  rewrite (bind_run _ (translate_targets_run cfg text _ Ht [] s)).
  fold calls.
  rewrite (bind_run _ (format_output_run _ _ _)).
  unfold output_lines. rewrite Ht.
  rewrite filter_all
    by (apply values_truthy_collect; constructor).
  fold message.
  assert (Hm : truthy message = true) by (apply join_lines_truthy; exact Ht).
  run. rewrite Hm, Nat.add_0_r. reflexivity.
Qed.

Lemma sends_translate_and_send (cfg : Config) (text : str) (s : State) :
  truthy text = true ->
  sends (trace (exec (translate_and_send cfg (Some text)) s))
  = sends (trace s)
    ++ [(lit "/chatbox/input",
         [OscStr
            (join_lines
               (PyDict.values
                  (result (translate_targets cfg text (target_languages cfg) [])
                     s)
                ++ [text]));
          OscBool true; OscBool false])].
Proof.
  intros Ht. unfold exec, result.
  rewrite (translate_and_send_run cfg text s Ht).
  rewrite (translate_targets_run cfg text _ Ht [] s).
  cbn [snd fst advanced trace].
  rewrite !sends_app, sends_translate_events.
  destruct (hd false (send_results (world s))); reflexivity.
Qed.

Lemma values_of_successes (calls : list (str * chat_outcome)) :
  PyDict.values
    (map (fun c => (fst c, translation_of (snd c)))
       (filter (fun c => truthy (translation_of (snd c))) calls))
  = filter truthy (map translation_of (map snd calls)).
Proof.
  unfold PyDict.values.
  induction calls as [|c r IH]; simpl; [reflexivity|].
  destruct (truthy (translation_of (snd c))); simpl; rewrite IH; reflexivity.
Qed.

Lemma chats_fanout (cfg : Config) (text : str) (langs : list str)
  (script : list chat_outcome) :
  chats (translate_events cfg text
           (combine langs (answers (List.length langs) script)))
  = map (fun l => TranslationPrompt (source_language cfg) l text) langs.
Proof.
  rewrite chats_translate_events.
  revert script; induction langs as [|l r IH]; intros script; simpl;
    [reflexivity|]. f_equal. apply IH.
Qed.

Lemma result_translate_targets (cfg : Config) (text : str) (s : State) :
  truthy text = true ->
  result (translate_targets cfg text (target_languages cfg) []) s
  = collect []
      (combine (target_languages cfg)
         (answers (List.length (target_languages cfg))
            (chat_results (world s)))).
Proof.
  intros Ht. unfold result.
  rewrite (translate_targets_run cfg text _ Ht [] s). reflexivity.
Qed.

Lemma values_distinct (langs : list str) (script : list chat_outcome) :
  NoDup langs ->
  PyDict.values
    (collect [] (combine langs (answers (List.length langs) script)))
  = filter truthy (map translation_of (answers (List.length langs) script)).
Proof.
  intros Hnd. rewrite collect_distinct.
  - simpl. rewrite values_of_successes, map_snd_combine_answers. reflexivity.
  - rewrite map_fst_combine_answers. exact Hnd.
  - reflexivity.
Qed.

(** C2.  The calls of the fan-out do not depend on one another.  Every
    configured language is asked for, in the configured order, whatever
    the earlier calls answered.  A language has an entry in
    [translations] exactly when one of its own calls gave a non-empty
    text, and the entry is that text: an exception or an empty answer
    for one language leaves the others as they are.  The message handed
    to the OSC client is made of the entries followed by the source
    text; with pairwise distinct languages these are the non-empty
    answers in call order. *)
Theorem translation_failures_isolated (cfg : Config) (text : str) (s : State) :
  truthy text = true ->
  let langs := target_languages cfg in
  let outcomes := answers (List.length langs) (chat_results (world s)) in
  let translations := result (translate_targets cfg text langs []) s in
  chats (trace (exec (translate_targets cfg text langs []) s))
  = chats (trace s)
    ++ map (fun l => TranslationPrompt (source_language cfg) l text) langs
  /\ (forall lang v,
        In (lang, v) translations
        <-> last_translation lang (combine langs outcomes) = Some v)
  /\ sends (trace (exec (translate_and_send cfg (Some text)) s))
     = sends (trace s)
       ++ [(lit "/chatbox/input",
            [OscStr (join_lines (PyDict.values translations ++ [text]));
             OscBool true; OscBool false])]
  /\ (NoDup langs ->
      PyDict.values translations
      = filter truthy (map translation_of outcomes)).
Proof.
  intros Ht langs outcomes translations.
  assert (Htr : translations = collect [] (combine langs outcomes))
    by (apply result_translate_targets; exact Ht).
  repeat split.
  - unfold exec. rewrite (translate_targets_run cfg text langs Ht [] s).
    cbn [snd advanced trace].
    rewrite chats_app, chats_fanout. reflexivity.
  - rewrite Htr, In_get by (apply NoDup_keys_collect; constructor).
    rewrite get_collect. simpl.
    destruct (last_translation lang (combine langs outcomes)); auto.
  - rewrite Htr, In_get by (apply NoDup_keys_collect; constructor).
    rewrite get_collect. simpl.
    destruct (last_translation lang (combine langs outcomes)); auto.
  - apply sends_translate_and_send; exact Ht.
  - intros Hnd. rewrite Htr. apply values_distinct; exact Hnd.
Qed.

Lemma translation_failures_isolated_witness :
  truthy ni_hao = true
  /\ sends
       (trace
          (exec (translate_and_send scenario_cfg (Some ni_hao))
             (initial (with_chat [ChatContent (lit "Hello"); ChatRaise]
                         quiet_world))))
     = [(lit "/chatbox/input",
         [OscStr (lit "Hello" ++ newline :: ni_hao);
          OscBool true; OscBool false])].
Proof.
  split; [reflexivity|].
  exact (proj1 (proj2 (proj2
           (translation_failures_isolated scenario_cfg ni_hao
              (initial (with_chat [ChatContent (lit "Hello"); ChatRaise]
                          quiet_world))
              eq_refl)))).
Defined.

(** For pairwise distinct languages, looking the languages up in the
    order of the list gives the non-empty answers in that order. *)
Lemma last_translation_absent (lang : str)
  (calls : list (str * chat_outcome)) :
  ~ In lang (map fst calls) -> last_translation lang calls = None.
Proof.
  induction calls as [|c r IH]; simpl; intros H; [reflexivity|].
  rewrite IH by (intros Hin; apply H; right; exact Hin).
  destruct (PyStr.eqb (fst c) lang) eqn:E; [|reflexivity].
  apply eqb_eq in E. exfalso. apply H. left. exact E.
Qed.

Lemma lookups_in_order (langs : list str) :
  NoDup langs ->
  forall outcomes,
    List.length outcomes = List.length langs ->
    flat_map (fun l => match last_translation l (combine langs outcomes) with
                       | Some v => [v]
                       | None => []
                       end) langs
    = filter truthy (map translation_of outcomes).
Proof.
  induction 1 as [|l ls Hl Hnd IH]; intros outcomes Hlen.
  - destruct outcomes; [reflexivity|discriminate Hlen].
  - destruct outcomes as [|o os]; [discriminate Hlen|].
    injection Hlen as Hlen. cbn [flat_map combine map filter].
    assert (Hfirst : last_translation l ((l, o) :: combine ls os)
                     = if truthy (translation_of o)
                       then Some (translation_of o) else None).
    { cbn [last_translation fst snd].
      rewrite last_translation_absent, eqb_refl; [reflexivity|].
      intros Hin. apply Hl. apply in_map_iff in Hin.
      destruct Hin as ([l' o'] & <- & Hin).
      exact (in_combine_l _ _ _ _ Hin). }
    rewrite Hfirst.
    assert (Hrest :
              flat_map (fun l0 =>
                          match last_translation l0 ((l, o) :: combine ls os)
                          with Some v => [v] | None => [] end) ls
              = flat_map (fun l0 =>
                            match last_translation l0 (combine ls os)
                            with Some v => [v] | None => [] end) ls).
    { rewrite !flat_map_concat_map. f_equal. apply map_ext_in.
      intros l0 Hin. cbn [last_translation fst snd].
      destruct (last_translation l0 (combine ls os)); [reflexivity|].
      destruct (PyStr.eqb l l0) eqn:E; [|reflexivity].
      apply eqb_eq in E. subst l0. contradiction. }
    rewrite Hrest, (IH os Hlen).
    destruct (truthy (translation_of o)); reflexivity.
Qed.

Lemma filter_filter (A : Type) (f : A -> bool) (l : list A) :
  filter f (filter f l) = filter f l.
Proof.
  induction l as [|x l IH]; simpl; [reflexivity|].
  destruct (f x) eqn:E; simpl; rewrite ?E, IH; reflexivity.
Qed.

Lemma entries_in_order (langs : list str) (outcomes : list chat_outcome) :
  map (fun c => (fst c, translation_of (snd c)))
    (filter (fun c => truthy (translation_of (snd c)))
       (combine langs outcomes))
  = filter (fun e => truthy (snd e))
      (combine langs (map translation_of outcomes)).
Proof.
  revert outcomes. induction langs as [|l ls IH]; intros [|o os];
    simpl; try reflexivity.
  destruct (truthy (translation_of o)); simpl; rewrite IH; reflexivity.
Qed.

(** C1 (amended).  With pairwise distinct configured target languages,
    the message handed to the OSC client is the newline-join of the
    non-empty translations in the order of the configured list, followed
    by the source text; when every translation failed it is the source
    text alone; when the source text is empty or absent nothing is
    sent.  [format_output] itself lists the values of the mapping it is
    given in the mapping's own order.  In the scenario with source "zh",
    targets "en" and "ja", the transcription left unchanged by the
    correction, the message is the two translations and the
    transcription, one per line.  The order is that of the configured
    list itself: the languages are asked for in that order, the
    [translations] dictionary is the configured list paired with the
    answers, the empty ones left out, and the message is the one the
    specification describes, which looks each configured language up
    in turn. *)
Theorem output_message_order (cfg : Config) (text : str) (s : State) :
  NoDup (target_languages cfg) ->
  let results :=
    map translation_of
      (answers (List.length (target_languages cfg)) (chat_results (world s))) in
  sends (trace (exec (translate_and_send cfg (Some text)) s))
  = sends (trace s)
    ++ (if truthy text
        then [(lit "/chatbox/input",
               [OscStr (join_lines (filter truthy results ++ [text]));
                OscBool true; OscBool false])]
        else [])
  /\ (truthy text = true ->
      filter truthy results = [] ->
      sends (trace (exec (translate_and_send cfg (Some text)) s))
      = sends (trace s)
        ++ [(lit "/chatbox/input",
             [OscStr text; OscBool true; OscBool false])])
  /\ sends (trace (exec (translate_and_send cfg None) s)) = sends (trace s)
  /\ (forall translations,
        result (format_output translations text) s
        = join_lines (filter truthy (PyDict.values translations)
                      ++ (if truthy text then [text] else [])))
  /\ sends (trace (exec (worker_process scenario_cfg scenario_audio)
                     (initial scenario_world)))
     = [(lit "/chatbox/input",
         [OscStr (lit "Hello world" ++ newline :: konnichiwa_sekai
                  ++ newline :: ni_hao_shi_jie);
          OscBool true; OscBool false])]
  /\ (truthy text = true ->
      chats (trace (exec (translate_and_send cfg (Some text)) s))
      = chats (trace s)
        ++ map (fun l => TranslationPrompt (source_language cfg) l text)
             (target_languages cfg))
  /\ (truthy text = true ->
      result (translate_targets cfg text (target_languages cfg) []) s
      = filter (fun e => truthy (snd e))
          (combine (target_languages cfg) results))
  /\ (truthy text = true ->
      sends (trace (exec (translate_and_send cfg (Some text)) s))
      = sends (trace s)
        ++ [(lit "/chatbox/input",
             [OscStr
                (spec_output_message (target_languages cfg)
                   (result
                      (translate_targets cfg text (target_languages cfg) [])
                      s)
                   text);
              OscBool true; OscBool false])]).
Proof.
  intros Hnd results.
  assert (Hsend :
            truthy text = true ->
            sends (trace (exec (translate_and_send cfg (Some text)) s))
            = sends (trace s)
              ++ [(lit "/chatbox/input",
                   [OscStr (join_lines (filter truthy results ++ [text]));
                    OscBool true; OscBool false])]).
  { intros Ht. rewrite (sends_translate_and_send cfg text s Ht).
    rewrite (result_translate_targets cfg text s Ht).
    rewrite (values_distinct _ (chat_results (world s)) Hnd). reflexivity. }
  assert (Hdict :
            truthy text = true ->
            result (translate_targets cfg text (target_languages cfg) []) s
            = filter (fun e => truthy (snd e))
                (combine (target_languages cfg) results)).
  { intros Ht. rewrite (result_translate_targets cfg text s Ht).
    rewrite collect_distinct.
    - cbn [app]. apply entries_in_order.
    - rewrite map_fst_combine_answers. exact Hnd.
    - reflexivity. }
  split; [|split; [|split; [|split; [|split; [|split; [|split]]]]]].
  - destruct (truthy text) eqn:Ht; [apply Hsend; reflexivity|].
    apply truthy_false in Ht; subst text.
    rewrite app_nil_r; reflexivity.
  - intros Ht Hnone. rewrite (Hsend Ht), Hnone. reflexivity.
  - reflexivity.
  - intros translations. unfold result. rewrite format_output_run.
    reflexivity.
  - vm_compute. reflexivity.
  - intros Ht. unfold exec.
    rewrite (translate_and_send_run cfg text s Ht).
    cbn [snd advanced trace]. rewrite !chats_app, chats_fanout.
    destruct (hd false (send_results (world s))); cbn;
      rewrite app_nil_r; reflexivity.
  - exact Hdict.
  - intros Ht. rewrite (Hsend Ht). unfold spec_output_message.
    rewrite (result_translate_targets cfg text s Ht).
    assert (Hlook :
              flat_map (fun l =>
                          match PyDict.get
                                  (collect []
                                     (combine (target_languages cfg)
                                        (answers
                                           (List.length (target_languages cfg))
                                           (chat_results (world s))))) l
                          with Some v => [v] | None => [] end)
                (target_languages cfg)
              = filter truthy results).
    { unfold results.
      rewrite <- (lookups_in_order _ Hnd _ (answers_length _ _)).
      rewrite !flat_map_concat_map. f_equal. apply map_ext.
      intros l. rewrite get_collect.
      destruct (last_translation l _); reflexivity. }
    rewrite Hlook, filter_filter. reflexivity.
Qed.

Lemma output_message_order_witness :
  NoDup (target_languages scenario_cfg)
  /\ sends
       (trace
          (exec (translate_and_send scenario_cfg (Some ni_hao_shi_jie))
             (initial
                (with_chat [ChatContent (lit "Hello world");
                            ChatContent konnichiwa_sekai] quiet_world))))
     = [(lit "/chatbox/input",
         [OscStr (lit "Hello world" ++ newline :: konnichiwa_sekai
                  ++ newline :: ni_hao_shi_jie);
          OscBool true; OscBool false])].
Proof.
  assert (Hnd : NoDup (target_languages scenario_cfg)).
  { simpl. repeat constructor; simpl; intuition discriminate. }
  split; [exact Hnd|].
  exact (proj1 (output_message_order scenario_cfg ni_hao_shi_jie
                  (initial
                     (with_chat [ChatContent (lit "Hello world");
                                 ChatContent konnichiwa_sekai] quiet_world))
                  Hnd)).
Defined.

(** C1, as stated, fails when a language is configured more than once:
    with targets "en", "ja", "en", "ja" and a first call that raises,
    the message lists the "ja" translation before the "en" one, whereas
    the configured order, read with or without the repetitions, puts
    "en" first. *)
Lemma output_message_order_counterexample :
  sends (trace (exec (translate_and_send repeated_cfg (Some ni_hao))
                  (initial repeated_world)))
  = [(lit "/chatbox/input",
      [OscStr (join_lines [konnichiwa_sekai; lit "Hello world"; ni_hao]);
       OscBool true; OscBool false])]
  /\ spec_output_message (target_languages repeated_cfg)
       repeated_translations ni_hao
     = join_lines [lit "Hello world"; konnichiwa_sekai;
                   lit "Hello world"; konnichiwa_sekai; ni_hao]
  /\ spec_output_message [lit "en"; lit "ja"] repeated_translations ni_hao
     = join_lines [lit "Hello world"; konnichiwa_sekai; ni_hao]
  /\ join_lines [konnichiwa_sekai; lit "Hello world"; ni_hao]
     <> spec_output_message (target_languages repeated_cfg)
          repeated_translations ni_hao
  /\ join_lines [konnichiwa_sekai; lit "Hello world"; ni_hao]
     <> spec_output_message [lit "en"; lit "ja"] repeated_translations ni_hao.
Proof.
  repeat split; try (vm_compute; reflexivity);
    intros H; vm_compute in H; discriminate H.
Qed.

(* ================================================================== *)
(** ** Correction *)

Lemma semantic_correction_run (text : str) (s : State) :
  exists evs,
    semantic_correction text s
    = (if correction_skipped text then text
       else refined text (hd ChatRaise (chat_results (world s))),
       advanced s 0 (if correction_skipped text then 0 else 1) 0 evs)
    /\ chats evs
       = (if correction_skipped text then [] else [CorrectionPrompt text])
    /\ sends evs = []
    /\ transcriptions evs = []
    /\ forallb worker_event evs = true.
Proof.
  unfold semantic_correction, correction_skipped.
  destruct (negb (truthy text) || (len (strip text) <? 2)%Z).
  - exists []. unfold ret. rewrite advanced_id. repeat split.
  - run. destruct (hd ChatRaise (chat_results (world s))) as [|c]; simpl.
    + run. eexists. repeat split.
    + destruct (negb (truthy (strip c)) || PyStr.eqb (strip c) text);
        run; eexists; repeat split.
Qed.

Lemma refined_truthy (text : str) (o : chat_outcome) :
  truthy text = true -> truthy (refined text o) = true.
Proof.
  intros Ht. destruct o as [|c]; simpl; [exact Ht|].
  destruct (truthy (strip c)) eqn:E; simpl; [|exact Ht].
  destruct (PyStr.eqb (strip c) text); [exact Ht|exact E].
Qed.

(** A recording that is long enough and a model that hears something:
    the text is stripped, corrected, and returned. *)
Lemma transcribe_audio_text (cfg : Config) (a : audio) (s : State)
  (np : list Z) (t : str) :
  frombuffer (List.concat a) = Some np ->
  (RATE cfg <= 2 * Z.of_nat (List.length np))%Z ->
  hd SttRaise (transcribe_results (world s)) = SttResult (Some t) ->
  truthy (strip t) = true ->
  exists evs,
    transcribe_audio cfg a s
    = (Some (if correction_skipped (strip t) then strip t
             else refined (strip t) (hd ChatRaise (chat_results (world s)))),
       advanced s 1 (if correction_skipped (strip t) then 0 else 1) 0 evs)
    /\ transcriptions evs = [np]
    /\ chats evs
       = (if correction_skipped (strip t) then []
          else [CorrectionPrompt (strip t)])
    /\ sends evs = [].
Proof.
  intros Hbuf Hlong Hstt Ht. unfold transcribe_audio. rewrite Hbuf.
  replace (2 * Z.of_nat (List.length np) <? RATE cfg)%Z with false
    by (symmetry; apply Z.ltb_ge; exact Hlong).
  run. rewrite Hstt. run. rewrite Ht.
  match goal with
  | |- context [bind (semantic_correction ?x) _ ?st] =>
      destruct (semantic_correction_run x st)
        as (evs & Hrun & Hc & Hs & Htr & _)
  end.
  rewrite (bind_run _ Hrun). run.
  rewrite Nat.add_0_r in *.
  eexists. split; [reflexivity|].
  change (Log INFO MsgTranscribing
          :: Log INFO (MsgAudioLength (Z.of_nat (List.length np)))
          :: ModelTranscribe np (source_language cfg)
          :: Log INFO (MsgRawTranscription (strip t))
          :: evs ++ [Log INFO (MsgAfterCorrection
                                 (if correction_skipped (strip t) then strip t
                                  else refined (strip t)
                                         (hd ChatRaise
                                            (chat_results (world s)))))])
    with ([Log INFO MsgTranscribing;
           Log INFO (MsgAudioLength (Z.of_nat (List.length np)));
           ModelTranscribe np (source_language cfg);
           Log INFO (MsgRawTranscription (strip t))]
          ++ evs ++ [Log INFO (MsgAfterCorrection
                                 (if correction_skipped (strip t) then strip t
                                  else refined (strip t)
                                         (hd ChatRaise
                                            (chat_results (world s)))))]).
  rewrite !transcriptions_app, !chats_app, !sends_app, Hc, Hs, Htr.
  simpl. rewrite app_nil_r. repeat split.
Qed.

(** *** [strip] leaves a stripped string alone *)

Lemma lstrip_clean (t : str) : starts_clean (lstrip t) = true.
Proof.
  induction t as [|c t IH]; simpl; [reflexivity|].
  destruct (isspace c) eqn:E; [exact IH|]. simpl. rewrite E. reflexivity.
Qed.

Lemma lstrip_id (t : str) : starts_clean t = true -> lstrip t = t.
Proof.
  destruct t as [|c t]; simpl; [reflexivity|].
  destruct (isspace c); [discriminate|reflexivity].
Qed.

Lemma lstrip_snoc (t : str) (c : char) :
  isspace c = false -> lstrip (t ++ [c]) = lstrip t ++ [c].
Proof.
  intros Hc. induction t as [|x t IH]; simpl.
  - rewrite Hc; reflexivity.
  - destruct (isspace x); [exact IH|reflexivity].
Qed.

Lemma rstrip_clean (t : str) :
  starts_clean t = true -> starts_clean (rstrip t) = true.
Proof.
  destruct t as [|c t]; [reflexivity|]. simpl. intros Hc.
  apply negb_true_iff in Hc. unfold rstrip. simpl.
  rewrite (lstrip_snoc _ _ Hc), rev_app_distr. simpl. rewrite Hc. reflexivity.
Qed.

Lemma strip_strip (t : str) : strip (strip t) = strip t.
Proof.
  unfold strip at 1.
  rewrite lstrip_id by (apply rstrip_clean, lstrip_clean).
  unfold strip, rstrip.
  rewrite rev_involutive, (lstrip_id (lstrip (rev (lstrip t)))).
  - reflexivity.
  - apply lstrip_clean.
Qed.

(** The chat requests of a whole job whose transcription has text. *)
Lemma worker_process_chats (cfg : Config) (a : audio) (s : State)
  (np : list Z) (t : str) :
  frombuffer (List.concat a) = Some np ->
  (RATE cfg <= 2 * Z.of_nat (List.length np))%Z ->
  hd SttRaise (transcribe_results (world s)) = SttResult (Some t) ->
  truthy (strip t) = true ->
  chats (trace (exec (worker_process cfg a) s))
  = chats (trace s)
    ++ (if correction_skipped (strip t) then []
        else [CorrectionPrompt (strip t)])
    ++ map (fun l =>
              TranslationPrompt (source_language cfg) l
                (if correction_skipped (strip t) then strip t
                 else refined (strip t)
                        (hd ChatRaise (chat_results (world s)))))
         (target_languages cfg).
Proof.
  intros Hbuf Hlong Hstt Ht.
  destruct (transcribe_audio_text cfg a s np _ Hbuf Hlong Hstt Ht)
    as (evs & Hrun & _ & Hc & _).
  assert (Htext : truthy (if correction_skipped (strip t) then strip t
                          else refined (strip t)
                                 (hd ChatRaise (chat_results (world s))))
                  = true).
  { destruct (correction_skipped (strip t)); [exact Ht|].
    apply refined_truthy; exact Ht. }
  rewrite (worker_process_run cfg a s Hrun
             (translate_and_send_run cfg _ _ Htext)).
  unfold job_done. cbn [trace with_worker with_trace with_is_translating].
  rewrite advanced_advanced. cbn [trace advanced].
  rewrite !chats_app, chats_fanout, Hc.
  match goal with
  | |- context [if hd false ?x then _ else _] => destruct (hd false x)
  end; cbn [chats flat_map app]; rewrite ?app_nil_r, <- ?app_assoc;
    reflexivity.
Qed.

(** C7 (amended).  [semantic_correction] returns its input unchanged
    when the input has fewer than two characters, when the call to the
    service raises, and when the service's text, once stripped of
    surrounding white space, is empty or equal to the input.  When the
    correction call raises during a job, every configured language is
    still asked for, with the uncorrected (stripped) transcription. *)
Theorem semantic_correction_fallback (cfg : Config) (text : str) (a : audio)
  (np : list Z) (s : State) :
  ((len text < 2)%Z
   \/ hd ChatRaise (chat_results (world s)) = ChatRaise
   \/ (exists content,
         hd ChatRaise (chat_results (world s)) = ChatContent content
         /\ (strip content = [] \/ strip content = text)) ->
   result (semantic_correction text) s = text)
  /\ (frombuffer (List.concat a) = Some np ->
      (RATE cfg <= 2 * Z.of_nat (List.length np))%Z ->
      hd SttRaise (transcribe_results (world s)) = SttResult (Some text) ->
      (2 <= len (strip text))%Z ->
      hd ChatRaise (chat_results (world s)) = ChatRaise ->
      result (transcribe_audio cfg a) s = Some (strip text)
      /\ chats (trace (exec (worker_process cfg a) s))
         = chats (trace s)
           ++ CorrectionPrompt (strip text)
              :: map (fun l =>
                        TranslationPrompt (source_language cfg) l (strip text))
                   (target_languages cfg)).
Proof.
  split.
  - intros H.
    destruct (semantic_correction_run text s) as (evs & Hrun & _).
    unfold result. rewrite Hrun. cbn [fst].
    destruct (correction_skipped text) eqn:Hskip; [reflexivity|].
    destruct H as [Hlen|[Hraise|(c & Hc & Hsame)]].
    + exfalso. unfold correction_skipped in Hskip.
      apply orb_false_iff in Hskip. destruct Hskip as [_ Hskip].
      apply Z.ltb_ge in Hskip. unfold len in *.
      pose proof (strip_length text). lia.
    + rewrite Hraise. reflexivity.
    + rewrite Hc. simpl. destruct Hsame as [-> | ->].
      * reflexivity.
      * rewrite eqb_refl, orb_true_r. reflexivity.
  - intros Hbuf Hlong Hstt Hlen Hraise.
    assert (Ht : truthy (strip text) = true).
    { unfold len in Hlen.
      destruct (strip text); simpl in *; [lia|reflexivity]. }
    assert (Hskip : correction_skipped (strip text) = false).
    { unfold correction_skipped. rewrite strip_strip, Ht. simpl.
      apply Z.ltb_ge. exact Hlen. }
    split.
    + destruct (transcribe_audio_text cfg a s np _ Hbuf Hlong Hstt Ht)
        as (evs & Hrun & _).
      unfold result. rewrite Hrun, Hskip, Hraise. reflexivity.
    + rewrite (worker_process_chats cfg a s np _ Hbuf Hlong Hstt Ht).
      rewrite Hskip, Hraise. reflexivity.
Qed.

(** C7, as stated, fails on an input with surrounding white space: the
    service returns the very text " ab" it was given, and the method
    returns "ab". *)
Lemma semantic_correction_counterexample :
  hd ChatRaise
    (chat_results
       (world (initial (with_chat [ChatContent (lit " ab")] quiet_world))))
  = ChatContent (lit " ab")
  /\ result (semantic_correction (lit " ab"))
       (initial (with_chat [ChatContent (lit " ab")] quiet_world))
     = lit "ab"
  /\ result (semantic_correction (lit " ab"))
       (initial (with_chat [ChatContent (lit " ab")] quiet_world))
     <> lit " ab".
Proof.
  split; [reflexivity|]. split; [vm_compute; reflexivity|].
  intros H; vm_compute in H; discriminate H.
Qed.

(* ================================================================== *)
(** ** A job, whatever the collaborators answer *)

Lemma transcribe_audio_any (cfg : Config) (a : audio) (s : State) :
  exists r n b evs,
    transcribe_audio cfg a s = (r, advanced s n b 0 evs)
    /\ forallb worker_event evs = true.
Proof.
  unfold transcribe_audio.
  destruct (frombuffer (List.concat a)) as [np|].
  - destruct (2 * Z.of_nat (List.length np) <? RATE cfg)%Z.
    + run. eexists _, 0%nat, 0%nat, _. split; reflexivity.
    + run. destruct (hd SttRaise (transcribe_results (world s))) as [|text].
      * run. eexists _, _, 0%nat, _. split; reflexivity.
      * run.
        destruct (truthy (strip match text with Some t => t | None => [] end)).
        -- match goal with
           | |- context [bind (semantic_correction ?x) _ ?st] =>
               destruct (semantic_correction_run x st)
                 as (evs & Hrun & _ & _ & _ & Hev)
           end.
           rewrite (bind_run _ Hrun). run.
           eexists _, _, _, _. split; [reflexivity|].
           simpl. rewrite forallb_app, Hev. reflexivity.
        -- eexists _, _, 0%nat, _. split; reflexivity.
  - run. eexists _, 0%nat, 0%nat, _. split; reflexivity.
Qed.

Lemma forallb_translate_events (cfg : Config) (text : str)
  (calls : list (str * chat_outcome)) :
  forallb worker_event (translate_events cfg text calls) = true.
Proof.
  induction calls as [|[l o] r IH]; simpl; [reflexivity|].
  destruct o; exact IH.
Qed.

Lemma translate_and_send_any (cfg : Config) (r : option str) (s : State) :
  exists b c evs,
    translate_and_send cfg r s = (tt, advanced s 0 b c evs)
    /\ forallb worker_event evs = true.
Proof.
  destruct r as [text|].
  - destruct (truthy text) eqn:Ht.
    + rewrite (translate_and_send_run cfg text s Ht).
      eexists _, _, _. split; [reflexivity|].
      rewrite forallb_app, forallb_translate_events.
      destruct (hd false (send_results (world s))); reflexivity.
    + exists 0%nat, 0%nat, []. unfold translate_and_send. rewrite Ht.
      unfold ret. rewrite advanced_id. split; reflexivity.
  - exists 0%nat, 0%nat, []. unfold translate_and_send, ret.
    rewrite advanced_id. split; reflexivity.
Qed.

Lemma worker_process_any (cfg : Config) (a : audio) (s : State) :
  exists n b c evs,
    exec (worker_process cfg a) s = job_done (advanced s n b c evs)
    /\ forallb worker_event evs = true.
Proof.
  destruct (transcribe_audio_any cfg a s) as (r & n & b & evs & Hrun & Hev).
  destruct (translate_and_send_any cfg r (advanced s n b 0 evs))
    as (b' & c & evs' & Hrun' & Hev').
  rewrite (worker_process_run cfg a s Hrun Hrun').
  rewrite advanced_advanced.
  eexists _, _, _, _. split; [reflexivity|].
  rewrite forallb_app, Hev, Hev'. reflexivity.
Qed.

(* ================================================================== *)
(** ** The recording side *)

Lemma thread_starts_app (t u : list event) :
  thread_starts (t ++ u) = thread_starts t + thread_starts u.
Proof. unfold thread_starts. rewrite filter_app, length_app. reflexivity. Qed.

Ltac crush_state s :=
  destruct s as [rec ad st hk tr q wk [ops infs ths strs stts chs snds] tc];
  cbn [is_recording audio_data stream hotkey_pressed is_translating
       translation_queue worker world trace open_results info_results
       thread_results stream_results transcribe_results chat_results
       send_results] in *.

Ltac red_state :=
  cbn -[lit thread_starts logged puts gets sends chats transcriptions
        jobs_in_turn];
  rewrite <- ?app_assoc; cbn [app].

Ltac unfold_methods :=
  unfold exec, result, on_press, on_release, start_recording, stop_recording,
    record_audio_turn, cleanup, worker_get, audio_open, get_device_info,
    thread_start, stream_call, log, emit, modify, bind, ret;
  red_state.

Lemma thread_starts_log (t : list event) (lv : level) (m : log_msg) :
  thread_starts (t ++ [Log lv m]) = thread_starts t.
Proof. rewrite thread_starts_app. cbn. lia. Qed.

Lemma thread_starts_quiet (t evs : list event) :
  forallb (fun e => worker_event e
                    || match e with
                       | QueueGet _ | QueuePut _ | QueueTaskDone
                       | AudioOpen | DeviceInfo | StreamStop | StreamClose
                       | AudioTerminate => true
                       | _ => false
                       end) evs = true ->
  thread_starts (t ++ evs) = thread_starts t.
Proof.
  intros H. rewrite thread_starts_app.
  enough (thread_starts evs = 0) by lia.
  induction evs as [|e evs IH]; [reflexivity|].
  simpl in H. apply andb_true_iff in H. destruct H as [He H].
  unfold thread_starts in *. simpl.
  destruct e; simpl in *; try discriminate; auto.
Qed.

(** C10.  When [audio.open] raises during a press of the trigger key,
    [start_recording] logs the error and puts the recording flag back to
    [False]; no recording thread is started, the stream and the queue
    are as before, and the frame buffer is the empty list the method
    had set.  The next press of the trigger key, with a device that
    opens, starts a recording. *)
Theorem start_recording_open_failure (cfg : Config) (lower : str -> str)
  (k : key) (s : State) :
  is_hotkey cfg lower k = true ->
  is_recording s = false ->
  is_translating s = false ->
  hd false (open_results (world s)) = false ->
  is_recording (exec start_recording s) = false
  /\ audio_data (exec start_recording s) = Some []
  /\ stream (exec start_recording s) = stream s
  /\ translation_queue (exec start_recording s) = translation_queue s
  /\ is_recording (exec (on_press cfg lower k) s) = false
  /\ thread_starts (trace (exec (on_press cfg lower k) s))
     = thread_starts (trace s)
  /\ logged ERROR (trace (exec (on_press cfg lower k) s))
     = logged ERROR (trace s) ++ [MsgStartRecordingFailed]
  /\ (hd false (tl (open_results (world s))) = true ->
      hd false (info_results (world s)) = true ->
      hd false (thread_results (world s)) = true ->
      is_recording
        (exec (on_press cfg lower k) (exec (on_press cfg lower k) s)) = true
      /\ thread_starts
           (trace
              (exec (on_press cfg lower k) (exec (on_press cfg lower k) s)))
         = S (thread_starts (trace s))).
Proof.
  intros Hk Hrec Htr Hopen. crush_state s. subst.
  unfold_methods. rewrite Hk. red_state. rewrite Hopen. red_state.
  do 5 (split; [reflexivity|]).
  split; [apply thread_starts_quiet; reflexivity|].
  split; [rewrite !logged_app; reflexivity|].
  intros H1 H2 H3. rewrite H1. red_state. rewrite H2. red_state.
  rewrite H3. red_state. split; [reflexivity|].
  rewrite !thread_starts_app. cbn. lia.
Qed.

(** C9.  Stopping a recording whose frame buffer is empty puts nothing
    on the translation queue: the queue is unchanged and an error is
    logged, "no audio data" when the stream closed, "stop failed" when
    closing it raised. *)
Theorem stop_recording_empty_buffer (s : State) :
  is_recording s = true ->
  audio_data s = Some [] \/ audio_data s = None ->
  translation_queue (exec stop_recording s) = translation_queue s
  /\ puts (trace (exec stop_recording s)) = puts (trace s)
  /\ is_recording (exec stop_recording s) = false
  /\ exists m,
       (m = MsgNoAudioData \/ m = MsgStopRecordingFailed)
       /\ logged ERROR (trace (exec stop_recording s))
          = logged ERROR (trace s) ++ [m].
Proof.
  intros Hrec Hbuf. crush_state s. subst rec.
  unfold_methods.
  assert (Hcase :
            st && hd false strs && hd false (tl strs) = true
            \/ st = false
            \/ (st = true /\ hd false strs = false)
            \/ (st = true /\ hd false strs = true
                /\ hd false (tl strs) = false)).
  { destruct st, (hd false strs), (hd false (tl strs)); auto 6. }
  destruct Hcase as [H|[H|[[H1 H2]|(H1 & H2 & H3)]]].
  - apply andb_true_iff in H. destruct H as [H H3].
    apply andb_true_iff in H. destruct H as [H1 H2]. subst st.
    red_state. rewrite H2. red_state. rewrite H3. red_state.
    destruct Hbuf as [-> | ->]; red_state;
      rewrite !puts_app, !logged_app; cbn; rewrite !app_nil_r;
      (repeat split; [exists MsgNoAudioData; split; [left|]; reflexivity]).
  - subst st. red_state.
    destruct Hbuf as [-> | ->]; red_state;
      rewrite !puts_app, !logged_app; cbn; rewrite !app_nil_r;
      (repeat split; [exists MsgNoAudioData; split; [left|]; reflexivity]).
  - subst st. red_state. rewrite H2. red_state.
    rewrite !puts_app, !logged_app; cbn; rewrite !app_nil_r.
    repeat split. exists MsgStopRecordingFailed. split; [right|]; reflexivity.
  - subst st. red_state. rewrite H2. red_state. rewrite H3. red_state.
    rewrite !puts_app, !logged_app; cbn; rewrite !app_nil_r.
    repeat split. exists MsgStopRecordingFailed. split; [right|]; reflexivity.
Qed.

(* ================================================================== *)
(** ** The threads together *)

Lemma schedule_app (cfg : Config) (lower : str -> str)
  (acts acts' : list action) (s : State) :
  schedule cfg lower (acts ++ acts') s
  = schedule cfg lower acts' (schedule cfg lower acts s).
Proof. unfold schedule. apply fold_left_app. Qed.

Lemma thread_starts_worker (t evs : list event) :
  forallb worker_event evs = true ->
  thread_starts (t ++ evs) = thread_starts t.
Proof.
  intros H. apply thread_starts_quiet.
  rewrite forallb_forall in *. intros e He.
  rewrite (H e He). reflexivity.
Qed.

Lemma worker_step_waiting (cfg : Config) (s : State) :
  worker s = Waiting -> exec (worker_step cfg) s = exec worker_get s.
Proof. intros H. unfold exec, worker_step. rewrite H. reflexivity. Qed.

Lemma worker_step_holding (cfg : Config) (s : State) (job : audio) :
  worker s = Holding job ->
  exec (worker_step cfg) s = exec (worker_process cfg job) s.
Proof. intros H. unfold exec, worker_step. rewrite H. reflexivity. Qed.

Lemma worker_step_exited (cfg : Config) (s : State) :
  worker s = Exited -> exec (worker_step cfg) s = s.
Proof. intros H. unfold exec, worker_step. rewrite H. reflexivity. Qed.

(** While a recording is active, nothing but a release of the trigger
    key ends it, and nothing starts another one. *)
Lemma act_keeps_recording (cfg : Config) (lower : str -> str) (a : action)
  (s : State) :
  is_recording s = true ->
  hotkey_release cfg lower a = false ->
  is_recording (exec (act cfg lower a) s) = true
  /\ thread_starts (trace (exec (act cfg lower a) s)) = thread_starts (trace s).
Proof.
  intros Hrec Hrel. destruct a as [k|k|data| |]; cbn [act].
  - crush_state s. subst rec. unfold_methods.
    destruct (is_hotkey cfg lower k); red_state; split; reflexivity.
  - cbn in Hrel. crush_state s. subst rec. unfold_methods. rewrite Hrel.
    split; reflexivity.
  - crush_state s. subst rec. unfold_methods.
    destruct data as [d|], ad as [l|]; red_state;
      (split; [reflexivity|]); try reflexivity;
      apply thread_starts_quiet; reflexivity.
  - destruct (worker s) as [|job|] eqn:Hw.
    + rewrite (worker_step_waiting cfg s Hw).
      crush_state s. subst rec. unfold_methods.
      destruct q as [|[job|] q]; red_state; (split; [reflexivity|]);
        try reflexivity; apply thread_starts_quiet; reflexivity.
    + rewrite (worker_step_holding cfg s job Hw).
      destruct (worker_process_any cfg job s) as (n & b & c & evs & Hrun & Hev).
      rewrite Hrun.
      unfold job_done. red_state. split; [exact Hrec|].
      rewrite app_assoc, thread_starts_app, thread_starts_worker by exact Hev.
      cbn. lia.
    + rewrite (worker_step_exited cfg s Hw).
      split; [exact Hrec|reflexivity].
  - crush_state s. subst rec. unfold_methods. split; [reflexivity|].
    apply thread_starts_quiet; reflexivity.
Qed.

Lemma schedule_keeps_recording (cfg : Config) (lower : str -> str)
  (acts : list action) :
  forallb (fun a => negb (hotkey_release cfg lower a)) acts = true ->
  forall s,
    is_recording s = true ->
    is_recording (schedule cfg lower acts s) = true
    /\ thread_starts (trace (schedule cfg lower acts s))
       = thread_starts (trace s).
Proof.
  induction acts as [|a acts IH]; intros Hacts s Hrec.
  - split; [exact Hrec|reflexivity].
  - simpl in Hacts. apply andb_true_iff in Hacts. destruct Hacts as [Ha Hacts].
    apply negb_true_iff in Ha.
    destruct (act_keeps_recording cfg lower a s Hrec Ha) as [Hrec' Hn].
    destruct (IH Hacts _ Hrec') as [Hrec'' Hn'].
    split; [exact Hrec''|]. cbn [schedule fold_left].
    unfold schedule in Hn'. rewrite Hn'. exact Hn.
Qed.

(** From a state with no recording, one action starts at most one. *)
Lemma act_from_idle (cfg : Config) (lower : str -> str) (a : action)
  (s : State) :
  is_recording s = false ->
  (is_recording (exec (act cfg lower a) s) = false
   /\ thread_starts (trace (exec (act cfg lower a) s))
      = thread_starts (trace s))
  \/ (is_recording (exec (act cfg lower a) s) = true
      /\ thread_starts (trace (exec (act cfg lower a) s))
         = S (thread_starts (trace s))).
Proof.
  intros Hrec. destruct a as [k|k|data| |]; cbn [act].
  - crush_state s. subst rec. unfold_methods.
    destruct (is_hotkey cfg lower k); [|left; split; reflexivity].
    red_state. destruct tr; red_state; [left; split; reflexivity|].
    destruct (hd false ops); red_state;
      [|left; split; [reflexivity|apply thread_starts_quiet; reflexivity]].
    destruct (hd false infs); red_state;
      [|left; split; [reflexivity|apply thread_starts_quiet; reflexivity]].
    destruct (hd false ths); red_state.
    + right. split; [reflexivity|].
      rewrite thread_starts_app. cbn. lia.
    + left. split; [reflexivity|apply thread_starts_quiet; reflexivity].
  - crush_state s. subst rec. unfold_methods.
    destruct (is_hotkey cfg lower k); left; split; reflexivity.
  - crush_state s. subst rec. left; split; reflexivity.
  - left. destruct (worker s) as [|job|] eqn:Hw.
    + rewrite (worker_step_waiting cfg s Hw).
      crush_state s. subst rec. unfold_methods.
      destruct q as [|[job|] q]; red_state; (split; [reflexivity|]);
        try reflexivity; apply thread_starts_quiet; reflexivity.
    + rewrite (worker_step_holding cfg s job Hw).
      destruct (worker_process_any cfg job s) as (n & b & c & evs & Hrun & Hev).
      rewrite Hrun.
      unfold job_done. red_state. split; [exact Hrec|].
      rewrite app_assoc, thread_starts_app, thread_starts_worker by exact Hev.
      cbn. lia.
    + rewrite (worker_step_exited cfg s Hw).
      split; [exact Hrec|reflexivity].
  - left. crush_state s. subst rec. unfold_methods. split; [reflexivity|].
    apply thread_starts_quiet; reflexivity.
Qed.

Lemma schedule_at_most_one (cfg : Config) (lower : str -> str)
  (acts : list action) :
  forallb (fun a => negb (hotkey_release cfg lower a)) acts = true ->
  forall s,
    thread_starts (trace (schedule cfg lower acts s))
    <= S (thread_starts (trace s)).
Proof.
  induction acts as [|a acts IH]; intros Hacts s; [cbn; lia|].
  pose proof Hacts as Hall.
  simpl in Hacts. apply andb_true_iff in Hacts. destruct Hacts as [Ha Hacts].
  destruct (is_recording s) eqn:Hrec.
  - destruct (schedule_keeps_recording cfg lower (a :: acts) Hall s Hrec)
      as [_ ->]. lia.
  - cbn [schedule fold_left].
    destruct (act_from_idle cfg lower a s Hrec) as [[Hrec' Hn]|[Hrec' Hn]].
    + specialize (IH Hacts (exec (act cfg lower a) s)).
      unfold schedule in IH. lia.
    + destruct (schedule_keeps_recording cfg lower acts Hacts _ Hrec')
        as [_ Hn'].
      unfold schedule in Hn'. lia.
Qed.

(** C3.  Between a press of the trigger key that starts a recording and
    the next release of that key, nothing starts a second recording:
    further presses, other keys, captured frames and moves of the
    worker leave exactly the one session.  Whatever the device answers,
    a run without a release of the trigger key starts at most one
    session.  A press of the trigger key while a job is being processed
    only sets [hotkey_pressed]. *)
Theorem hotkey_single_session (cfg : Config) (lower : str -> str) (k : key)
  (acts : list action) (s : State) :
  is_hotkey cfg lower k = true ->
  forallb (fun a => negb (hotkey_release cfg lower a)) acts = true ->
  (is_recording s = false ->
   is_translating s = false ->
   hd false (open_results (world s)) = true ->
   hd false (info_results (world s)) = true ->
   hd false (thread_results (world s)) = true ->
   is_recording (exec (on_press cfg lower k) s) = true
   /\ thread_starts (trace (exec (on_press cfg lower k) s))
      = S (thread_starts (trace s))
   /\ thread_starts
        (trace (schedule cfg lower (Press k :: acts ++ [Press k]) s))
      = S (thread_starts (trace s)))
  /\ (is_recording s = true ->
      exec (on_press cfg lower k) s = with_hotkey_pressed true s)
  /\ thread_starts (trace (schedule cfg lower (Press k :: acts ++ [Press k]) s))
     <= S (thread_starts (trace s))
  /\ (is_translating s = true ->
      exec (on_press cfg lower k) s = with_hotkey_pressed true s).
Proof.
  intros Hk Hacts.
  assert (Hall : forallb (fun a => negb (hotkey_release cfg lower a))
                   (Press k :: acts ++ [Press k]) = true).
  { cbn. rewrite forallb_app, Hacts. reflexivity. }
  split; [|split; [|split]].
  - intros Hrec Htr Ho Hi Hth.
    assert (Hfirst : is_recording (exec (on_press cfg lower k) s) = true
                     /\ thread_starts (trace (exec (on_press cfg lower k) s))
                        = S (thread_starts (trace s))).
    { clear Hall Hacts. crush_state s. subst. unfold_methods.
      rewrite Hk. red_state. rewrite Ho. red_state. rewrite Hi. red_state.
      rewrite Hth. red_state. split; [reflexivity|].
      rewrite thread_starts_app. cbn. lia. }
    destruct Hfirst as [Hrec' Hn]. split; [exact Hrec'|]. split; [exact Hn|].
    cbn [schedule fold_left act].
    assert (Hrest : forallb (fun a => negb (hotkey_release cfg lower a))
                      (acts ++ [Press k]) = true)
      by (rewrite forallb_app, Hacts; reflexivity).
    destruct (schedule_keeps_recording cfg lower _ Hrest _ Hrec') as [_ Hn'].
    unfold schedule in Hn'. rewrite Hn'. exact Hn.
  - intros Hrec. crush_state s. subst. unfold_methods. rewrite Hk.
    reflexivity.
  - apply schedule_at_most_one. exact Hall.
  - intros Htr. crush_state s. subst. unfold_methods. rewrite Hk.
    red_state. rewrite andb_false_r. reflexivity.
Qed.

(* ================================================================== *)
(** ** The queue and its single consumer *)

Lemma jobs_in_turn_app (t u : list event) :
  jobs_in_turn (t ++ u) = fold_left track u (jobs_in_turn t).
Proof. unfold jobs_in_turn. apply fold_left_app. Qed.

Lemma track_none (u : list event) : fold_left track u None = None.
Proof. induction u; simpl; auto. Qed.

Lemma track_worker_events (evs : list event) :
  forallb worker_event evs = true ->
  fold_left track evs (Some true) = Some true.
Proof.
  induction evs as [|e evs IH]; simpl; [reflexivity|].
  intros H. apply andb_true_iff in H. destruct H as [He H].
  destruct e; simpl in *; try discriminate; auto.
Qed.

Lemma initial_invariant (w : World) : queue_invariant (initial w).
Proof.
  split; [reflexivity|split; [reflexivity|]]. intros H; discriminate H.
Qed.

Ltac inv_goal :=
  unfold queue_invariant; red_state;
  rewrite ?puts_app, ?gets_app, ?jobs_in_turn_app.

Lemma act_invariant (cfg : Config) (lower : str -> str) (a : action)
  (s : State) :
  queue_invariant s -> queue_invariant (exec (act cfg lower a) s).
Proof.
  intros (Hq & Ht & He). destruct a as [k|k|data| |]; cbn [act].
  - crush_state s. unfold_methods.
    destruct (is_hotkey cfg lower k); [|repeat split; assumption].
    red_state. destruct (negb rec && negb tr); [|repeat split; assumption].
    destruct rec; red_state.
    { inv_goal. rewrite Ht, Hq. cbn. rewrite !app_nil_r.
      repeat split; assumption. }
    destruct (hd false ops); red_state;
      [destruct (hd false infs); red_state;
       [destruct (hd false ths); red_state|]|];
      inv_goal; rewrite Ht, Hq; cbn; rewrite !app_nil_r;
      repeat split; assumption.
  - crush_state s. unfold_methods.
    destruct (is_hotkey cfg lower k); [|repeat split; assumption].
    red_state. destruct rec; red_state; [|repeat split; assumption].
    destruct st; red_state;
      [destruct (hd false strs); red_state;
       [destruct (hd false (tl strs)); red_state|]|];
      try (destruct ad as [[|f fs]|]; red_state);
      inv_goal; rewrite Ht, Hq; cbn; rewrite ?app_nil_r, <- ?app_assoc;
      repeat split; assumption.
  - crush_state s. unfold_methods.
    destruct rec; [|repeat split; assumption].
    destruct data as [d|], ad as [l|]; red_state;
      inv_goal; rewrite ?Ht, ?Hq; cbn; rewrite ?app_nil_r;
      repeat split; assumption.
  - destruct (worker s) as [|job|] eqn:Hw.
    + rewrite (worker_step_waiting cfg s Hw).
      crush_state s. subst wk. unfold_methods.
      destruct q as [|[job|] q]; red_state.
      * repeat split; assumption.
      * inv_goal. rewrite Ht, Hq. cbn. rewrite ?app_nil_r, <- ?app_assoc.
        split; [reflexivity|split; [reflexivity|]]. intros H; discriminate H.
      * inv_goal. rewrite Ht, Hq. cbn. rewrite ?app_nil_r, <- ?app_assoc.
        split; [reflexivity|split; [reflexivity|]].
        intros _. apply in_or_app. right. left. reflexivity.
    + rewrite (worker_step_holding cfg s job Hw).
      destruct (worker_process_any cfg job s) as (n & b & c & evs & Hrun & Hev).
      rewrite Hrun. unfold job_done.
      crush_state s. subst wk. inv_goal.
      rewrite Ht. cbn [holding].
      assert (Hp : puts evs = [] /\ gets evs = []).
      { clear - Hev. induction evs as [|e evs IH]; [split; reflexivity|].
        simpl in Hev. apply andb_true_iff in Hev. destruct Hev as [H1 H2].
        destruct (IH H2) as [IH1 IH2].
        destruct e; simpl in *; try discriminate; auto. }
      destruct Hp as [Hp Hg]. rewrite Hp, Hg.
      rewrite fold_left_app, (track_worker_events _ Hev). cbn.
      rewrite !app_nil_r.
      split; [assumption|split; [reflexivity|]]. intros H; discriminate H.
    + rewrite (worker_step_exited cfg s Hw).
      unfold queue_invariant. rewrite Hw.
      exact (conj Hq (conj Ht He)).
  - crush_state s. unfold_methods.
    inv_goal. rewrite Ht, Hq. cbn. rewrite ?app_nil_r, <- ?app_assoc.
    repeat split; assumption.
Qed.

Lemma schedule_invariant (cfg : Config) (lower : str -> str)
  (acts : list action) :
  forall s, queue_invariant s -> queue_invariant (schedule cfg lower acts s).
Proof.
  induction acts as [|a acts IH]; intros s Hs; [exact Hs|].
  cbn [schedule fold_left]. apply IH. apply act_invariant. exact Hs.
Qed.

(** In a trace whose jobs come in turn, two recordings are never taken
    without a [task_done] in between. *)
Lemma jobs_between (t1 t2 t3 : list event) (S1 S2 : audio) :
  jobs_in_turn (t1 ++ QueueGet (Some S1) :: t2 ++ QueueGet (Some S2) :: t3)
  <> None ->
  In QueueTaskDone t2.
Proof.
  intros H.
  destruct (existsb (fun e => match e with QueueTaskDone => true
                                      | _ => false end) t2) eqn:E.
  - apply existsb_exists in E. destruct E as (e & He & Hd).
    destruct e; try discriminate. exact He.
  - exfalso. apply H. clear H.
    rewrite jobs_in_turn_app. cbn [fold_left].
    rewrite fold_left_app. cbn [fold_left].
    assert (Hopen : forall st,
               st = Some true \/ st = None ->
               fold_left track t2 st = Some true
               \/ fold_left track t2 st = None).
    { induction t2 as [|e t2 IH]; intros st Hst; [exact Hst|].
      simpl in E. apply orb_false_iff in E. destruct E as [He E].
      cbn [fold_left]. apply (IH E).
      destruct Hst as [-> | ->]; [|right; reflexivity].
      destruct e; simpl in *; try discriminate; auto.
      destruct item; auto. }
    assert (Hfirst : track (jobs_in_turn t1) (QueueGet (Some S1)) = Some true
                     \/ track (jobs_in_turn t1) (QueueGet (Some S1)) = None).
    { destruct (jobs_in_turn t1) as [[|]|]; simpl; auto. }
    destruct (Hopen _ Hfirst) as [-> | ->]; simpl; apply track_none.
Qed.

Lemma process_translation_queue_schedule (cfg : Config) (lower : str -> str)
  (fuel : nat) :
  forall s,
    process_translation_queue cfg fuel s
    = schedule cfg lower (repeat Work fuel) s.
Proof.
  induction fuel as [|fuel IH]; intros s; [reflexivity|].
  cbn [process_translation_queue repeat schedule fold_left act].
  destruct (worker s) eqn:Hw; try apply IH.
  rewrite (worker_step_exited cfg s Hw).
  clear IH. induction fuel as [|fuel IH]; [reflexivity|].
  cbn [repeat fold_left act]. rewrite (worker_step_exited cfg s Hw).
  exact IH.
Qed.

Lemma process_translation_queue_exited (cfg : Config) (fuel : nat)
  (s : State) :
  worker s = Exited -> process_translation_queue cfg fuel s = s.
Proof. intros H. destruct fuel; simpl; [|rewrite H]; reflexivity. Qed.

Lemma process_translation_queue_add (cfg : Config) (n m : nat) :
  forall s,
    process_translation_queue cfg (n + m) s
    = process_translation_queue cfg m (process_translation_queue cfg n s).
Proof.
  induction n as [|n IH]; intros s; [reflexivity|].
  cbn [Nat.add process_translation_queue].
  destruct (worker s) eqn:Hw; try apply IH.
  symmetry. apply process_translation_queue_exited. exact Hw.
Qed.

(** One move of the worker on a queue without sentinel. *)
Lemma worker_step_stays (cfg : Config) (s : State) :
  worker s <> Exited ->
  ~ In None (translation_queue s) ->
  worker (exec (worker_step cfg) s) <> Exited
  /\ ~ In None (translation_queue (exec (worker_step cfg) s)).
Proof.
  intros Hw Hq. destruct (worker s) as [|job|] eqn:E; [| |congruence].
  - rewrite (worker_step_waiting cfg s E).
    crush_state s. subst wk. unfold_methods.
    destruct q as [|[job|] q]; red_state.
    + split; [discriminate|exact Hq].
    + split; [discriminate|]. intros H; apply Hq; right; exact H.
    + exfalso; apply Hq; left; reflexivity.
  - rewrite (worker_step_holding cfg s job E).
    destruct (worker_process_any cfg job s) as (n & b & c & evs & Hrun & _).
    rewrite Hrun. unfold job_done. red_state.
    split; [discriminate|exact Hq].
Qed.

Lemma process_translation_queue_stays (cfg : Config) (fuel : nat) :
  forall s,
    worker s <> Exited ->
    ~ In None (translation_queue s) ->
    worker (process_translation_queue cfg fuel s) <> Exited.
Proof.
  induction fuel as [|fuel IH]; intros s Hw Hq; [exact Hw|].
  cbn [process_translation_queue].
  destruct (worker_step_stays cfg s Hw Hq) as [Hw' Hq'].
  destruct (worker s); try (apply IH; assumption). congruence.
Qed.

(** Only [cleanup] puts the sentinel on the queue. *)
Lemma act_puts_no_sentinel (cfg : Config) (lower : str -> str) (a : action)
  (s : State) :
  is_shutdown a = false ->
  ~ In None (puts (trace s)) ->
  ~ In None (puts (trace (exec (act cfg lower a) s))).
Proof.
  intros Ha Hp. destruct a as [k|k|data| |]; cbn [act]; try discriminate.
  - crush_state s. unfold_methods.
    destruct (is_hotkey cfg lower k); [|exact Hp].
    red_state. destruct (negb rec && negb tr); [|exact Hp].
    destruct rec; red_state;
      [rewrite puts_app; cbn; rewrite app_nil_r; exact Hp|].
    destruct (hd false ops); red_state;
      [destruct (hd false infs); red_state;
       [destruct (hd false ths); red_state|]|];
      rewrite puts_app; cbn; rewrite app_nil_r; exact Hp.
  - crush_state s. unfold_methods.
    destruct (is_hotkey cfg lower k); [|exact Hp].
    red_state. destruct rec; red_state; [|exact Hp].
    destruct st; red_state;
      [destruct (hd false strs); red_state;
       [destruct (hd false (tl strs)); red_state|]|];
      try (destruct ad as [[|f fs]|]; red_state);
      rewrite puts_app; cbn; rewrite ?app_nil_r; try exact Hp;
      (intros H; apply in_app_or in H; destruct H as [H|[H|[]]];
       [exact (Hp H)|discriminate H]).
  - crush_state s. unfold_methods.
    destruct rec; [|exact Hp].
    destruct data as [d|], ad as [l|]; red_state;
      rewrite ?puts_app; cbn; rewrite ?app_nil_r; exact Hp.
  - destruct (worker s) as [|job|] eqn:Hw.
    + rewrite (worker_step_waiting cfg s Hw).
      crush_state s. subst wk. unfold_methods.
      destruct q as [|[job|] q]; red_state;
        rewrite ?puts_app; cbn; rewrite ?app_nil_r; exact Hp.
    + rewrite (worker_step_holding cfg s job Hw).
      destruct (worker_process_any cfg job s) as (n & b & c & evs & Hrun & Hev).
      rewrite Hrun. unfold job_done. red_state.
      rewrite !puts_app.
      assert (Hpe : puts evs = []).
      { clear - Hev. induction evs as [|e evs IH]; [reflexivity|].
        simpl in Hev. apply andb_true_iff in Hev. destruct Hev as [H1 H2].
        destruct e; simpl in *; try discriminate; auto. }
      rewrite Hpe. cbn. rewrite app_nil_r. exact Hp.
    + rewrite (worker_step_exited cfg s Hw). exact Hp.
Qed.

Lemma schedule_puts_no_sentinel (cfg : Config) (lower : str -> str)
  (acts : list action) :
  forallb (fun a => negb (is_shutdown a)) acts = true ->
  forall s,
    ~ In None (puts (trace s)) ->
    ~ In None (puts (trace (schedule cfg lower acts s))).
Proof.
  induction acts as [|a acts IH]; intros Hacts s Hp; [exact Hp|].
  simpl in Hacts. apply andb_true_iff in Hacts. destruct Hacts as [Ha Hacts].
  apply negb_true_iff in Ha.
  cbn [schedule fold_left]. apply (IH Hacts).
  apply act_puts_no_sentinel; assumption.
Qed.

(** The sentinel ends the loop once the recordings queued before it
    have been processed, in their order. *)
Lemma process_translation_queue_sentinel (cfg : Config) (jobs : list audio)
  (rest : list (option audio)) :
  forall s,
    worker s = Waiting ->
    translation_queue s = map Some jobs ++ None :: rest ->
    worker (process_translation_queue cfg (2 * List.length jobs + 1) s)
    = Exited
    /\ translation_queue
         (process_translation_queue cfg (2 * List.length jobs + 1) s)
       = rest
    /\ gets (trace (process_translation_queue cfg (2 * List.length jobs + 1) s))
       = gets (trace s) ++ map Some jobs ++ [None].
Proof.
  induction jobs as [|job jobs IH]; intros s Hw Hq.
  - cbn [List.length Nat.mul Nat.add process_translation_queue].
    rewrite Hw. rewrite (worker_step_waiting cfg s Hw).
    crush_state s. subst. unfold_methods.
    rewrite gets_app. repeat split.
  - replace (2 * List.length (job :: jobs) + 1)
      with (2 + (2 * List.length jobs + 1)) by (cbn [List.length]; lia).
    rewrite process_translation_queue_add.
    cbn [process_translation_queue]. rewrite Hw.
    rewrite (worker_step_waiting cfg s Hw).
    assert (Hget : exists s1,
               exec worker_get s = s1
               /\ worker s1 = Holding job
               /\ translation_queue s1 = map Some jobs ++ None :: rest
               /\ gets (trace s1) = gets (trace s) ++ [Some job]).
    { eexists. split; [reflexivity|].
      crush_state s. subst. unfold_methods. rewrite gets_app.
      repeat split. }
    destruct Hget as (s1 & -> & Hw1 & Hq1 & Hg1).
    rewrite Hw1. rewrite (worker_step_holding cfg s1 job Hw1).
    destruct (worker_process_any cfg job s1)
      as (n & b & c & evs & Hrun & Hev).
    rewrite Hrun.
    assert (Hge : gets evs = []).
    { clear - Hev. induction evs as [|e evs IHe]; [reflexivity|].
      simpl in Hev. apply andb_true_iff in Hev. destruct Hev as [H1 H2].
      destruct e; simpl in *; try discriminate; auto. }
    destruct (IH (job_done (advanced s1 n b c evs))) as (H1 & H2 & H3).
    + reflexivity.
    + exact Hq1.
    + split; [exact H1|]. split; [exact H2|].
      rewrite H3. unfold job_done. red_state.
      rewrite !gets_app, Hge, Hg1. cbn. rewrite <- !app_assoc. reflexivity.
Qed.

(** C4.  Recordings leave the queue in the order they were put on it,
    and the worker handles them one at a time: in any run of the
    threads, a second recording is taken from the queue only after
    [task_done] has closed the job of the one before.  The worker does
    not leave its loop as long as no sentinel has been put on the
    queue; once [None] is on the queue, the loop ends after the
    recordings queued before it. *)
Theorem worker_fifo_and_exit (cfg : Config) (lower : str -> str)
  (acts : list action) (w : World) (fuel : nat) (jobs : list audio)
  (rest : list (option audio)) (s0 : State) :
  (puts (trace (schedule cfg lower acts (initial w)))
   = gets (trace (schedule cfg lower acts (initial w)))
     ++ translation_queue (schedule cfg lower acts (initial w))
   /\ jobs_in_turn (trace (schedule cfg lower acts (initial w)))
      = Some (holding (worker (schedule cfg lower acts (initial w))))
   /\ (forall t1 t2 t3 S1 S2,
         trace (schedule cfg lower acts (initial w))
         = t1 ++ QueueGet (Some S1) :: t2 ++ QueueGet (Some S2) :: t3 ->
         In QueueTaskDone t2)
   /\ (forallb (fun a => negb (is_shutdown a)) acts = true ->
       worker (schedule cfg lower acts (initial w)) <> Exited))
  /\ (worker s0 <> Exited ->
      ~ In None (translation_queue s0) ->
      worker (process_translation_queue cfg fuel s0) <> Exited)
  /\ (worker s0 = Waiting ->
      translation_queue s0 = map Some jobs ++ None :: rest ->
      2 * List.length jobs + 1 <= fuel ->
      worker (process_translation_queue cfg fuel s0) = Exited
      /\ translation_queue (process_translation_queue cfg fuel s0) = rest
      /\ gets (trace (process_translation_queue cfg fuel s0))
         = gets (trace s0) ++ map Some jobs ++ [None]).
Proof.
  pose proof (schedule_invariant cfg lower acts _ (initial_invariant w))
    as (Hq & Ht & He).
  split; [|split].
  - split; [exact Hq|]. split; [exact Ht|]. split.
    + intros t1 t2 t3 S1 S2 Htrace. apply (jobs_between t1 t2 t3 S1 S2).
      rewrite <- Htrace, Ht. discriminate.
    + intros Hacts Hw.
      apply (schedule_puts_no_sentinel cfg lower acts Hacts (initial w)).
      * intros [].
      * rewrite Hq. apply in_or_app. left. exact (He Hw).
  - apply process_translation_queue_stays.
  - intros Hw Hqueue Hfuel.
    replace fuel with ((2 * List.length jobs + 1)
                       + (fuel - (2 * List.length jobs + 1))) by lia.
    rewrite process_translation_queue_add.
    destruct (process_translation_queue_sentinel cfg jobs rest s0 Hw Hqueue)
      as (H1 & H2 & H3).
    rewrite (process_translation_queue_exited cfg _ _ H1).
    split; [exact H1|]. split; [exact H2|exact H3].
Qed.

(* ================================================================== *)
(** ** The statements at concrete inputs *)

Lemma short_mono_audio_discarded_witness :
  shorter_than_half_second scenario_cfg [short_frame]
  /\ result (transcribe_audio scenario_cfg [short_frame])
       (initial scenario_world) = None
  /\ transcriptions
       (trace (exec (worker_process scenario_cfg [short_frame])
                 (initial scenario_world))) = [].
Proof.
  assert (H : shorter_than_half_second scenario_cfg [short_frame])
    by (vm_compute; reflexivity).
  split; [exact H|].
  split.
  - exact (proj1 (short_mono_audio_discarded scenario_cfg [short_frame]
                    (initial scenario_world) eq_refl H)).
  - exact (proj1 (proj2 (short_mono_audio_discarded scenario_cfg
                           [short_frame] (initial scenario_world)
                           eq_refl H))).
Defined.

Lemma empty_transcription_discarded_witness :
  stt_empty (hd SttRaise (transcribe_results (world (initial silent_world))))
  = true
  /\ result (transcribe_audio scenario_cfg scenario_audio)
       (initial silent_world) = None
  /\ sends (trace (exec (worker_process scenario_cfg scenario_audio)
                     (initial silent_world))) = [].
Proof.
  assert (H : stt_empty
                (hd SttRaise
                   (transcribe_results (world (initial silent_world))))
              = true) by (vm_compute; reflexivity).
  split; [exact H|].
  split.
  - exact (proj1 (empty_transcription_discarded scenario_cfg scenario_audio
                    (initial silent_world) H)).
  - exact (proj1 (proj2 (proj2
             (empty_transcription_discarded scenario_cfg scenario_audio
                (initial silent_world) H)))).
Defined.

Lemma semantic_correction_fallback_witness :
  result (semantic_correction ni_hao_shi_jie)
    (initial failing_correction_world) = ni_hao_shi_jie
  /\ chats (trace (exec (worker_process scenario_cfg scenario_audio)
                     (initial failing_correction_world)))
     = [CorrectionPrompt ni_hao_shi_jie;
        TranslationPrompt (lit "zh") (lit "en") ni_hao_shi_jie;
        TranslationPrompt (lit "zh") (lit "ja") ni_hao_shi_jie].
Proof.
  destruct (semantic_correction_fallback scenario_cfg ni_hao_shi_jie
              scenario_audio (repeat 0%Z (Z.to_nat 8000))
              (initial failing_correction_world)) as [HA HB].
  split.
  - apply HA. right. left. reflexivity.
  - apply HB.
    + vm_compute. reflexivity.
    + vm_compute. discriminate.
    + reflexivity.
    + vm_compute. discriminate.
    + reflexivity.
Defined.

Lemma stop_recording_empty_buffer_witness :
  is_recording
    (exec (on_press scenario_cfg ascii_lower key_k) (initial scenario_world))
  = true
  /\ translation_queue
       (exec stop_recording
          (exec (on_press scenario_cfg ascii_lower key_k)
             (initial scenario_world))) = [].
Proof.
  split; [reflexivity|].
  exact (proj1 (stop_recording_empty_buffer
                  (exec (on_press scenario_cfg ascii_lower key_k)
                     (initial scenario_world))
                  eq_refl (or_introl eq_refl))).
Defined.

Lemma start_recording_open_failure_witness :
  is_hotkey scenario_cfg ascii_lower key_k = true
  /\ hd false (open_results (world (initial flaky_device_world))) = false
  /\ is_recording
       (exec (on_press scenario_cfg ascii_lower key_k)
          (initial flaky_device_world)) = false
  /\ is_recording
       (exec (on_press scenario_cfg ascii_lower key_k)
          (exec (on_press scenario_cfg ascii_lower key_k)
             (initial flaky_device_world))) = true.
Proof.
  split; [reflexivity|]. split; [reflexivity|].
  destruct (start_recording_open_failure scenario_cfg ascii_lower key_k
              (initial flaky_device_world) eq_refl eq_refl eq_refl eq_refl)
    as (_ & _ & _ & _ & H1 & _ & _ & H2).
  split; [exact H1|].
  exact (proj1 (H2 eq_refl eq_refl eq_refl)).
Defined.

Lemma hotkey_single_session_witness :
  is_hotkey scenario_cfg ascii_lower key_k = true
  /\ thread_starts
       (trace
          (schedule scenario_cfg ascii_lower
             (Press key_k
              :: [Capture (Some short_frame); Work] ++ [Press key_k])
             (initial scenario_world))) = 1.
Proof.
  split; [reflexivity|].
  destruct (hotkey_single_session scenario_cfg ascii_lower key_k
              [Capture (Some short_frame); Work] (initial scenario_world)
              eq_refl eq_refl) as (H & _).
  exact (proj2 (proj2 (H eq_refl eq_refl eq_refl eq_refl eq_refl))).
Defined.

Lemma worker_fifo_and_exit_witness :
  worker
    (schedule scenario_cfg ascii_lower
       [Press key_k; Capture (Some short_frame); Release key_k; Work; Work]
       (initial scenario_world)) <> Exited
  /\ worker (process_translation_queue scenario_cfg 5 (initial scenario_world))
     <> Exited
  /\ worker
       (process_translation_queue scenario_cfg 3
          (exec cleanup
             (schedule scenario_cfg ascii_lower
                [Press key_k; Capture (Some short_frame); Release key_k]
                (initial scenario_world)))) = Exited.
Proof.
  split; [|split].
  - destruct (worker_fifo_and_exit scenario_cfg ascii_lower
                [Press key_k; Capture (Some short_frame); Release key_k;
                 Work; Work]
                scenario_world 0 [] [] (initial scenario_world))
      as ((_ & _ & _ & H) & _).
    exact (H eq_refl).
  - destruct (worker_fifo_and_exit scenario_cfg ascii_lower [] scenario_world
                5 [] [] (initial scenario_world)) as (_ & H & _).
    apply H; [discriminate|intros []].
  - destruct (worker_fifo_and_exit scenario_cfg ascii_lower [] scenario_world
                3 [[short_frame]] []
                (exec cleanup
                   (schedule scenario_cfg ascii_lower
                      [Press key_k; Capture (Some short_frame);
                       Release key_k]
                      (initial scenario_world))))
      as (_ & _ & H).
    refine (proj1 (H eq_refl eq_refl _)). cbn. lia.
Defined.

(** Two recordings made one after the other are taken in that order,
    the second one after [task_done] for the first. *)
Example two_recordings_in_turn :
  filter (fun e => match e with
                   | QueuePut _ | QueueGet _ | QueueTaskDone => true
                   | _ => false
                   end)
    (trace
       (schedule scenario_cfg ascii_lower
          [Press key_k; Capture (Some short_frame); Release key_k;
           Press key_k; Capture (Some [2; 0]%Z); Release key_k;
           Work; Work; Work; Work]
          (initial two_takes_world)))
  = [QueuePut (Some [short_frame]); QueuePut (Some [[2; 0]%Z]);
     QueueGet (Some [short_frame]); QueueTaskDone;
     QueueGet (Some [[2; 0]%Z]); QueueTaskDone].
Proof. vm_compute. reflexivity. Qed.

(* ================================================================== *)
(** ** Further properties of the recording side *)

Lemma stop_recording_run (s : State) (f : frame) (fs : list frame) :
  is_recording s = true ->
  audio_data s = Some (f :: fs) ->
  stream_closes s = true ->
  translation_queue (exec stop_recording s)
  = translation_queue s ++ [Some (f :: fs)]
  /\ puts (trace (exec stop_recording s))
     = puts (trace s) ++ [Some (f :: fs)]
  /\ audio_data (exec stop_recording s) = Some []
  /\ is_recording (exec stop_recording s) = false
  /\ logged ERROR (trace (exec stop_recording s)) = logged ERROR (trace s)
  /\ is_translating (exec stop_recording s) = is_translating s
  /\ worker (exec stop_recording s) = worker s.
Proof.
  intros Hrec Hbuf Hclose. crush_state s. subst rec ad.
  unfold stream_closes in Hclose.
  cbn [stream world stream_results] in Hclose.
  unfold_methods. destruct st; cbn [negb orb] in Hclose.
  - apply andb_true_iff in Hclose. destruct Hclose as [H1 H2].
    red_state. rewrite H1. red_state. rewrite H2. red_state.
    rewrite !puts_app, !logged_app. cbn. rewrite !app_nil_r.
    repeat split.
  - red_state. rewrite !puts_app, !logged_app. cbn. rewrite !app_nil_r.
    repeat split.
Qed.

(** X1.  [stop_recording] on a recording with frames, whose stream
    closes, puts one copy of the frames at the back of the queue,
    empties the buffer and lowers the recording flag, without logging
    an error. *)
Theorem stop_recording_enqueues (s : State) (f : frame) (fs : list frame) :
  is_recording s = true ->
  audio_data s = Some (f :: fs) ->
  stream_closes s = true ->
  translation_queue (exec stop_recording s)
  = translation_queue s ++ [Some (f :: fs)]
  /\ puts (trace (exec stop_recording s))
     = puts (trace s) ++ [Some (f :: fs)]
  /\ audio_data (exec stop_recording s) = Some []
  /\ is_recording (exec stop_recording s) = false
  /\ logged ERROR (trace (exec stop_recording s)) = logged ERROR (trace s).
Proof.
  intros Hrec Hbuf Hclose.
  destruct (stop_recording_run s f fs Hrec Hbuf Hclose)
    as (H1 & H2 & H3 & H4 & H5 & _).
  repeat split; assumption.
Qed.

(** X2.  When closing the stream raises, [stop_recording] enqueues
    nothing although frames were captured: the flag is lowered, the
    frames stay in the buffer, one error is logged, and the next
    [start_recording] replaces the buffer by an empty one, so that
    recording is never translated. *)
Theorem stop_recording_stream_failure (s : State) (frames : list frame) :
  is_recording s = true ->
  audio_data s = Some frames ->
  stream_closes s = false ->
  translation_queue (exec stop_recording s) = translation_queue s
  /\ puts (trace (exec stop_recording s)) = puts (trace s)
  /\ is_recording (exec stop_recording s) = false
  /\ audio_data (exec stop_recording s) = Some frames
  /\ logged ERROR (trace (exec stop_recording s))
     = logged ERROR (trace s) ++ [MsgStopRecordingFailed]
  /\ audio_data (exec start_recording (exec stop_recording s)) = Some []
  /\ translation_queue (exec start_recording (exec stop_recording s))
     = translation_queue s.
Proof.
  intros Hrec Hbuf Hclose. crush_state s. subst rec ad.
  unfold stream_closes in Hclose.
  cbn [stream world stream_results] in Hclose.
  destruct st; cbn [negb orb] in Hclose; [|discriminate].
  unfold_methods.
  destruct (hd false strs) eqn:H1; red_state.
  - cbn [andb] in Hclose. rewrite Hclose. red_state.
    rewrite !puts_app, !logged_app. cbn. rewrite !app_nil_r.
    do 5 (split; [reflexivity|]).
    destruct (hd false ops); red_state;
      [destruct (hd false infs); red_state;
       [destruct (hd false ths); red_state|]|];
      split; reflexivity.
  - rewrite !puts_app, !logged_app. cbn. rewrite !app_nil_r.
    do 5 (split; [reflexivity|]).
    destruct (hd false ops); red_state;
      [destruct (hd false infs); red_state;
       [destruct (hd false ths); red_state|]|];
      split; reflexivity.
Qed.

Lemma captures_run (cfg : Config) (lower : str -> str) (frames : list frame) :
  forall l st hk tr q wk w tc,
    schedule cfg lower (map (fun f => Capture (Some f)) frames)
      {| is_recording := true; audio_data := Some l; stream := st;
         hotkey_pressed := hk; is_translating := tr;
         translation_queue := q; worker := wk; world := w; trace := tc |}
    = {| is_recording := true; audio_data := Some (l ++ frames); stream := st;
         hotkey_pressed := hk; is_translating := tr;
         translation_queue := q; worker := wk; world := w; trace := tc |}.
Proof.
  induction frames as [|f frames IH]; intros l st hk tr q wk w tc.
  - rewrite app_nil_r. reflexivity.
  - cbn [map schedule fold_left act]. unfold schedule in IH.
    change (exec (record_audio_turn (Some f))
              {| is_recording := true; audio_data := Some l; stream := st;
                 hotkey_pressed := hk; is_translating := tr;
                 translation_queue := q; worker := wk; world := w;
                 trace := tc |})
      with {| is_recording := true; audio_data := Some (l ++ [f]);
              stream := st; hotkey_pressed := hk; is_translating := tr;
              translation_queue := q; worker := wk; world := w;
              trace := tc |}.
    rewrite IH, <- app_assoc. reflexivity.
Qed.

(** X3.  Push to talk, from press to release: on an idle object with a
    working device, a press of the trigger key, any number of frames
    read by the recording thread, and a release put exactly those
    frames, in the order read, on the queue as one recording. *)
Theorem push_to_talk_enqueues_frames (cfg : Config) (lower : str -> str)
  (k : key) (f : frame) (fs : list frame) (s : State) :
  is_hotkey cfg lower k = true ->
  is_recording s = false ->
  is_translating s = false ->
  device_ready s = true ->
  hd false (stream_results (world s)) = true ->
  hd false (tl (stream_results (world s))) = true ->
  translation_queue
    (schedule cfg lower
       (Press k :: map (fun x => Capture (Some x)) (f :: fs) ++ [Release k]) s)
  = translation_queue s ++ [Some (f :: fs)]
  /\ is_recording
       (schedule cfg lower
          (Press k :: map (fun x => Capture (Some x)) (f :: fs)
                   ++ [Release k]) s)
     = false
  /\ audio_data
       (schedule cfg lower
          (Press k :: map (fun x => Capture (Some x)) (f :: fs)
                   ++ [Release k]) s)
     = Some []
  /\ thread_starts
       (trace
          (schedule cfg lower
             (Press k :: map (fun x => Capture (Some x)) (f :: fs)
                      ++ [Release k]) s))
     = S (thread_starts (trace s)).
Proof.
  intros Hk Hrec Htr Hdev Hs1 Hs2.
  unfold device_ready in Hdev.
  apply andb_true_iff in Hdev. destruct Hdev as [Hdev Hth].
  apply andb_true_iff in Hdev. destruct Hdev as [Hop Hinf].
  change (Press k :: map (fun x => Capture (Some x)) (f :: fs) ++ [Release k])
    with ([Press k] ++ map (fun x => Capture (Some x)) (f :: fs)
          ++ [Release k]).
  rewrite !schedule_app.
  crush_state s. subst rec tr.
  assert (Hpress :
            schedule cfg lower [Press k]
              {| is_recording := false; audio_data := ad; stream := st;
                 hotkey_pressed := hk; is_translating := false;
                 translation_queue := q; worker := wk;
                 world := {| open_results := ops; info_results := infs;
                             thread_results := ths; stream_results := strs;
                             transcribe_results := stts; chat_results := chs;
                             send_results := snds |};
                 trace := tc |}
            = {| is_recording := true; audio_data := Some []; stream := true;
                 hotkey_pressed := true; is_translating := false;
                 translation_queue := q; worker := wk;
                 world := {| open_results := tl ops; info_results := tl infs;
                             thread_results := tl ths; stream_results := strs;
                             transcribe_results := stts; chat_results := chs;
                             send_results := snds |};
                 trace := tc ++ [Log INFO MsgHotkeyDown; AudioOpen; DeviceInfo;
                                 Log INFO MsgRecordingStarted;
                                 RecordingThreadStart] |}).
  { cbn [schedule fold_left act]. unfold_methods. rewrite Hk. red_state.
    rewrite Hop. red_state. rewrite Hinf. red_state. rewrite Hth. red_state.
    reflexivity. }
  rewrite Hpress, captures_run. cbn [app].
  cbn [schedule fold_left act]. unfold_methods. rewrite Hk. red_state.
  rewrite Hs1. red_state. rewrite Hs2. red_state.
  rewrite !thread_starts_app. cbn.
  repeat split. lia.
Qed.

(* ================================================================== *)
(** ** Invariants of the flags *)

(* ================================================================== *)
(** ** Further properties of a job *)

Lemma refined_stripped (text : str) (o : chat_outcome) :
  strip text = text -> strip (refined text o) = refined text o.
Proof.
  intros Ht. destruct o as [|c]; simpl; [exact Ht|].
  destruct (negb (truthy (strip c)) || PyStr.eqb (strip c) text);
    [exact Ht|apply strip_strip].
Qed.

Lemma refined_cases (text : str) (o : chat_outcome) :
  refined text o = text
  \/ exists c, o = ChatContent c /\ refined text o = strip c
               /\ strip c <> text /\ truthy (strip c) = true.
Proof.
  destruct o as [|c]; simpl; [left; reflexivity|].
  destruct (truthy (strip c)) eqn:Hc; simpl; [|left; reflexivity].
  destruct (PyStr.eqb (strip c) text) eqn:He; [left; reflexivity|].
  right. exists c. apply eqb_neq in He. repeat split; assumption.
Qed.

(** X5.  [semantic_correction] returns either its input or the stripped
    answer of the service, and the latter only when that answer is
    non-empty and differs from the input; a non-empty input never comes
    back empty.  It makes one chat request, for the input text, unless
    the input is empty or shorter than two characters once stripped,
    in which case it makes none. *)
Theorem semantic_correction_result (text : str) (s : State) :
  (result (semantic_correction text) s = text
   \/ exists c,
        hd ChatRaise (chat_results (world s)) = ChatContent c
        /\ result (semantic_correction text) s = strip c
        /\ strip c <> text /\ truthy (strip c) = true)
  /\ (truthy text = true ->
      truthy (result (semantic_correction text) s) = true)
  /\ chats (trace (exec (semantic_correction text) s))
     = chats (trace s)
       ++ (if negb (truthy text) || (len (strip text) <? 2)%Z then []
           else [CorrectionPrompt text])
  /\ sends (trace (exec (semantic_correction text) s)) = sends (trace s).
Proof.
  destruct (semantic_correction_run text s)
    as (evs & Hrun & Hc & Hs & _ & _).
  unfold result, exec. rewrite Hrun. cbn [fst snd advanced trace].
  rewrite chats_app, sends_app, Hc, Hs, app_nil_r.
  fold (correction_skipped text).
  destruct (correction_skipped text).
  - repeat split; auto.
  - split; [apply refined_cases|]. split; [apply refined_truthy|].
    split; reflexivity.
Qed.

Lemma transcribe_audio_cases (cfg : Config) (a : audio) (s : State) :
  exists r n b evs,
    transcribe_audio cfg a s = (r, advanced s n b 0 evs)
    /\ forallb worker_event evs = true
    /\ n = List.length (transcriptions evs)
    /\ b = List.length (chats evs)
    /\ n <= 1 /\ b <= 1
    /\ sends evs = []
    /\ (forall t, r = Some t -> truthy t = true /\ strip t = t)
    /\ (r = None -> b = 0).
Proof.
  unfold transcribe_audio.
  destruct (frombuffer (List.concat a)) as [np|].
  - destruct (2 * Z.of_nat (List.length np) <? RATE cfg)%Z.
    + run. eexists None, 0, 0, _. split; [reflexivity|].
      repeat split; try lia; discriminate.
    + run. destruct (hd SttRaise (transcribe_results (world s))) as [|text].
      * run. eexists None, 1, 0, _. split; [reflexivity|].
        repeat split; try lia; discriminate.
      * run.
        destruct (truthy (strip match text with Some x => x | None => [] end))
          eqn:Ht.
        -- match goal with
           | |- context [bind (semantic_correction ?x) _ ?st] =>
               destruct (semantic_correction_run x st)
                 as (evs & Hrun & Hc & Hs & Htr & Hev)
           end.
           rewrite (bind_run _ Hrun). run.
           rewrite chat_results_advanced in *. cbn [skipn] in *.
           eexists (Some _), 1, _, _. split; [reflexivity|].
           set (t0 := strip match text with Some x => x | None => [] end) in *.
           assert (Hst : strip t0 = t0) by apply strip_strip.
           unfold transcriptions, chats, sends in *.
           cbn [flat_map forallb worker_event andb app].
           rewrite !forallb_app, !flat_map_app, Hev, Hc, Hs, Htr.
           destruct (correction_skipped t0); cbn;
             (split; [reflexivity|]); (split; [reflexivity|]);
             (split; [reflexivity|]); (split; [lia|]); (split; [lia|]);
             (split; [reflexivity|]); (split; [|discriminate]);
             intros t' [= <-]; split; try assumption;
             try (apply refined_truthy; assumption);
             try (apply refined_stripped; assumption).
        -- eexists None, 1, 0, _. split; [reflexivity|].
           repeat split; try lia; discriminate.
  - run. eexists None, 0, 0, _. split; [reflexivity|].
    repeat split; try lia; discriminate.
Qed.

(** X6.  What [transcribe_audio] returns is [None] or a non-empty text
    without surrounding white space, so the worker's test
    [if original_text:] fails only on [None]. *)
Theorem transcribe_audio_text_clean (cfg : Config) (a : audio) (s : State)
  (t : str) :
  result (transcribe_audio cfg a) s = Some t ->
  truthy t = true /\ strip t = t.
Proof.
  destruct (transcribe_audio_cases cfg a s)
    as (r & n & b & evs & Hrun & _ & _ & _ & _ & _ & _ & Hr & _).
  unfold result. rewrite Hrun. cbn [fst]. apply Hr.
Qed.

Lemma length_sends_translate (cfg : Config) (text : str) (s : State) :
  truthy text = true ->
  exists evs,
    translate_and_send cfg (Some text) s
    = (tt, advanced s 0 (List.length (target_languages cfg)) 1 evs)
    /\ forallb worker_event evs = true
    /\ transcriptions evs = []
    /\ List.length (chats evs) = List.length (target_languages cfg)
    /\ List.length (sends evs) = 1.
Proof.
  intros Ht. rewrite (translate_and_send_run cfg text s Ht).
  eexists. split; [reflexivity|].
  rewrite forallb_app, transcriptions_app, chats_app, sends_app.
  rewrite forallb_translate_events, chats_fanout, sends_translate_events.
  assert (Htr : forall calls,
             transcriptions (translate_events cfg text calls) = []).
  { induction calls as [|[l o] r IH]; simpl; [reflexivity|].
    destruct o; exact IH. }
  rewrite Htr.
  destruct (hd false (send_results (world s))); cbn;
    rewrite length_app, length_map; cbn; repeat split; lia.
Qed.

Lemma worker_process_cases (cfg : Config) (a : audio) (s : State) :
  exists n b c evs,
    exec (worker_process cfg a) s = job_done (advanced s n b c evs)
    /\ forallb worker_event evs = true
    /\ List.length (transcriptions evs) <= 1
    /\ List.length (chats evs) <= 1 + List.length (target_languages cfg)
    /\ List.length (sends evs)
       = match result (transcribe_audio cfg a) s with
         | Some _ => 1
         | None => 0
         end
    /\ (result (transcribe_audio cfg a) s = None -> chats evs = [])
    /\ n = List.length (transcriptions evs)
    /\ b = List.length (chats evs)
    /\ c = List.length (sends evs).
Proof.
  destruct (transcribe_audio_cases cfg a s)
    as (r & n & b & evs & Hrun & Hev & Hn & Hb & Hn1 & Hb1 & Hs & Hr & Hnone).
  unfold result. rewrite Hrun. cbn [fst].
  destruct r as [t|].
  - destruct (Hr t eq_refl) as [Ht _].
    destruct (length_sends_translate cfg t (advanced s n b 0 evs) Ht)
      as (evs' & Hrun' & Hev' & Htr' & Hc' & Hs').
    rewrite (worker_process_run cfg a s Hrun Hrun'), advanced_advanced.
    eexists _, _, _, _. split; [reflexivity|].
    rewrite forallb_app, transcriptions_app, chats_app, sends_app,
      !length_app, Hev, Hev', Htr', Hs, Hc', Hs'. cbn.
    repeat split; try lia. discriminate.
  - assert (Hrun' : translate_and_send cfg None (advanced s n b 0 evs)
                    = (tt, advanced s n b 0 evs)) by reflexivity.
    rewrite (worker_process_run cfg a s Hrun Hrun').
    eexists _, _, _, _. split; [reflexivity|].
    rewrite Hs. cbn. specialize (Hnone eq_refl).
    repeat split; try lia; try assumption.
    intros _. destruct (chats evs); [reflexivity|cbn in *; lia].
Qed.

(** X7.  One job costs at most one speech-to-text call, at most one
    chat request per configured language plus one for the correction,
    and exactly one OSC message when [transcribe_audio] returned a text,
    none otherwise; a job whose transcription is dropped makes no chat
    request at all. *)
Theorem job_call_budget (cfg : Config) (a : audio) (s : State) :
  List.length (transcriptions (trace (exec (worker_process cfg a) s)))
  <= List.length (transcriptions (trace s)) + 1
  /\ List.length (chats (trace (exec (worker_process cfg a) s)))
     <= List.length (chats (trace s)) + 1
        + List.length (target_languages cfg)
  /\ List.length (sends (trace (exec (worker_process cfg a) s)))
     = List.length (sends (trace s))
       + match result (transcribe_audio cfg a) s with
         | Some _ => 1
         | None => 0
         end
  /\ (result (transcribe_audio cfg a) s = None ->
      chats (trace (exec (worker_process cfg a) s)) = chats (trace s)).
Proof.
  destruct (worker_process_cases cfg a s)
    as (n & b & c & evs & Hrun & _ & Htr & Hc & Hs & Hnone & _).
  rewrite Hrun. unfold job_done. red_state.
  rewrite !transcriptions_app, !chats_app, !sends_app, !length_app.
  cbn. rewrite !app_nil_r, !Nat.add_0_r.
  repeat split; try lia.
  intros H. rewrite (Hnone H), app_nil_r. reflexivity.
Qed.

(** X8.  Whatever the collaborators answer, a job ends with the busy
    flag lowered, the worker back at [queue.get] and [task_done] called
    once as the last thing; it touches neither the recording flag, the
    frame buffer, the stream, the key flag, the queue, nor the audio
    device. *)
Theorem job_always_completes (cfg : Config) (a : audio) (s : State) :
  is_translating (exec (worker_process cfg a) s) = false
  /\ worker (exec (worker_process cfg a) s) = Waiting
  /\ task_dones (trace (exec (worker_process cfg a) s))
     = S (task_dones (trace s))
  /\ (exists evs, trace (exec (worker_process cfg a) s)
                  = trace s ++ evs ++ [QueueTaskDone])
  /\ is_recording (exec (worker_process cfg a) s) = is_recording s
  /\ audio_data (exec (worker_process cfg a) s) = audio_data s
  /\ stream (exec (worker_process cfg a) s) = stream s
  /\ hotkey_pressed (exec (worker_process cfg a) s) = hotkey_pressed s
  /\ translation_queue (exec (worker_process cfg a) s) = translation_queue s
  /\ open_results (world (exec (worker_process cfg a) s))
     = open_results (world s)
  /\ stream_results (world (exec (worker_process cfg a) s))
     = stream_results (world s).
Proof.
  destruct (worker_process_any cfg a s) as (n & b & c & evs & Hrun & Hev).
  rewrite Hrun. unfold job_done. red_state.
  do 2 (split; [reflexivity|]).
  split.
  { unfold task_dones. rewrite !filter_app, !length_app.
    assert (H0 : filter (fun e => match e with QueueTaskDone => true
                                          | _ => false end) evs = []).
    { clear - Hev. induction evs as [|e evs IH]; [reflexivity|].
      simpl in Hev. apply andb_true_iff in Hev. destruct Hev as [H1 H2].
      destruct e; simpl in *; try discriminate; auto. }
    rewrite H0. cbn. lia. }
  split; [exists evs; reflexivity|].
  repeat split.
Qed.

(* ================================================================== *)
(** ** The books of the queue *)

Lemma task_dones_app (t u : list event) :
  task_dones (t ++ u) = task_dones t + task_dones u.
Proof. unfold task_dones. rewrite filter_app, length_app. reflexivity. Qed.

Lemma recordings_app (l m : list (option audio)) :
  recordings (l ++ m) = recordings l ++ recordings m.
Proof. apply flat_map_app. Qed.

Lemma worker_events_neutral (evs : list event) :
  forallb worker_event evs = true ->
  gets evs = [] /\ puts evs = [] /\ task_dones evs = 0
  /\ thread_starts evs = 0.
Proof.
  induction evs as [|e evs IH]; intros H; [repeat split|].
  simpl in H. apply andb_true_iff in H. destruct H as [He H].
  destruct (IH H) as (H1 & H2 & H3 & H4).
  unfold task_dones, thread_starts in *.
  destruct e; simpl in *; try discriminate; auto.
Qed.

Ltac red_books :=
  cbn -[lit thread_starts logged puts gets sends chats transcriptions
        jobs_in_turn task_dones recordings];
  rewrite <- ?app_assoc; cbn [app].

Ltac unfold_books :=
  unfold exec, result, on_press, on_release, start_recording, stop_recording,
    record_audio_turn, cleanup, worker_get, audio_open, get_device_info,
    thread_start, stream_call, log, emit, modify, bind, ret;
  red_books.

Ltac count :=
  rewrite ?puts_app, ?gets_app, ?sends_app, ?thread_starts_app,
    ?task_dones_app, ?recordings_app, ?length_app;
  cbn [puts gets sends recordings flat_map app List.length
       thread_starts task_dones filter holding];
  rewrite ?app_nil_r, ?length_app; cbn [List.length].

Lemma act_accounts (cfg : Config) (lower : str -> str) (a : action)
  (s : State) :
  accounts s -> accounts (exec (act cfg lower a) s).
Proof.
  unfold accounts. intros (H1 & H2 & H3 & H4).
  destruct a as [k|k|data| |]; cbn [act].
  - crush_state s. unfold_books.
    destruct (is_hotkey cfg lower k); [|repeat split; assumption].
    red_books. destruct rec; red_books; [repeat split; assumption|].
    destruct tr; red_books; [repeat split; assumption|].
    destruct (hd false ops); red_books;
      [destruct (hd false infs); red_books;
       [destruct (hd false ths); red_books|]|];
      count; cbn [holding] in *; repeat split; lia.
  - crush_state s. unfold_books.
    destruct (is_hotkey cfg lower k); [|repeat split; assumption].
    red_books. destruct rec; red_books; [|repeat split; assumption].
    destruct st; red_books;
      [destruct (hd false strs); red_books;
       [destruct (hd false (tl strs)); red_books|]|];
      try (destruct ad as [[|f fs]|]; red_books);
      count; cbn [holding] in *; repeat split; lia.
  - crush_state s. unfold_books.
    destruct rec; [|repeat split; assumption].
    destruct data as [d|], ad as [l|]; red_books;
      count; cbn [holding] in *; repeat split; lia.
  - destruct (worker s) as [|job|] eqn:Hw.
    + rewrite (worker_step_waiting cfg s Hw).
      crush_state s. subst wk. unfold_books.
      destruct q as [|[job|] q]; red_books;
        count; cbn [holding] in *; repeat split; lia.
    + rewrite (worker_step_holding cfg s job Hw).
      destruct (worker_process_cases cfg job s)
        as (n & b & c & evs & Hrun & Hev & _ & _ & Hs & _).
      rewrite Hrun. unfold job_done.
      destruct (worker_events_neutral evs Hev) as (E1 & E2 & E3 & E4).
      assert (Hs1 : List.length (sends evs) <= 1)
        by (rewrite Hs; destruct (result (transcribe_audio cfg job) s); lia).
      crush_state s. subst wk. red_books.
      rewrite !gets_app, !puts_app, !sends_app, !task_dones_app,
        !thread_starts_app, !recordings_app, !length_app, E1, E2, E3, E4.
      cbn [holding] in *. cbn.
      rewrite ?app_nil_r, ?Nat.add_0_r. repeat split; lia.
    + rewrite (worker_step_exited cfg s Hw). rewrite Hw.
      repeat split; assumption.
  - crush_state s. unfold_books.
    count; cbn [holding] in *. repeat split; lia.
Qed.

Lemma schedule_accounts (cfg : Config) (lower : str -> str)
  (acts : list action) :
  forall s, accounts s -> accounts (schedule cfg lower acts s).
Proof.
  induction acts as [|a acts IH]; intros s Hs; [exact Hs|].
  cbn [schedule fold_left]. apply IH. apply act_accounts. exact Hs.
Qed.

Lemma initial_accounts (w : World) : accounts (initial w).
Proof. unfold accounts. cbn. repeat split; lia. Qed.

Ltac extend_trace :=
  first [ exists []; rewrite ?app_nil_r; split; [reflexivity|]
        | eexists; split; [reflexivity|] ].

Lemma act_books (cfg : Config) (lower : str -> str) (a : action)
  (s : State) :
  accounts s -> queue_invariant s ->
  exists evs,
    trace (exec (act cfg lower a) s) = trace s ++ evs
    /\ List.length (sends (trace s ++ evs))
       <= List.length (recordings (gets (trace s)))
    /\ task_dones (trace s ++ evs)
       <= List.length (recordings (gets (trace s)))
    /\ List.length (recordings (gets (trace s ++ evs)))
       <= S (task_dones (trace s))
    /\ List.length (recordings (gets (trace s ++ evs)))
       <= List.length (recordings (puts (trace s)))
    /\ List.length (recordings (puts (trace s ++ evs)))
       <= thread_starts (trace s).
Proof.
  unfold accounts. intros (H1 & H2 & H3 & H4) (Hq & _).
  assert (Hp : List.length (recordings (puts (trace s)))
               = List.length (recordings (gets (trace s)))
                 + List.length (recordings (translation_queue s)))
    by (rewrite Hq, recordings_app, length_app; reflexivity).
  clear Hq.
  assert (Hh : (if holding (worker s) then 1 else 0) <= 1)
    by (destruct (holding (worker s)); lia).
  destruct a as [k|k|data| |]; cbn [act].
  - crush_state s. unfold_books.
    destruct (is_hotkey cfg lower k);
      [|extend_trace; count; cbn [holding] in *; repeat split; lia].
    red_books. destruct rec; red_books;
      [extend_trace; count; cbn [holding] in *; repeat split; lia|].
    destruct tr; red_books;
      [extend_trace; count; cbn [holding] in *; repeat split; lia|].
    destruct (hd false ops); red_books;
      [destruct (hd false infs); red_books;
       [destruct (hd false ths); red_books|]|];
      extend_trace; count; cbn [holding] in *; repeat split; lia.
  - crush_state s. unfold_books.
    destruct (is_hotkey cfg lower k);
      [|extend_trace; count; cbn [holding] in *; repeat split; lia].
    red_books. destruct rec; red_books;
      [|extend_trace; count; cbn [holding] in *; repeat split; lia].
    destruct st; red_books;
      [destruct (hd false strs); red_books;
       [destruct (hd false (tl strs)); red_books|]|];
      try (destruct ad as [[|f fs]|]; red_books);
      extend_trace; count; cbn [holding] in *; repeat split; lia.
  - crush_state s. unfold_books.
    destruct rec;
      [|extend_trace; count; cbn [holding] in *; repeat split; lia].
    destruct data as [d|], ad as [l|]; red_books;
      extend_trace; count; cbn [holding] in *; repeat split; lia.
  - destruct (worker s) as [|job|] eqn:Hw.
    + rewrite (worker_step_waiting cfg s Hw).
      crush_state s. subst wk. unfold_books.
      destruct q as [|[job|] q]; red_books;
        extend_trace; count; cbn [holding recordings flat_map app] in *;
        rewrite ?length_app in *; cbn [List.length] in *;
        repeat split; lia.
    + rewrite (worker_step_holding cfg s job Hw).
      destruct (worker_process_cases cfg job s)
        as (n & b & c & evs & Hrun & Hev & _ & _ & Hs & _).
      rewrite Hrun. unfold job_done.
      destruct (worker_events_neutral evs Hev) as (E1 & E2 & E3 & E4).
      assert (Hs1 : List.length (sends evs) <= 1)
        by (rewrite Hs; destruct (result (transcribe_audio cfg job) s); lia).
      crush_state s. subst wk. red_books.
      exists (evs ++ [QueueTaskDone]). split; [reflexivity|].
      rewrite !gets_app, !puts_app, !sends_app, !task_dones_app,
        !recordings_app, !length_app, E1, E2, E3.
      cbn [holding] in *. cbn.
      rewrite ?app_nil_r, ?Nat.add_0_r. repeat split; lia.
    + rewrite (worker_step_exited cfg s Hw).
      exists []. rewrite app_nil_r. repeat split; lia.
  - crush_state s. unfold_books.
    extend_trace; count; cbn [holding] in *. repeat split; lia.
Qed.

Lemma books_prefix (t p u : list event) :
  List.length (sends (t ++ p ++ u))
  <= List.length (recordings (gets t)) ->
  task_dones (t ++ p ++ u) <= List.length (recordings (gets t)) ->
  List.length (recordings (gets (t ++ p ++ u))) <= S (task_dones t) ->
  List.length (recordings (gets (t ++ p ++ u)))
  <= List.length (recordings (puts t)) ->
  List.length (recordings (puts (t ++ p ++ u))) <= thread_starts t ->
  books (t ++ p).
Proof.
  unfold books.
  rewrite !sends_app, !gets_app, !puts_app, !task_dones_app,
    !thread_starts_app, !recordings_app, !length_app.
  intros. repeat split; lia.
Qed.

Lemma schedule_books (cfg : Config) (lower : str -> str)
  (acts : list action) :
  forall s,
    accounts s -> queue_invariant s ->
    (forall t u, trace s = t ++ u -> books t) ->
    forall t u, trace (schedule cfg lower acts s) = t ++ u -> books t.
Proof.
  induction acts as [|a acts IH]; intros s Ha Hq Hs; [exact Hs|].
  cbn [schedule fold_left].
  apply IH;
    [apply act_accounts; exact Ha|apply act_invariant; exact Hq|].
  intros t u Ht.
  destruct (act_books cfg lower a s Ha Hq)
    as (evs & Hev & B1 & B2 & B3 & B4 & B5).
  rewrite Hev in Ht. symmetry in Ht.
  apply app_eq_app in Ht. destruct Ht as [l [[Ht Hu]|[Ht Hu]]].
  - subst t evs. apply (books_prefix (trace s) l u); assumption.
  - apply (Hs t l). exact Ht.
Qed.

(** X9.  At every moment of every run of the threads, that is for
    every initial part of the record of calls, no more messages have
    been handed to the OSC client and no more jobs finished than
    recordings were taken from the queue; at most one recording has been
    taken and not yet acknowledged by [task_done]; no more recordings
    were taken than put; and no more were put than recording threads
    were started.  Nothing is sent that does not come from a recording
    of its own. *)
Theorem messages_bounded_by_recordings (cfg : Config) (lower : str -> str)
  (acts : list action) (w : World) (n : nat) :
  let t := firstn n (trace (schedule cfg lower acts (initial w))) in
  List.length (sends t) <= List.length (recordings (gets t))
  /\ task_dones t <= List.length (recordings (gets t))
  /\ List.length (recordings (gets t)) <= S (task_dones t)
  /\ List.length (recordings (gets t)) <= List.length (recordings (puts t))
  /\ List.length (recordings (puts t)) <= thread_starts t.
Proof.
  intros t. change (books t). subst t.
  apply (schedule_books cfg lower acts (initial w)
           (initial_accounts w) (initial_invariant w))
    with (u := skipn n (trace (schedule cfg lower acts (initial w)))).
  - intros t u Ht. cbn in Ht. symmetry in Ht.
    apply app_eq_nil in Ht. destruct Ht as [-> _].
    unfold books. cbn. repeat split; lia.
  - symmetry. apply firstn_skipn.
Qed.

Ltac still_none Ht Hp :=
  red_books;
  rewrite ?puts_app, ?thread_starts_app, ?recordings_app, ?Ht, ?Hp;
  cbn; split; reflexivity.

Lemma act_flags_sound (cfg : Config) (lower : str -> str) (a : action)
  (s : State) :
  flags_sound s -> flags_sound (exec (act cfg lower a) s).
Proof.
  intros [Hbusy Hbuf]. destruct a as [k|k|data| |]; cbn [act].
  - crush_state s. unfold_books.
    destruct (is_hotkey cfg lower k); [|split; assumption].
    red_books. destruct rec; red_books; [split; assumption|].
    destruct tr; red_books; [split; assumption|].
    destruct (hd false ops); red_books;
      [destruct (hd false infs); red_books;
       [destruct (hd false ths); red_books|]|];
      (split; [assumption|discriminate]).
  - crush_state s. unfold_books.
    destruct (is_hotkey cfg lower k); [|split; assumption].
    red_books. destruct rec; red_books; [|split; assumption].
    destruct st; red_books;
      [destruct (hd false strs); red_books;
       [destruct (hd false (tl strs)); red_books|]|];
      try (destruct ad as [[|f fs]|]; red_books);
      (split; [assumption|]); try discriminate;
      intros _; destruct (Hbuf eq_refl) as [Ht Hp]; still_none Ht Hp.
  - crush_state s. unfold_books.
    destruct rec; [|split; assumption].
    destruct data as [d|], ad as [l|]; red_books;
      (split; [assumption|]); try discriminate;
      intros _; destruct (Hbuf eq_refl) as [Ht Hp]; still_none Ht Hp.
  - destruct (worker s) as [|job|] eqn:Hw.
    + rewrite (worker_step_waiting cfg s Hw).
      crush_state s. subst wk. unfold_books.
      destruct q as [|[job|] q]; red_books;
        (split; [try assumption; reflexivity|]);
        try assumption;
        intros Hn; destruct (Hbuf Hn) as [Ht Hp]; still_none Ht Hp.
    + rewrite (worker_step_holding cfg s job Hw).
      destruct (worker_process_any cfg job s)
        as (n & b & c & evs & Hrun & Hev).
      rewrite Hrun. unfold job_done.
      destruct (worker_events_neutral evs Hev) as (E1 & E2 & E3 & E4).
      crush_state s. subst wk. red_books.
      split; [reflexivity|].
      intros Hn. destruct (Hbuf Hn) as [Ht Hp]. red_books.
      rewrite !puts_app, !thread_starts_app, !recordings_app, E2, E4, Ht, Hp.
      split; reflexivity.
    + rewrite (worker_step_exited cfg s Hw). unfold flags_sound.
      rewrite Hw. split; assumption.
  - crush_state s. unfold_books.
    split; [assumption|].
    intros Hn. destruct (Hbuf Hn) as [Ht Hp]. still_none Ht Hp.
Qed.

Lemma schedule_flags_sound (cfg : Config) (lower : str -> str)
  (acts : list action) :
  forall s, flags_sound s -> flags_sound (schedule cfg lower acts s).
Proof.
  induction acts as [|a acts IH]; intros s Hs; [exact Hs|].
  cbn [schedule fold_left]. apply IH. apply act_flags_sound. exact Hs.
Qed.

(** X4.  In every run of the threads, when [is_translating] is [True]
    a job is open: one recording more has been taken from the queue
    than [task_done] was called.  And as long as [audio_data] is still
    [None] no recording thread has been started and no recording put on
    the queue, so a recording thread never finds [None] to append
    to. *)
Theorem busy_flag_means_open_job (cfg : Config) (lower : str -> str)
  (acts : list action) (w : World) :
  (is_translating (schedule cfg lower acts (initial w)) = true ->
   List.length
     (recordings (gets (trace (schedule cfg lower acts (initial w)))))
   = S (task_dones (trace (schedule cfg lower acts (initial w)))))
  /\ (audio_data (schedule cfg lower acts (initial w)) = None ->
      thread_starts (trace (schedule cfg lower acts (initial w))) = 0
      /\ recordings (puts (trace (schedule cfg lower acts (initial w))))
         = []).
Proof.
  assert (Hinit : flags_sound (initial w))
    by (split; [reflexivity|intros _; split; reflexivity]).
  destruct (schedule_flags_sound cfg lower acts _ Hinit) as [Hbusy Hbuf].
  destruct (schedule_accounts cfg lower acts _ (initial_accounts w))
    as (_ & H2 & _).
  split; [|exact Hbuf].
  intros Hup. rewrite H2, <- Hbusy, Hup. lia.
Qed.

(** X10.  [task_done] is called once for every recording taken from the
    queue and never for the sentinel: the items taken outnumber the
    [task_done] calls by one while the worker holds a recording and,
    for good, once it has left its loop. *)
Theorem task_done_once_per_recording (cfg : Config) (lower : str -> str)
  (acts : list action) (w : World) :
  List.length (gets (trace (schedule cfg lower acts (initial w))))
  = task_dones (trace (schedule cfg lower acts (initial w)))
    + match worker (schedule cfg lower acts (initial w)) with
      | Waiting => 0
      | _ => 1
      end
  /\ List.length
       (recordings (gets (trace (schedule cfg lower acts (initial w)))))
     = task_dones (trace (schedule cfg lower acts (initial w)))
       + (if holding (worker (schedule cfg lower acts (initial w)))
          then 1 else 0).
Proof.
  destruct (schedule_accounts cfg lower acts _ (initial_accounts w))
    as (H1 & H2 & _).
  split; assumption.
Qed.

Lemma act_after_exit (cfg : Config) (lower : str -> str) (a : action)
  (s : State) :
  worker s = Exited ->
  worker (exec (act cfg lower a) s) = Exited
  /\ gets (trace (exec (act cfg lower a) s)) = gets (trace s)
  /\ transcriptions (trace (exec (act cfg lower a) s))
     = transcriptions (trace s)
  /\ chats (trace (exec (act cfg lower a) s)) = chats (trace s)
  /\ sends (trace (exec (act cfg lower a) s)) = sends (trace s)
  /\ exists l, translation_queue (exec (act cfg lower a) s)
               = translation_queue s ++ l.
Proof.
  intros Hw. destruct a as [k|k|data| |]; cbn [act].
  - crush_state s. subst wk. unfold_methods.
    destruct (is_hotkey cfg lower k);
      [|repeat split; exists []; rewrite app_nil_r; reflexivity].
    red_state. destruct rec; red_state;
      [repeat split; exists []; rewrite app_nil_r; reflexivity|].
    destruct tr; red_state;
      [repeat split; exists []; rewrite app_nil_r; reflexivity|].
    destruct (hd false ops); red_state;
      [destruct (hd false infs); red_state;
       [destruct (hd false ths); red_state|]|];
      rewrite gets_app, transcriptions_app, chats_app, sends_app; cbn;
      rewrite !app_nil_r; repeat split; exists [];
      rewrite app_nil_r; reflexivity.
  - crush_state s. subst wk. unfold_methods.
    destruct (is_hotkey cfg lower k);
      [|repeat split; exists []; rewrite app_nil_r; reflexivity].
    red_state. destruct rec; red_state;
      [|repeat split; exists []; rewrite app_nil_r; reflexivity].
    destruct st; red_state;
      [destruct (hd false strs); red_state;
       [destruct (hd false (tl strs)); red_state|]|];
      try (destruct ad as [[|f fs]|]; red_state);
      rewrite gets_app, transcriptions_app, chats_app, sends_app; cbn;
      rewrite !app_nil_r; repeat split;
      first [ exists []; rewrite app_nil_r; reflexivity
            | eexists; reflexivity ].
  - crush_state s. subst wk. unfold_methods.
    destruct rec; [|repeat split; exists []; rewrite app_nil_r; reflexivity].
    destruct data as [d|], ad as [l|]; red_state;
      rewrite ?gets_app, ?transcriptions_app, ?chats_app, ?sends_app; cbn;
      rewrite ?app_nil_r; repeat split; exists [];
      rewrite app_nil_r; reflexivity.
  - rewrite (worker_step_exited cfg s Hw).
    repeat split; try assumption. exists []. rewrite app_nil_r. reflexivity.
  - crush_state s. subst wk. unfold_methods.
    rewrite gets_app, transcriptions_app, chats_app, sends_app; cbn.
    rewrite !app_nil_r. repeat split. eexists; reflexivity.
Qed.

(** X11.  Once the worker has left its loop nothing is processed any
    more: whatever happens afterwards, no item is taken from the queue
    and no model, chat or OSC call is made, while releases of the
    trigger key still add recordings to the queue. *)
Theorem nothing_processed_after_exit (cfg : Config) (lower : str -> str)
  (acts : list action) (s : State) :
  worker s = Exited ->
  worker (schedule cfg lower acts s) = Exited
  /\ gets (trace (schedule cfg lower acts s)) = gets (trace s)
  /\ transcriptions (trace (schedule cfg lower acts s))
     = transcriptions (trace s)
  /\ chats (trace (schedule cfg lower acts s)) = chats (trace s)
  /\ sends (trace (schedule cfg lower acts s)) = sends (trace s)
  /\ exists l, translation_queue (schedule cfg lower acts s)
               = translation_queue s ++ l.
Proof.
  revert s. induction acts as [|a acts IH]; intros s Hw.
  - repeat split; try assumption. exists []. rewrite app_nil_r. reflexivity.
  - cbn [schedule fold_left].
    destruct (act_after_exit cfg lower a s Hw)
      as (Hw' & Hg & Ht & Hc & Hs & l & Hq).
    destruct (IH _ Hw') as (Hw'' & Hg' & Ht' & Hc' & Hs' & l' & Hq').
    unfold schedule in *.
    rewrite Hg', Ht', Hc', Hs', Hq', Hq, <- app_assoc.
    repeat split; try assumption. exists (l ++ l'). reflexivity.
Qed.

(* ================================================================== *)
(** ** The translations dictionary and the formatted text *)

Lemma Forall_setitem (P : str * str -> Prop) (d : PyDict.dict) (k v : str) :
  (forall k', k' = k -> P (k', v)) ->
  Forall P d -> Forall P (PyDict.setitem d k v).
Proof.
  intros Hkv. induction d as [|[k0 v0] r IH]; intros Hd; simpl.
  - constructor; [apply Hkv; reflexivity|constructor].
  - inversion Hd; subst. destruct (PyStr.eqb k0 k) eqn:E.
    + apply eqb_eq in E. constructor; [apply Hkv; exact E|assumption].
    + constructor; [assumption|apply IH; assumption].
Qed.

Lemma Forall_collect (P : str * str -> Prop)
  (calls : list (str * chat_outcome)) :
  (forall c, In c calls -> truthy (translation_of (snd c)) = true ->
             P (fst c, translation_of (snd c))) ->
  forall d, Forall P d -> Forall P (collect d calls).
Proof.
  induction calls as [|c r IH]; intros Hc d Hd; simpl; [exact Hd|].
  apply IH; [intros c' Hin; apply Hc; right; exact Hin|].
  destruct (truthy (translation_of (snd c))) eqn:E; [|exact Hd].
  apply Forall_setitem; [|exact Hd].
  intros k' ->. apply Hc; [left; reflexivity|exact E].
Qed.

Lemma strip_translation_of (o : chat_outcome) :
  strip (translation_of o) = translation_of o.
Proof. destruct o; simpl; [reflexivity|apply strip_strip]. Qed.

(** X12.  Every entry of the [translations] dictionary built by the
    worker has a configured target language as key, at most one entry
    per language, and a value that is non-empty and free of
    surrounding white space. *)
Theorem translations_entries_clean (cfg : Config) (text : str) (s : State) :
  truthy text = true ->
  NoDup (PyDict.keys
           (result (translate_targets cfg text (target_languages cfg) []) s))
  /\ (forall lang v,
        In (lang, v)
          (result (translate_targets cfg text (target_languages cfg) []) s) ->
        In lang (target_languages cfg)
        /\ truthy v = true /\ strip v = v)
  /\ List.length
       (result (translate_targets cfg text (target_languages cfg) []) s)
     <= List.length (target_languages cfg).
Proof.
  intros Ht. rewrite (result_translate_targets cfg text s Ht).
  set (calls := combine (target_languages cfg)
                  (answers (List.length (target_languages cfg))
                     (chat_results (world s)))).
  split; [apply NoDup_keys_collect; constructor|]. split.
  - assert (H : Forall (fun e => In (fst e) (target_languages cfg)
                                 /\ truthy (snd e) = true
                                 /\ strip (snd e) = snd e)
                  (collect [] calls)).
    { apply Forall_collect; [|constructor].
      intros c Hin Htr. cbn [fst snd]. split; [|split].
      - apply (in_map fst) in Hin. unfold calls in Hin.
        rewrite map_fst_combine_answers in Hin. exact Hin.
      - exact Htr.
      - apply strip_translation_of. }
    intros lang v Hin. rewrite Forall_forall in H. exact (H _ Hin).
  - assert (Hk : NoDup (PyDict.keys (collect [] calls)))
      by (apply NoDup_keys_collect; constructor).
    assert (Hincl : incl (PyDict.keys (collect [] calls))
                      (map fst calls)).
    { assert (H : Forall (fun e => In (fst e) (map fst calls))
                    (collect [] calls)).
      { apply Forall_collect; [|constructor].
        intros c Hin _. cbn [fst]. apply in_map. exact Hin. }
      intros k Hkin. unfold PyDict.keys in Hkin.
      apply in_map_iff in Hkin. destruct Hkin as (e & <- & He).
      rewrite Forall_forall in H. exact (H _ He). }
    pose proof (NoDup_incl_length Hk Hincl) as Hlen.
    unfold PyDict.keys in Hlen. rewrite !length_map in Hlen.
    subst calls. rewrite length_combine, answers_length in Hlen.
    lia.
Qed.

Lemma join_lines_nil (ls : list str) :
  Forall (fun l => truthy l = true) ls ->
  (join_lines ls = [] <-> ls = []).
Proof.
  intros H. split; [|intros ->; reflexivity].
  destruct ls as [|l ls]; [reflexivity|].
  inversion H as [|? ? Hl _]; subst.
  destruct l as [|c l]; [discriminate|].
  destruct ls; simpl; discriminate.
Qed.

(** X13.  [format_output] returns the empty text exactly when the
    original text is empty and the mapping has no non-empty value;
    that is the one case in which [send_to_vrchat], given its output,
    sends nothing. *)
Theorem format_output_empty (translations : PyDict.dict) (text : str)
  (s : State) :
  (result (format_output translations text) s = []
   <-> text = [] /\ Forall (fun v => v = []) (PyDict.values translations))
  /\ (sends
        (trace
           (exec (output <- format_output translations text ;;
                  send_to_vrchat output) s))
      = sends (trace s)
      <-> text = [] /\ Forall (fun v => v = []) (PyDict.values translations)).
Proof.
  assert (Hlines :
            output_lines translations text = []
            <-> text = []
                /\ Forall (fun v => v = []) (PyDict.values translations)).
  { unfold output_lines. split.
    - intros H. apply app_eq_nil in H. destruct H as [Hf Ht]. split.
      + destruct text; [reflexivity|discriminate].
      + induction (PyDict.values translations) as [|v vs IH];
          [constructor|].
        simpl in Hf. destruct v; [|discriminate].
        constructor; [reflexivity|apply IH; exact Hf].
    - intros [-> Hall]. simpl. rewrite app_nil_r.
      induction Hall as [|v vs Hv _ IH]; [reflexivity|].
      subst v. simpl. exact IH. }
  assert (Htruthy : Forall (fun l => truthy l = true)
                      (output_lines translations text)).
  { unfold output_lines. apply Forall_app. split.
    - apply Forall_forall. intros x Hx. apply filter_In in Hx. tauto.
    - destruct (truthy text) eqn:E; constructor; [exact E|constructor]. }
  assert (Hres : result (format_output translations text) s = []
                 <-> text = []
                     /\ Forall (fun v => v = [])
                          (PyDict.values translations)).
  { unfold result. rewrite format_output_run. cbn [fst].
    rewrite (join_lines_nil _ Htruthy). exact Hlines. }
  split; [exact Hres|].
  unfold exec. rewrite (bind_run _ (format_output_run translations text s)).
  rewrite send_to_vrchat_run. cbn [snd].
  unfold result in Hres. rewrite format_output_run in Hres. cbn [fst] in Hres.
  destruct (truthy (join_lines (output_lines translations text))) eqn:E.
  - rewrite advanced_advanced. cbn [advanced trace].
    rewrite sends_app. split.
    + intros H. exfalso.
      apply (f_equal (@List.length _)) in H.
      rewrite length_app in H.
      destruct (hd false (send_results (world s))); cbn in H; lia.
    + intros H. apply Hres in H. rewrite H in E. discriminate.
  - rewrite advanced_advanced. cbn [advanced trace].
    rewrite sends_app. cbn. rewrite app_nil_r.
    apply truthy_false in E. split; [intros _; apply Hres; exact E|].
    reflexivity.
Qed.

(* ================================================================== *)
(** ** Choosing the input device *)

Lemma list_devices_indexes (audio : PyAudio) (indexes : list Z) :
  forall devices,
    map dev_index (fst (list_devices audio indexes devices))
    = map dev_index devices
      ++ filter (has_input audio) (take_while (readable audio) indexes).
Proof.
  induction indexes as [|i rest IH]; intros devices;
    cbn [list_devices take_while].
  - cbn. rewrite app_nil_r. reflexivity.
  - destruct (get_device_info_by_index audio i) as [d|] eqn:Hd.
    + assert (Hr : readable audio i = true)
        by (unfold readable; rewrite Hd; reflexivity).
      assert (Hi : has_input audio i = (0 <? channels d)%Z)
        by (unfold has_input; rewrite Hd; reflexivity).
      rewrite Hr, IH. cbn [filter]. rewrite Hi.
      destruct (0 <? channels d)%Z.
      * rewrite map_app, <- app_assoc. reflexivity.
      * reflexivity.
    + assert (Hr : readable audio i = false)
        by (unfold readable; rewrite Hd; reflexivity).
      rewrite Hr. cbn. rewrite app_nil_r. reflexivity.
Qed.

Lemma list_devices_entries (audio : PyAudio) (indexes : list Z)
  (P : input_device -> Prop) :
  (forall i d, In i indexes -> get_device_info_by_index audio i = Some d ->
               (0 < channels d)%Z ->
               P {| dev_index := i;
                    dev_name := match info_name d with
                                | Some n => n
                                | None => lit "Unknown"
                                end;
                    dev_maxInputChannels := channels d;
                    dev_defaultSampleRate :=
                      match info_defaultSampleRate d with
                      | Some r => r
                      | None => 0%Z
                      end |}) ->
  forall devices,
    Forall P devices -> Forall P (fst (list_devices audio indexes devices)).
Proof.
  induction indexes as [|i rest IH]; intros HP devices Hd; simpl;
    [exact Hd|].
  destruct (get_device_info_by_index audio i) as [d|] eqn:Hi; [|exact Hd].
  apply IH; [intros j dj Hj; apply HP; right; exact Hj|].
  destruct (0 <? channels d)%Z eqn:Hc; [|exact Hd].
  apply Forall_app. split; [exact Hd|]. constructor; [|constructor].
  apply HP; [left; reflexivity|exact Hi|apply Z.ltb_lt; exact Hc].
Qed.

Lemma range_sorted (n : Z) : StronglySorted Z.lt (range n).
Proof.
  unfold range. generalize (Z.to_nat n) as m. intros m.
  generalize 0 as a. induction m as [|m IH]; intros a; simpl;
    constructor; [apply IH|].
  apply Forall_forall. intros x Hx. apply in_map_iff in Hx.
  destruct Hx as (y & <- & Hy). apply in_seq in Hy. lia.
Qed.

Lemma range_In (n i : Z) : In i (range n) <-> (0 <= i < n)%Z.
Proof.
  unfold range. rewrite in_map_iff. split.
  - intros (y & <- & Hy). apply in_seq in Hy. lia.
  - intros H. exists (Z.to_nat i). split; [lia|]. apply in_seq. lia.
Qed.

Lemma take_while_incl (A : Type) (f : A -> bool) (l : list A) (x : A) :
  In x (take_while f l) -> In x l.
Proof.
  induction l as [|y l IH]; simpl; [tauto|].
  destruct (f y); simpl; [|tauto]. intros [H|H]; auto.
Qed.

Lemma take_while_sorted (f : Z -> bool) (l : list Z) :
  StronglySorted Z.lt l -> StronglySorted Z.lt (take_while f l).
Proof.
  induction 1 as [|x l Hl IH Hx]; simpl; [constructor|].
  destruct (f x); constructor; [exact IH|].
  rewrite Forall_forall in *. intros y Hy. apply Hx.
  eapply take_while_incl; exact Hy.
Qed.

Lemma filter_sorted (f : Z -> bool) (l : list Z) :
  StronglySorted Z.lt l -> StronglySorted Z.lt (filter f l).
Proof.
  induction 1 as [|x l Hl IH Hx]; simpl; [constructor|].
  destruct (f x); [constructor|]; [exact IH| |exact IH].
  rewrite Forall_forall in *. intros y Hy. apply Hx.
  apply filter_In in Hy. tauto.
Qed.

Lemma take_while_all (A : Type) (f : A -> bool) (l : list A) :
  Forall (fun x => f x = true) l -> take_while f l = l.
Proof.
  induction 1 as [|x l Hx _ IH]; simpl; [reflexivity|].
  rewrite Hx, IH. reflexivity.
Qed.

Lemma get_audio_devices_indexes (audio : PyAudio) :
  map dev_index (fst (get_audio_devices audio))
  = match get_device_count audio with
    | Some n =>
        filter (has_input audio) (take_while (readable audio) (range n))
    | None => []
    end.
Proof.
  unfold get_audio_devices. destruct (get_device_count audio) as [n|];
    [|reflexivity].
  pose proof (list_devices_indexes audio (range n) []) as H.
  destruct (list_devices audio (range n) []) as [devices raised].
  exact H.
Qed.

Lemma get_audio_devices_sorted (audio : PyAudio) :
  StronglySorted Z.lt (map dev_index (fst (get_audio_devices audio))).
Proof.
  rewrite get_audio_devices_indexes.
  destruct (get_device_count audio) as [n|]; [|constructor].
  apply filter_sorted, take_while_sorted, range_sorted.
Qed.

(** X14.  [get_audio_devices] lists, in increasing index order, the
    devices with input channels among those read before the first
    index at which [get_device_info_by_index] raises; each entry
    carries the channel count PyAudio reports, which is positive.  When
    no call raises, every input device below the device count is
    listed. *)
Theorem get_audio_devices_lists_inputs (audio : PyAudio) :
  map dev_index (fst (get_audio_devices audio))
  = match get_device_count audio with
    | Some n =>
        filter (has_input audio) (take_while (readable audio) (range n))
    | None => []
    end
  /\ StronglySorted Z.lt (map dev_index (fst (get_audio_devices audio)))
  /\ Forall (fun d =>
               exists info,
                 get_device_info_by_index audio (dev_index d) = Some info
                 /\ dev_maxInputChannels d = channels info
                 /\ (0 < dev_maxInputChannels d)%Z)
       (fst (get_audio_devices audio))
  /\ (forall n,
        get_device_count audio = Some n ->
        (forall i, (0 <= i < n)%Z -> readable audio i = true) ->
        forall i, (0 <= i < n)%Z -> has_input audio i = true ->
                  In i (map dev_index (fst (get_audio_devices audio)))).
Proof.
  split; [apply get_audio_devices_indexes|]. split; [|split].
  - apply get_audio_devices_sorted.
  - unfold get_audio_devices. destruct (get_device_count audio) as [n|];
      [|constructor].
    pose proof (list_devices_entries audio (range n)
                  (fun d =>
                     exists info,
                       get_device_info_by_index audio (dev_index d)
                       = Some info
                       /\ dev_maxInputChannels d = channels info
                       /\ (0 < dev_maxInputChannels d)%Z)) as H.
    assert (HP : Forall
                   (fun d =>
                      exists info,
                        get_device_info_by_index audio (dev_index d)
                        = Some info
                        /\ dev_maxInputChannels d = channels info
                        /\ (0 < dev_maxInputChannels d)%Z)
                   (fst (list_devices audio (range n) []))).
    { apply H; [|constructor]. intros i d _ Hi Hc. exists d. cbn. auto. }
    destruct (list_devices audio (range n) []) as [devices raised].
    exact HP.
  - intros n Hn Hread i Hi Hin.
    rewrite get_audio_devices_indexes, Hn.
    rewrite take_while_all.
    + apply filter_In. split; [apply range_In; exact Hi|exact Hin].
    + apply Forall_forall. intros j Hj. apply Hread. apply range_In. exact Hj.
Qed.

Lemma select_attempt_cases (env : option str) (int_of : str -> option Z)
  (audio : PyAudio) (idx : option Z) :
  fst (select_attempt env int_of audio) = Some idx ->
  (exists text i count,
      env = Some text /\ truthy text = true /\ int_of text = Some i
      /\ idx = Some i /\ has_input audio i = true
      /\ get_device_count audio = Some count /\ (0 <= i < count)%Z)
  \/ (exists d, get_default_input_device_info audio = Some d
                /\ idx = info_index d).
Proof.
  unfold select_attempt.
  assert (Hdefault :
            fst match get_default_input_device_info audio with
                | Some default_device =>
                    (Some (info_index default_device),
                     [LogUsingDefault (info_name default_device)
                        (info_index default_device)])
                | None => (None, [])
                end = Some idx ->
            exists d, get_default_input_device_info audio = Some d
                      /\ idx = info_index d).
  { destruct (get_default_input_device_info audio) as [d|]; cbn;
      [|discriminate].
    intros [= <-]. exists d. auto. }
  destruct env as [text|]; [|intros H; right; exact (Hdefault H)].
  destruct (truthy text) eqn:Ht; [|intros H; right; exact (Hdefault H)].
  destruct (int_of text) as [i|] eqn:Hi; [|discriminate].
  destruct (0 <=? i)%Z eqn:H0; [|intros H; right; exact (Hdefault H)].
  destruct (get_device_count audio) as [count|] eqn:Hn; [|discriminate].
  destruct (i <? count)%Z eqn:H1; [|intros H; right; exact (Hdefault H)].
  destruct (get_device_info_by_index audio i) as [d|] eqn:Hd;
    [|discriminate].
  destruct (0 <? channels d)%Z eqn:Hc;
    [|intros H; right; exact (Hdefault H)].
  cbn. intros [= <-]. left. exists text, i, count.
  apply Z.leb_le in H0. apply Z.ltb_lt in H1.
  unfold has_input. rewrite Hd, Hc. repeat split; auto.
Qed.

(** X15.  [select_input_device] returns the index named by
    [AUDIO_DEVICE_INDEX] when that index parses, lies below the device
    count and belongs to a device with input channels.  Whatever it
    returns is that index, the index of PyAudio's default input
    device, or, when the lookup raised, the index of the first
    available device; it raises only when the lookup raised and no
    device is available. *)
Theorem select_input_device_choice (env : option str)
  (int_of : str -> option Z) (audio : PyAudio)
  (available : list input_device) :
  (forall text i count d,
      env = Some text -> truthy text = true -> int_of text = Some i ->
      get_device_count audio = Some count -> (0 <= i < count)%Z ->
      get_device_info_by_index audio i = Some d -> (0 < channels d)%Z ->
      fst (select_input_device env int_of audio available) = Some (Some i))
  /\ match fst (select_input_device env int_of audio available) with
     | Some idx =>
         (exists text i count,
             env = Some text /\ truthy text = true /\ int_of text = Some i
             /\ idx = Some i /\ has_input audio i = true
             /\ get_device_count audio = Some count /\ (0 <= i < count)%Z)
         \/ (exists d, get_default_input_device_info audio = Some d
                       /\ idx = info_index d)
         \/ (exists first rest,
                available = first :: rest /\ idx = Some (dev_index first)
                /\ fst (select_attempt env int_of audio) = None)
     | None => available = [] /\ fst (select_attempt env int_of audio) = None
     end.
Proof.
  split.
  - intros text i count d -> Ht Hi Hn [H0 H1] Hd Hc.
    unfold select_input_device, select_attempt. rewrite Ht, Hi, Hn, Hd.
    apply Z.leb_le in H0. apply Z.ltb_lt in H1. apply Z.ltb_lt in Hc.
    rewrite H0, H1, Hc. reflexivity.
  - unfold select_input_device.
    pose proof (select_attempt_cases env int_of audio) as Hcases.
    destruct (select_attempt env int_of audio) as [[idx|] logs]; cbn [fst].
    + destruct (Hcases idx eq_refl) as [H|H]; [left|right; left]; exact H.
    + destruct available as [|first rest]; cbn [fst].
      * split; reflexivity.
      * right. right. exists first, rest. repeat split.
Qed.

(** X16.  [setup_audio] raises only when [pyaudio.PyAudio()] raises, or
    when the device lookup raises and [get_audio_devices] found no input
    device.  When the lookup raises and devices were found, the device
    chosen is the listed one with the smallest index. *)
Theorem setup_audio_fatal_cases (created : option PyAudio) (env : option str)
  (int_of : str -> option Z) :
  (fst (setup_audio created env int_of) = None
   <-> created = None
       \/ exists audio,
            created = Some audio
            /\ fst (get_audio_devices audio) = []
            /\ fst (select_attempt env int_of audio) = None)
  /\ (forall audio devices idx,
        created = Some audio ->
        fst (setup_audio created env int_of) = Some (devices, idx) ->
        devices = fst (get_audio_devices audio)
        /\ (fst (select_attempt env int_of audio) = None ->
            exists i,
              idx = Some i /\ In i (map dev_index devices)
              /\ forall j, In j (map dev_index devices) -> (i <= j)%Z)).
Proof.
  split.
  - destruct created as [audio|]; cbn [setup_audio fst].
    + destruct (get_audio_devices audio) as [devices logs] eqn:Hlist.
      cbn [fst]. unfold select_input_device.
      destruct (select_attempt env int_of audio) as [[idx|] logs'] eqn:Hatt;
        cbn [fst].
      * split; [discriminate|].
        intros [H|(a & [= <-] & _ & Ha)]; [discriminate H|].
        rewrite Hatt in Ha. discriminate Ha.
      * destruct devices as [|first rest]; cbn [fst].
        -- split; [|reflexivity]. intros _. right. exists audio.
           rewrite Hlist, Hatt. repeat split.
        -- split; [discriminate|].
           intros [H|(a & [= <-] & Hd & _)]; [discriminate H|].
           rewrite Hlist in Hd. discriminate Hd.
    + split; [left; reflexivity|reflexivity].
  - intros audio devices idx -> H.
    cbn [setup_audio] in H.
    pose proof (get_audio_devices_sorted audio) as Hsorted.
    destruct (get_audio_devices audio) as [avail logs]. cbn [fst] in *.
    unfold select_input_device in H.
    destruct (select_attempt env int_of audio) as [[i|] logs'] eqn:Ha;
      cbn [fst] in *.
    + injection H as <- <-. split; [reflexivity|discriminate].
    + destruct avail as [|first rest]; cbn [fst] in H; [discriminate|].
      injection H as <- <-. split; [reflexivity|].
      intros _. exists (dev_index first). split; [reflexivity|].
      split; [left; reflexivity|].
      cbn [map] in Hsorted. apply StronglySorted_inv in Hsorted.
      destruct Hsorted as [_ Hall]. rewrite Forall_forall in Hall.
      intros j [<-|Hj]; [lia|]. specialize (Hall j Hj). lia.
Qed.

(* ================================================================== *)
(** ** Reading the target languages *)

Lemma split_on_not_nil (sep : char) (s : str) : split_on sep s <> [].
Proof.
  induction s as [|c r IH]; simpl; [discriminate|].
  destruct (c =? sep)%N; [discriminate|].
  destruct (split_on sep r); [contradiction|discriminate].
Qed.

Lemma split_on_length (sep : char) (s : str) :
  List.length (split_on sep s) = S (occurrences sep s).
Proof.
  unfold occurrences. induction s as [|c r IH]; simpl; [reflexivity|].
  rewrite (N.eqb_sym sep c).
  destruct (c =? sep)%N; simpl; [rewrite IH; reflexivity|].
  destruct (split_on sep r) as [|p ps] eqn:E; [discriminate|exact IH].
Qed.

Lemma join_on_split_on (sep : char) (s : str) :
  join_on sep (split_on sep s) = s.
Proof.
  induction s as [|c r IH]; simpl; [reflexivity|].
  destruct (c =? sep)%N eqn:Hc.
  - apply N.eqb_eq in Hc. subst c.
    pose proof (split_on_not_nil sep r) as Hne.
    destruct (split_on sep r) as [|p ps] eqn:E; [contradiction|].
    change (join_on sep ([] :: p :: ps)) with (sep :: join_on sep (p :: ps)).
    rewrite IH. reflexivity.
  - pose proof (split_on_not_nil sep r) as Hne.
    destruct (split_on sep r) as [|p ps] eqn:E; [contradiction|].
    destruct ps as [|p' ps]; simpl in *; rewrite <- IH; reflexivity.
Qed.

Lemma split_on_clean (sep : char) (s : str) :
  occurrences sep s = 0 -> split_on sep s = [s].
Proof.
  unfold occurrences. induction s as [|c r IH]; simpl; [reflexivity|].
  rewrite (N.eqb_sym sep c).
  destruct (c =? sep)%N; simpl; [discriminate|].
  intros H. rewrite (IH H). reflexivity.
Qed.

Lemma split_on_app (sep : char) (p rest : str) :
  occurrences sep p = 0 ->
  split_on sep (p ++ sep :: rest) = p :: split_on sep rest.
Proof.
  unfold occurrences. induction p as [|c r IH]; simpl.
  - rewrite N.eqb_refl. reflexivity.
  - rewrite (N.eqb_sym sep c).
    destruct (c =? sep)%N; simpl; [discriminate|].
    intros H. rewrite (IH H). reflexivity.
Qed.

Lemma split_on_join_on (sep : char) (pieces : list str) :
  pieces <> [] ->
  Forall (fun p => occurrences sep p = 0) pieces ->
  split_on sep (join_on sep pieces) = pieces.
Proof.
  intros Hne Hall. induction Hall as [|p ps Hp Hps IH]; [contradiction|].
  destruct ps as [|p' ps].
  - simpl. apply split_on_clean. exact Hp.
  - change (join_on sep (p :: p' :: ps))
      with (p ++ sep :: join_on sep (p' :: ps)).
    rewrite split_on_app by exact Hp.
    rewrite IH by discriminate. reflexivity.
Qed.

(** X17.  The list of target languages read from [TARGET_LANGUAGES] is
    never empty: it has one entry more than the setting has commas, so
    an empty setting gives one language, the empty code, and every job
    with a text makes at least one translation request.  Joining the
    entries with commas gives the setting back, and a non-empty list of
    codes without commas, joined with commas as the settings editor
    writes it, is read back unchanged. *)
Theorem target_languages_round_trip (setting : str) (codes : list str)
  (cfg : Config) (text : str) (s : State) :
  List.length (target_languages_from (Some setting))
  = S (occurrences comma setting)
  /\ target_languages_from (Some []) = [[]]
  /\ join_on comma (target_languages_from (Some setting)) = setting
  /\ (codes <> [] ->
      Forall (fun c => occurrences comma c = 0) codes ->
      target_languages_from (Some (join_on comma codes)) = codes)
  /\ (target_languages cfg = target_languages_from (Some setting) ->
      truthy text = true ->
      List.length
        (chats (trace (exec (translate_targets cfg text
                               (target_languages cfg) []) s)))
      = List.length (chats (trace s)) + S (occurrences comma setting)).
Proof.
  unfold target_languages_from.
  split; [apply split_on_length|]. split; [reflexivity|].
  split; [apply join_on_split_on|]. split; [apply split_on_join_on|].
  intros Hcfg Ht. unfold exec.
  rewrite (translate_targets_run cfg text _ Ht [] s).
  cbn [snd advanced trace].
  rewrite chats_app, chats_fanout, length_app, length_map, Hcfg.
  rewrite split_on_length. reflexivity.
Qed.

(* ================================================================== *)
(** ** From the key to the model *)

Lemma transcribe_audio_long (cfg : Config) (a : audio) (s : State)
  (np : list Z) :
  frombuffer (List.concat a) = Some np ->
  (RATE cfg <= 2 * Z.of_nat (List.length np))%Z ->
  exists r n b evs,
    transcribe_audio cfg a s = (r, advanced s n b 0 evs)
    /\ forallb worker_event evs = true
    /\ transcriptions evs = [np]
    /\ (forall t, r = Some t -> truthy t = true).
Proof.
  intros Hbuf Hlong. unfold transcribe_audio. rewrite Hbuf.
  replace (2 * Z.of_nat (List.length np) <? RATE cfg)%Z with false
    by (symmetry; apply Z.ltb_ge; exact Hlong).
  run. destruct (hd SttRaise (transcribe_results (world s))) as [|text].
  - run. eexists None, _, 0, _. split; [reflexivity|].
    split; [reflexivity|]. split; [reflexivity|discriminate].
  - run.
    destruct (truthy (strip match text with Some x => x | None => [] end))
      eqn:Ht.
    + match goal with
      | |- context [bind (semantic_correction ?x) _ ?st] =>
          destruct (semantic_correction_run x st)
            as (evs & Hrun & _ & _ & Htr & Hev)
      end.
      rewrite (bind_run _ Hrun). run.
      rewrite chat_results_advanced in *. cbn [skipn] in *.
      eexists (Some _), _, _, _. split; [reflexivity|].
      unfold transcriptions in *.
      cbn [flat_map app forallb worker_event andb].
      rewrite forallb_app, flat_map_app, Htr, Hev. cbn.
      split; [reflexivity|]. split; [reflexivity|]. intros t' [= <-].
      destruct (correction_skipped _); [exact Ht|].
      apply refined_truthy. exact Ht.
    + eexists None, _, 0, _. split; [reflexivity|].
      split; [reflexivity|]. split; [reflexivity|discriminate].
Qed.

Lemma worker_process_long (cfg : Config) (a : audio) (s : State)
  (np : list Z) :
  frombuffer (List.concat a) = Some np ->
  (RATE cfg <= 2 * Z.of_nat (List.length np))%Z ->
  exists n b c evs,
    exec (worker_process cfg a) s = job_done (advanced s n b c evs)
    /\ forallb worker_event evs = true
    /\ transcriptions evs = [np].
Proof.
  intros Hbuf Hlong.
  destruct (transcribe_audio_long cfg a s np Hbuf Hlong)
    as (r & n & b & evs & Hrun & Hev & Htr & Hr).
  destruct r as [t|].
  - destruct (length_sends_translate cfg t (advanced s n b 0 evs)
                (Hr t eq_refl))
      as (evs' & Hrun' & Hev' & Htr' & _).
    rewrite (worker_process_run cfg a s Hrun Hrun'), advanced_advanced.
    eexists _, _, _, _. split; [reflexivity|].
    rewrite forallb_app, transcriptions_app, Hev, Hev', Htr, Htr'.
    split; reflexivity.
  - assert (Hrun' : translate_and_send cfg None (advanced s n b 0 evs)
                    = (tt, advanced s n b 0 evs)) by reflexivity.
    rewrite (worker_process_run cfg a s Hrun Hrun').
    eexists _, _, _, _. split; [reflexivity|]. split; assumption.
Qed.

(** X18.  From the key to the model: on an idle object with an empty
    queue and a working device, a press of the trigger key, the frames
    read, a release and two moves of the worker hand the speech-to-text
    model exactly the samples of those frames, provided they amount to
    half a second or more; afterwards the queue is empty again and the
    worker is back at [queue.get] with the busy flag lowered. *)
Theorem recording_reaches_model (cfg : Config) (lower : str -> str)
  (k : key) (f : frame) (fs : list frame) (np : list Z) (s : State) :
  is_hotkey cfg lower k = true ->
  is_recording s = false ->
  is_translating s = false ->
  worker s = Waiting ->
  translation_queue s = [] ->
  device_ready s = true ->
  hd false (stream_results (world s)) = true ->
  hd false (tl (stream_results (world s))) = true ->
  frombuffer (List.concat (f :: fs)) = Some np ->
  (RATE cfg <= 2 * Z.of_nat (List.length np))%Z ->
  transcriptions
    (trace
       (schedule cfg lower
          (Press k :: map (fun x => Capture (Some x)) (f :: fs)
                   ++ [Release k; Work; Work]) s))
  = transcriptions (trace s) ++ [np]
  /\ gets
       (trace
          (schedule cfg lower
             (Press k :: map (fun x => Capture (Some x)) (f :: fs)
                      ++ [Release k; Work; Work]) s))
     = gets (trace s) ++ [Some (f :: fs)]
  /\ translation_queue
       (schedule cfg lower
          (Press k :: map (fun x => Capture (Some x)) (f :: fs)
                   ++ [Release k; Work; Work]) s)
     = []
  /\ is_translating
       (schedule cfg lower
          (Press k :: map (fun x => Capture (Some x)) (f :: fs)
                   ++ [Release k; Work; Work]) s)
     = false
  /\ worker
       (schedule cfg lower
          (Press k :: map (fun x => Capture (Some x)) (f :: fs)
                   ++ [Release k; Work; Work]) s)
     = Waiting.
Proof.
  intros Hk Hrec Htr Hw Hq Hdev Hs1 Hs2 Hbuf Hlong.
  unfold device_ready in Hdev.
  apply andb_true_iff in Hdev. destruct Hdev as [Hdev Hth].
  apply andb_true_iff in Hdev. destruct Hdev as [Hop Hinf].
  change (Press k :: map (fun x => Capture (Some x)) (f :: fs)
                  ++ [Release k; Work; Work])
    with ([Press k] ++ map (fun x => Capture (Some x)) (f :: fs)
          ++ [Release k; Work] ++ [Work]).
  rewrite !schedule_app.
  crush_state s. subst rec tr wk q.
  assert (Hpress :
            schedule cfg lower [Press k]
              {| is_recording := false; audio_data := ad; stream := st;
                 hotkey_pressed := hk; is_translating := false;
                 translation_queue := []; worker := Waiting;
                 world := {| open_results := ops; info_results := infs;
                             thread_results := ths; stream_results := strs;
                             transcribe_results := stts; chat_results := chs;
                             send_results := snds |};
                 trace := tc |}
            = {| is_recording := true; audio_data := Some []; stream := true;
                 hotkey_pressed := true; is_translating := false;
                 translation_queue := []; worker := Waiting;
                 world := {| open_results := tl ops; info_results := tl infs;
                             thread_results := tl ths; stream_results := strs;
                             transcribe_results := stts; chat_results := chs;
                             send_results := snds |};
                 trace := tc ++ [Log INFO MsgHotkeyDown; AudioOpen; DeviceInfo;
                                 Log INFO MsgRecordingStarted;
                                 RecordingThreadStart] |}).
  { cbn [schedule fold_left act]. unfold_methods. rewrite Hk. red_state.
    rewrite Hop. red_state. rewrite Hinf. red_state. rewrite Hth. red_state.
    reflexivity. }
  rewrite Hpress, captures_run. cbn [app].
  match goal with
  | |- context [schedule cfg lower [Release k; Work] ?st0] =>
      assert (Hrel :
                schedule cfg lower [Release k; Work] st0
                = {| is_recording := false; audio_data := Some [];
                     stream := true; hotkey_pressed := false;
                     is_translating := true; translation_queue := [];
                     worker := Holding (f :: fs);
                     world := {| open_results := tl ops;
                                 info_results := tl infs;
                                 thread_results := tl ths;
                                 stream_results := tl (tl strs);
                                 transcribe_results := stts;
                                 chat_results := chs;
                                 send_results := snds |};
                     trace := tc ++ [Log INFO MsgHotkeyDown; AudioOpen;
                                     DeviceInfo; Log INFO MsgRecordingStarted;
                                     RecordingThreadStart; Log INFO MsgHotkeyUp;
                                     StreamStop; StreamClose;
                                     Log INFO MsgRecordingStopped;
                                     QueuePut (Some (f :: fs));
                                     QueueGet (Some (f :: fs))] |})
  end.
  { cbn [schedule fold_left act]. unfold worker_step.
    unfold_methods. rewrite Hk. red_state.
    rewrite Hs1. red_state. rewrite Hs2. red_state. reflexivity. }
  rewrite Hrel. cbn [schedule fold_left act].
  match goal with
  | |- context [exec (worker_step cfg) ?st0] =>
      rewrite (worker_step_holding cfg st0 (f :: fs) eq_refl);
      destruct (worker_process_long cfg (f :: fs) st0 np Hbuf Hlong)
        as (n & b & c & evs & Hrun & Hev & Htrs)
  end.
  rewrite Hrun. unfold job_done. red_state.
  destruct (worker_events_neutral evs Hev) as (Hg & _).
  change (Log INFO MsgHotkeyDown :: AudioOpen :: DeviceInfo
          :: Log INFO MsgRecordingStarted :: RecordingThreadStart
          :: Log INFO MsgHotkeyUp :: StreamStop :: StreamClose
          :: Log INFO MsgRecordingStopped :: QueuePut (Some (f :: fs))
          :: QueueGet (Some (f :: fs)) :: evs ++ [QueueTaskDone])
    with ([Log INFO MsgHotkeyDown; AudioOpen; DeviceInfo;
           Log INFO MsgRecordingStarted; RecordingThreadStart;
           Log INFO MsgHotkeyUp; StreamStop; StreamClose;
           Log INFO MsgRecordingStopped; QueuePut (Some (f :: fs));
           QueueGet (Some (f :: fs))] ++ evs ++ [QueueTaskDone]).
  rewrite !transcriptions_app, !gets_app, Htrs, Hg. cbn.
  repeat split.
Qed.

(* ================================================================== *)
(** ** A read that fails *)


(* ================================================================== *)
(** ** The configuration file *)

Lemma stripped_iff (t : str) :
  strip t = t <-> starts_clean t = true /\ starts_clean (rev t) = true.
Proof.
  split.
  - intros H. split.
    + rewrite <- H. apply rstrip_clean, lstrip_clean.
    + rewrite <- H at 1. unfold strip, rstrip. rewrite rev_involutive.
      apply lstrip_clean.
  - intros [H1 H2]. unfold strip, rstrip.
    rewrite (lstrip_id t H1), (lstrip_id _ H2). apply rev_involutive.
Qed.

Lemma starts_clean_app (a b : str) :
  starts_clean (a ++ b)
  = match a with [] => starts_clean b | _ => starts_clean a end.
Proof. destruct a; reflexivity. Qed.

Lemma strip_line (x : str) :
  x <> [] -> starts_clean x = true -> starts_clean (rev x) = true ->
  strip (x ++ [newline]) = x.
Proof.
  intros Hx H1 H2. unfold strip, rstrip.
  rewrite (lstrip_id (x ++ [newline]))
    by (rewrite starts_clean_app; destruct x; congruence).
  rewrite rev_app_distr. simpl. rewrite (lstrip_id _ H2).
  apply rev_involutive.
Qed.

Lemma text_round_trip (linesep t : str) :
  linesep = ConfigManager.LF \/ linesep = ConfigManager.CRLF ->
  ~ In ConfigManager.carriage_return t ->
  ConfigManager.universal_newlines (ConfigManager.write_newlines linesep t)
  = t.
Proof.
  intros Hl. induction t as [|c t IH]; intros Hcr; [reflexivity|].
  assert (Hc : (c =? ConfigManager.carriage_return)%N = false).
  { apply N.eqb_neq. intros ->. apply Hcr. left. reflexivity. }
  assert (Ht : ~ In ConfigManager.carriage_return t).
  { intros H. apply Hcr. right. exact H. }
  specialize (IH Ht).
  unfold ConfigManager.write_newlines in *. cbn [flat_map].
  destruct (c =? newline)%N eqn:E.
  - apply N.eqb_eq in E. subst c.
    destruct Hl as [-> | ->]; cbn; rewrite IH; reflexivity.
  - cbn. rewrite Hc, IH. reflexivity.
Qed.

Lemma file_lines_line (a r : str) :
  ~ In newline a ->
  ConfigManager.file_lines (a ++ newline :: r)
  = (a ++ [newline]) :: ConfigManager.file_lines r.
Proof.
  induction a as [|c a IH]; intros Ha; [reflexivity|].
  cbn [app ConfigManager.file_lines].
  destruct (c =? newline)%N eqn:E.
  - apply N.eqb_eq in E. exfalso. apply Ha. left. exact E.
  - rewrite IH by (intros H; apply Ha; right; exact H). reflexivity.
Qed.

Lemma split_once_first (sep : char) (k v : str) :
  ConfigManager.contains sep k = false ->
  ConfigManager.split_once sep (k ++ sep :: v) = Some (k, v).
Proof.
  induction k as [|c k IH]; cbn; intros Hk.
  - rewrite N.eqb_refl. reflexivity.
  - apply orb_false_iff in Hk. destruct Hk as [H1 H2].
    rewrite N.eqb_sym, H1, (IH H2). reflexivity.
Qed.

Lemma split_once_parts (sep : char) (line a b : str) :
  ConfigManager.split_once sep line = Some (a, b) ->
  line = a ++ sep :: b /\ ConfigManager.contains sep a = false.
Proof.
  revert a. induction line as [|c line IH]; cbn; intros a H; [discriminate|].
  destruct (c =? sep)%N eqn:E.
  - injection H as <- <-. apply N.eqb_eq in E. subst c. split; reflexivity.
  - destruct (ConfigManager.split_once sep line) as [[a' b']|]; [|discriminate].
    injection H as <- <-. destruct (IH a' eq_refl) as [-> Hc].
    split; [reflexivity|]. cbn. rewrite N.eqb_sym, E. exact Hc.
Qed.

Lemma contains_split_once (sep : char) (line : str) :
  ConfigManager.contains sep line = true ->
  exists a b, ConfigManager.split_once sep line = Some (a, b).
Proof.
  induction line as [|c line IH]; cbn; [discriminate|].
  intros H. destruct (c =? sep)%N eqn:E; [eexists; eexists; reflexivity|].
  rewrite N.eqb_sym, E in H. destruct (IH H) as (a & b & ->).
  eexists; eexists; reflexivity.
Qed.

Lemma clean_entry_spec (k v : str) :
  ConfigManager.clean_entry (k, v) = true <->
  strip k = k /\ strip v = v
  /\ ConfigManager.contains ConfigManager.equals k = false
  /\ ConfigManager.startswith ConfigManager.hash k = false
  /\ ~ In newline (k ++ v)
  /\ ~ In ConfigManager.carriage_return (k ++ v).
Proof.
  unfold ConfigManager.clean_entry. cbn [fst snd].
  rewrite !andb_true_iff, !negb_true_iff, !eqb_eq, forallb_forall.
  split.
  - intros ((((H1 & H2) & H3) & H4) & H5).
    repeat (split; [assumption|]).
    split; intros Hin; apply H5 in Hin; cbn in Hin; discriminate Hin.
  - intros (H1 & H2 & H3 & H4 & H5 & H6).
    repeat split; try assumption.
    intros c Hc. apply andb_true_iff.
    split; apply negb_true_iff, N.eqb_neq; intros ->; auto.
Qed.

Lemma load_line_clean (c : PyDict.dict) (k v : str) :
  ConfigManager.clean_entry (k, v) = true ->
  ConfigManager.load_line c (k ++ ConfigManager.equals :: v ++ [newline])
  = Some (PyDict.setitem c k v).
Proof.
  intros H. apply clean_entry_spec in H.
  destruct H as (Hk & Hv & Heq & Hhash & _ & _).
  apply stripped_iff in Hk as Hk'. destruct Hk' as [Hk1 Hk2].
  apply stripped_iff in Hv as Hv'. destruct Hv' as [Hv1 Hv2].
  unfold ConfigManager.load_line.
  change (k ++ ConfigManager.equals :: v ++ [newline])
    with (k ++ (ConfigManager.equals :: v) ++ [newline]).
  rewrite app_assoc, strip_line.
  - assert (Ht : truthy (k ++ ConfigManager.equals :: v) = true)
      by (destruct k; reflexivity).
    assert (Hs : ConfigManager.startswith ConfigManager.hash
                   (k ++ ConfigManager.equals :: v) = false)
      by (destruct k; [reflexivity|exact Hhash]).
    assert (Hc : ConfigManager.contains ConfigManager.equals
                   (k ++ ConfigManager.equals :: v) = true).
    { unfold ConfigManager.contains. rewrite existsb_app. cbn.
      apply orb_true_r. }
    rewrite Ht, Hs, Hc, (split_once_first _ _ _ Heq), Hk, Hv. reflexivity.
  - destruct k; discriminate.
  - rewrite starts_clean_app. destruct k; [reflexivity|exact Hk1].
  - rewrite rev_app_distr. cbn [rev]. rewrite <- app_assoc, starts_clean_app.
    destruct (rev v); [reflexivity|exact Hv2].
Qed.

Lemma save_text_clean (d : PyDict.dict) :
  forallb ConfigManager.clean_entry d = true ->
  ~ In ConfigManager.carriage_return (ConfigManager.save_text d).
Proof.
  induction d as [|[k v] d IH]; cbn [forallb ConfigManager.save_text];
    [intros _ H; exact H|].
  intros H. apply andb_true_iff in H. destruct H as [He Hd].
  apply clean_entry_spec in He. destruct He as (_ & _ & _ & _ & _ & Hcr).
  intros Hin. apply in_app_or in Hin. destruct Hin as [Hin|[Hin|Hin]].
  - apply Hcr, in_or_app. left. exact Hin.
  - discriminate Hin.
  - apply in_app_or in Hin. destruct Hin as [Hin|[Hin|Hin]].
    + apply Hcr, in_or_app. right. exact Hin.
    + discriminate Hin.
    + exact (IH Hd Hin).
Qed.

Lemma load_lines_save_text (d : PyDict.dict) :
  forallb ConfigManager.clean_entry d = true ->
  forall c,
    ConfigManager.load_lines c
      (ConfigManager.file_lines (ConfigManager.save_text d))
    = Some (ConfigManager.update c d).
Proof.
  induction d as [|[k v] d IH]; cbn [forallb ConfigManager.save_text];
    intros H c; [reflexivity|].
  apply andb_true_iff in H. destruct H as [He Hd].
  pose proof He as He'. apply clean_entry_spec in He'.
  destruct He' as (_ & _ & _ & _ & Hnl & _).
  change (k ++ ConfigManager.equals :: v ++ newline :: ConfigManager.save_text d)
    with (k ++ (ConfigManager.equals :: v)
            ++ newline :: ConfigManager.save_text d).
  rewrite app_assoc, file_lines_line.
  - cbn [ConfigManager.load_lines]. rewrite <- app_assoc.
    change ((ConfigManager.equals :: v) ++ [newline])
      with (ConfigManager.equals :: v ++ [newline]).
    rewrite (load_line_clean c k v He). apply IH. exact Hd.
  - intros Hin. apply in_app_or in Hin. destruct Hin as [Hin|[Hin|Hin]].
    + apply Hnl, in_or_app. left. exact Hin.
    + discriminate Hin.
    + apply Hnl, in_or_app. right. exact Hin.
Qed.

Lemma update_fresh (d : PyDict.dict) :
  NoDup (PyDict.keys d) ->
  forall c,
    (forall k, In k (PyDict.keys d) -> ~ In k (PyDict.keys c)) ->
    ConfigManager.update c d = c ++ d.
Proof.
  unfold ConfigManager.update.
  induction d as [|[k v] d IH]; cbn [fold_left PyDict.keys map fst snd];
    intros Hd c Hc; [symmetry; apply app_nil_r|].
  inversion Hd as [|? ? Hk Hd']; subst.
  rewrite setitem_fresh by (apply get_none_keys, Hc; left; reflexivity).
  rewrite (IH Hd').
  - rewrite <- app_assoc. reflexivity.
  - intros k' Hin Hin'. unfold PyDict.keys in Hin'.
    rewrite map_app in Hin'. apply in_app_or in Hin'.
    destruct Hin' as [Hin'|[<-|[]]].
    + exact (Hc k' (or_intror Hin) Hin').
    + exact (Hk Hin).
Qed.

Lemma setitem_same (d : PyDict.dict) (k v : str) :
  NoDup (PyDict.keys d) -> In (k, v) d -> PyDict.setitem d k v = d.
Proof.
  induction d as [|[k0 v0] d IH]; cbn; intros Hd Hin; [contradiction|].
  inversion Hd as [|? ? Hk Hd']; subst.
  destruct Hin as [[= -> ->]|Hin].
  - rewrite eqb_refl. reflexivity.
  - destruct (PyStr.eqb k0 k) eqn:E.
    + apply eqb_eq in E. subst k0. exfalso. apply Hk.
      apply (in_map fst) in Hin. exact Hin.
    + rewrite (IH Hd' Hin). reflexivity.
Qed.

Lemma update_self (d entries : PyDict.dict) :
  NoDup (PyDict.keys d) -> incl entries d ->
  ConfigManager.update d entries = d.
Proof.
  unfold ConfigManager.update. intros Hd.
  induction entries as [|[k v] r IH]; cbn [fold_left fst snd]; intros Hi;
    [reflexivity|].
  rewrite setitem_same; [|exact Hd|apply Hi; left; reflexivity].
  apply IH. intros e He. apply Hi. right. exact He.
Qed.

Lemma contains_false (c : char) (l : str) :
  ConfigManager.contains c l = false <-> ~ In c l.
Proof.
  unfold ConfigManager.contains. induction l as [|x l IH]; cbn.
  - tauto.
  - rewrite orb_false_iff, IH, N.eqb_neq. intuition congruence.
Qed.

Lemma In_lstrip (c : char) (t : str) : In c (lstrip t) -> In c t.
Proof.
  induction t as [|x t IH]; cbn; [tauto|].
  destruct (isspace x); [intros H; right; exact (IH H)|intros H; exact H].
Qed.

Lemma In_strip (c : char) (t : str) : In c (strip t) -> In c t.
Proof.
  unfold strip, rstrip. intros H.
  apply In_lstrip. apply in_rev. apply In_lstrip. apply in_rev in H. exact H.
Qed.

Lemma lstrip_snoc_space (t : str) (c : char) :
  isspace c = true ->
  lstrip (t ++ [c]) = match lstrip t with [] => [] | _ => lstrip t ++ [c] end.
Proof.
  intros Hc. induction t as [|x t IH]; cbn.
  - rewrite Hc. reflexivity.
  - destruct (isspace x) eqn:E; [exact IH|reflexivity].
Qed.

Lemma strip_snoc_space (t : str) (c : char) :
  isspace c = true -> strip (t ++ [c]) = strip t.
Proof.
  intros Hc. unfold strip. rewrite (lstrip_snoc_space t c Hc).
  destruct (lstrip t) as [|x l]; [reflexivity|].
  unfold rstrip. rewrite rev_app_distr. cbn [rev app lstrip].
  rewrite Hc. reflexivity.
Qed.

Lemma rstrip_head (c : char) (t : str) :
  isspace c = false -> exists r, rstrip (c :: t) = c :: r.
Proof.
  intros Hc. unfold rstrip. cbn [rev].
  rewrite (lstrip_snoc _ _ Hc), rev_app_distr. cbn. eexists; reflexivity.
Qed.

Lemma universal_newlines_no_cr (t : str) :
  ~ In ConfigManager.carriage_return (ConfigManager.universal_newlines t).
Proof.
  assert (H : forall n t, (List.length t <= n)%nat ->
              ~ In ConfigManager.carriage_return
                  (ConfigManager.universal_newlines t)).
  { clear t. induction n as [|n IH]; intros t Hn.
    - destruct t; [intros H; exact H|cbn in Hn; lia].
    - destruct t as [|c r]; [intros H; exact H|].
      cbn in Hn. cbn [ConfigManager.universal_newlines].
      destruct (c =? ConfigManager.carriage_return)%N eqn:E.
      + intros [H|H]; [discriminate H|].
        destruct r as [|c' r']; [exact H|].
        cbn in Hn. destruct (c' =? newline)%N.
        * apply (IH r'); [lia|exact H].
        * apply (IH (c' :: r')); [cbn; lia|exact H].
      + intros [H|H].
        * subst c. discriminate E.
        * apply (IH r); [lia|exact H]. }
  exact (H _ t (le_n _)).
Qed.

Lemma file_lines_ok (t : str) :
  ~ In ConfigManager.carriage_return t ->
  Forall ConfigManager.line_ok (ConfigManager.file_lines t).
Proof.
  induction t as [|c t IH]; intros Hcr; [constructor|].
  assert (Hc : c <> ConfigManager.carriage_return)
    by (intros ->; apply Hcr; left; reflexivity).
  assert (Ht : ~ In ConfigManager.carriage_return t)
    by (intros H; apply Hcr; right; exact H).
  specialize (IH Ht). cbn [ConfigManager.file_lines].
  destruct (c =? newline)%N eqn:E.
  - apply N.eqb_eq in E. subst c. constructor; [|exact IH].
    exists []. repeat split; auto.
  - apply N.eqb_neq in E.
    destruct (ConfigManager.file_lines t) as [|line lines].
    + constructor; [|constructor]. exists [c].
      split; [intros [H|[]]; congruence|].
      split; [intros [H|[]]; congruence|]. right. reflexivity.
    + inversion IH as [|? ? (body & Hnl & Hb & Hl) IH']; subst.
      constructor; [|exact IH']. exists (c :: body).
      split; [intros [H|H]; [congruence|exact (Hnl H)]|].
      split; [intros [H|H]; [congruence|exact (Hb H)]|].
      destruct Hl as [->| ->]; [left|right]; reflexivity.
Qed.

Lemma load_line_entry (c : PyDict.dict) (raw : str) :
  ConfigManager.load_line c raw
  = Some (match ConfigManager.line_entry raw with
          | Some e => PyDict.setitem c (fst e) (snd e)
          | None => c
          end).
Proof.
  unfold ConfigManager.load_line, ConfigManager.line_entry.
  destruct (truthy (strip raw)); [|reflexivity].
  destruct (negb (ConfigManager.startswith ConfigManager.hash (strip raw)));
    [|reflexivity].
  destruct (ConfigManager.contains ConfigManager.equals (strip raw)) eqn:E;
    [|reflexivity].
  destruct (contains_split_once _ _ E) as (a & b & ->). reflexivity.
Qed.

Lemma load_lines_entries (lines : list str) :
  forall c,
    ConfigManager.load_lines c lines
    = Some (ConfigManager.update c
              (flat_map (fun raw => match ConfigManager.line_entry raw with
                                    | Some e => [e]
                                    | None => []
                                    end) lines)).
Proof.
  unfold ConfigManager.update.
  induction lines as [|raw lines IH]; intros c; [reflexivity|].
  cbn [ConfigManager.load_lines flat_map]. rewrite load_line_entry, IH.
  rewrite fold_left_app.
  destruct (ConfigManager.line_entry raw); reflexivity.
Qed.

Lemma line_entry_clean (raw : str) (e : str * str) :
  ConfigManager.line_ok raw ->
  ConfigManager.line_entry raw = Some e ->
  ConfigManager.clean_entry e = true.
Proof.
  intros (body & Hnl & Hcr & Hraw) He.
  assert (Hs : strip raw = strip body).
  { destruct Hraw as [-> | ->]; [|reflexivity].
    apply strip_snoc_space. reflexivity. }
  unfold ConfigManager.line_entry in He. rewrite Hs in He.
  assert (Hclean : starts_clean (strip body) = true)
    by apply rstrip_clean, lstrip_clean.
  assert (Hin : forall x, In x (strip body) -> In x body)
    by (intros x; apply In_strip).
  destruct (strip body) as [|x line] eqn:Hline; [discriminate He|].
  cbn [truthy andb ConfigManager.startswith] in He.
  destruct (x =? ConfigManager.hash)%N eqn:Hx; [discriminate He|].
  cbn [negb andb] in He.
  destruct (ConfigManager.contains ConfigManager.equals (x :: line));
    [|discriminate He].
  destruct (ConfigManager.split_once ConfigManager.equals (x :: line))
    as [[a b]|] eqn:Hsplit; [|discriminate He].
  injection He as <-.
  apply split_once_parts in Hsplit. destruct Hsplit as [Hab Ha].
  assert (Hpart : forall y, In y a \/ In y b -> In y body).
  { intros y Hy. apply Hin. rewrite Hab. apply in_or_app.
    destruct Hy as [Hy|Hy]; [left; exact Hy|right; right; exact Hy]. }
  apply clean_entry_spec.
  split; [apply strip_strip|]. split; [apply strip_strip|].
  split.
  { apply contains_false. intros H. apply In_strip in H.
    apply contains_false in Ha. exact (Ha H). }
  split.
  { destruct a as [|y a']; [reflexivity|].
    injection Hab as Hxy _. subst y. cbn in Hclean. apply negb_true_iff in Hclean.
    unfold strip.
    rewrite (lstrip_id (x :: a')) by (cbn; rewrite Hclean; reflexivity).
    destruct (rstrip_head x a' Hclean) as [r ->]. cbn. exact Hx. }
  split; intros H; apply in_app_or in H;
    destruct H as [H|H]; apply In_strip in H;
    [apply Hnl|apply Hnl|apply Hcr|apply Hcr]; apply Hpart; auto.
Qed.

Lemma entries_clean (t : str) :
  Forall (fun e => ConfigManager.clean_entry e = true)
    (ConfigManager.entries t).
Proof.
  unfold ConfigManager.entries.
  pose proof (file_lines_ok _ (universal_newlines_no_cr t)) as H.
  induction H as [|raw lines Hraw _ IH]; [constructor|].
  cbn [flat_map]. apply Forall_app. split; [|exact IH].
  destruct (ConfigManager.line_entry raw) as [e|] eqn:E; [|constructor].
  constructor; [exact (line_entry_clean raw e Hraw E)|constructor].
Qed.

Lemma update_keys (items : PyDict.dict) :
  forall c, exists added,
    PyDict.keys (ConfigManager.update c items) = PyDict.keys c ++ added.
Proof.
  unfold ConfigManager.update.
  induction items as [|[k v] r IH]; intros c; cbn [fold_left fst snd].
  - exists []. symmetry. apply app_nil_r.
  - destruct (IH (PyDict.setitem c k v)) as [added ->].
    rewrite keys_setitem. destruct (PyDict.get c k).
    + exists added. reflexivity.
    + exists (k :: added). rewrite <- app_assoc. reflexivity.
Qed.

Lemma update_NoDup (items : PyDict.dict) :
  forall c, NoDup (PyDict.keys c) ->
            NoDup (PyDict.keys (ConfigManager.update c items)).
Proof.
  unfold ConfigManager.update.
  induction items as [|[k v] r IH]; intros c Hc; cbn [fold_left fst snd];
    [exact Hc|].
  apply IH, NoDup_keys_setitem, Hc.
Qed.

Lemma update_Forall (P : str * str -> Prop) (items : PyDict.dict) :
  Forall P items ->
  forall c, Forall P c -> Forall P (ConfigManager.update c items).
Proof.
  unfold ConfigManager.update.
  induction 1 as [|[k v] r Hkv _ IH]; intros c Hc; cbn [fold_left fst snd];
    [exact Hc|].
  apply IH, Forall_setitem; [intros k' ->; exact Hkv|exact Hc].
Qed.

Lemma get_update_stale (items : PyDict.dict) (k : str) :
  ~ In k (PyDict.keys items) ->
  forall c, PyDict.get (ConfigManager.update c items) k = PyDict.get c k.
Proof.
  unfold ConfigManager.update.
  induction items as [|[k0 v0] r IH]; intros Hk c; cbn [fold_left fst snd];
    [reflexivity|].
  rewrite IH by (intros H; apply Hk; right; exact H).
  rewrite get_setitem.
  destruct (PyStr.eqb k0 k) eqn:E; [|reflexivity].
  apply eqb_eq in E. exfalso. apply Hk. left. exact E.
Qed.

Lemma get_update_last (before after : PyDict.dict) (k v : str) :
  ~ In k (PyDict.keys after) ->
  forall c,
    PyDict.get (ConfigManager.update c (before ++ (k, v) :: after)) k
    = Some v.
Proof.
  intros Hk c. unfold ConfigManager.update.
  rewrite fold_left_app. cbn [fold_left fst snd].
  fold (ConfigManager.update
          (PyDict.setitem (fold_left
             (fun c e => PyDict.setitem c (fst e) (snd e)) before c) k v)
          after).
  rewrite (get_update_stale after k Hk), get_setitem, eqb_refl. reflexivity.
Qed.

Lemma load_saved (linesep : str) (d : PyDict.dict) :
  linesep = ConfigManager.LF \/ linesep = ConfigManager.CRLF ->
  forallb ConfigManager.clean_entry d = true ->
  forall c,
    ConfigManager.load_lines c
      (ConfigManager.file_lines
         (ConfigManager.universal_newlines
            (ConfigManager.write_newlines linesep
               (ConfigManager.save_text d))))
    = Some (ConfigManager.update c d).
Proof.
  intros Hl Hd c.
  rewrite (text_round_trip linesep _ Hl (save_text_clean d Hd)).
  apply load_lines_save_text. exact Hd.
Qed.

Lemma default_config_clean :
  forallb ConfigManager.clean_entry ConfigManager.default_config = true.
Proof. vm_compute. reflexivity. Qed.

Lemma default_config_NoDup :
  NoDup (PyDict.keys ConfigManager.default_config).
Proof.
  assert (H : forall d, NoDup (PyDict.keys (ConfigManager.update [] d)))
    by (intros d; apply update_NoDup; constructor).
  exact (H ConfigManager.default_config).
Qed.

Lemma config_create_default (linesep : str) (m : ConfigManager.Manager) :
  ConfigManager.config (ConfigManager.create_default_config linesep m)
  = ConfigManager.default_config.
Proof.
  unfold ConfigManager.create_default_config, ConfigManager.save_config.
  cbn. destruct (ConfigManager.writable m); reflexivity.
Qed.

Lemma new_config (linesep : str) (f : ConfigManager.env_file) (w : bool) :
  ConfigManager.config (ConfigManager.new linesep f w)
  = match f with
    | ConfigManager.Text t =>
        ConfigManager.update [] (ConfigManager.entries t)
    | _ => ConfigManager.default_config
    end.
Proof.
  unfold ConfigManager.new, ConfigManager.load_config.
  destruct f as [| |t]; cbn [ConfigManager.file ConfigManager.config];
    try apply config_create_default.
  unfold ConfigManager.entries. rewrite load_lines_entries. reflexivity.
Qed.

Lemma new_config_clean (linesep : str) (f : ConfigManager.env_file)
  (w : bool) :
  forallb ConfigManager.clean_entry
    (ConfigManager.config (ConfigManager.new linesep f w)) = true
  /\ NoDup (PyDict.keys
              (ConfigManager.config (ConfigManager.new linesep f w))).
Proof.
  rewrite new_config. destruct f as [| |t];
    try (split; [exact default_config_clean|exact default_config_NoDup]).
  split.
  - apply forallb_forall. apply Forall_forall.
    apply update_Forall; [apply entries_clean|constructor].
  - apply update_NoDup. constructor.
Qed.

Lemma restart_after_save (linesep : str) (m : ConfigManager.Manager)
  (w : bool) :
  linesep = ConfigManager.LF \/ linesep = ConfigManager.CRLF ->
  ConfigManager.writable m = true ->
  forallb ConfigManager.clean_entry (ConfigManager.config m) = true ->
  NoDup (PyDict.keys (ConfigManager.config m)) ->
  ConfigManager.config
    (ConfigManager.new linesep
       (ConfigManager.file (snd (ConfigManager.save_config linesep m))) w)
  = ConfigManager.config m.
Proof.
  intros Hl Hw Hc Hd.
  unfold ConfigManager.save_config. rewrite Hw.
  cbn [snd ConfigManager.with_file ConfigManager.file].
  unfold ConfigManager.new, ConfigManager.load_config.
  cbn [ConfigManager.file ConfigManager.config].
  rewrite (load_saved linesep _ Hl Hc).
  cbn [ConfigManager.with_config ConfigManager.config].
  rewrite (update_fresh _ Hd []); [reflexivity|].
  intros k _ H. exact H.
Qed.

(** X20.  A configuration whose keys and values are free of
    surrounding white space and of line breaks, and whose keys hold no
    ["="] and do not begin with ["#"], survives a save that returned
    [True] and the reading back, entry for entry and in order, with
    Unix and with Windows line ends: both a reload in the same object
    and a [ConfigManager] created afterwards hold exactly the saved
    settings. *)
Theorem config_survives_restart (linesep : str)
  (m : ConfigManager.Manager) (w : bool) :
  linesep = ConfigManager.LF \/ linesep = ConfigManager.CRLF ->
  fst (ConfigManager.save_config linesep m) = true ->
  forallb ConfigManager.clean_entry (ConfigManager.config m) = true ->
  NoDup (PyDict.keys (ConfigManager.config m)) ->
  ConfigManager.file (snd (ConfigManager.save_config linesep m))
  = ConfigManager.Text
      (ConfigManager.write_newlines linesep
         (ConfigManager.save_text (ConfigManager.config m)))
  /\ ConfigManager.output (snd (ConfigManager.save_config linesep m))
     = ConfigManager.output m
  /\ ConfigManager.config
       (ConfigManager.new linesep
          (ConfigManager.file (snd (ConfigManager.save_config linesep m))) w)
     = ConfigManager.config m
  /\ ConfigManager.config
       (ConfigManager.load_config linesep
          (snd (ConfigManager.save_config linesep m)))
     = ConfigManager.config m.
Proof.
  intros Hl Hsaved Hc Hd.
  assert (Hw : ConfigManager.writable m = true).
  { unfold ConfigManager.save_config in Hsaved.
    destruct (ConfigManager.writable m); [reflexivity|discriminate Hsaved]. }
  split; [unfold ConfigManager.save_config; rewrite Hw; reflexivity|].
  split; [unfold ConfigManager.save_config; rewrite Hw; reflexivity|].
  split; [exact (restart_after_save linesep m w Hl Hw Hc Hd)|].
  unfold ConfigManager.save_config. rewrite Hw.
  cbn [snd]. unfold ConfigManager.load_config.
  cbn [ConfigManager.with_file ConfigManager.file ConfigManager.config].
  rewrite (load_saved linesep _ Hl Hc).
  cbn [ConfigManager.with_config ConfigManager.config].
  apply update_self; [exact Hd|apply incl_refl].
Qed.

(** X21.  [load_config] on an existing file never raises and never
    removes a setting: it assigns the entries of the file, line after
    line, to the dictionary the object already holds.  The keys held
    before keep their places, a key that no line of the file defines
    keeps its old value, and of several lines for one key the last
    one counts. *)
Theorem load_config_merges (linesep : str) (m : ConfigManager.Manager)
  (t : str) :
  ConfigManager.file m = ConfigManager.Text t ->
  ConfigManager.config (ConfigManager.load_config linesep m)
  = ConfigManager.update (ConfigManager.config m) (ConfigManager.entries t)
  /\ ConfigManager.file (ConfigManager.load_config linesep m)
     = ConfigManager.file m
  /\ ConfigManager.output (ConfigManager.load_config linesep m)
     = ConfigManager.output m
  /\ (exists added,
        PyDict.keys (ConfigManager.config
                       (ConfigManager.load_config linesep m))
        = PyDict.keys (ConfigManager.config m) ++ added)
  /\ (forall k,
        ~ In k (PyDict.keys (ConfigManager.entries t)) ->
        PyDict.get (ConfigManager.config
                      (ConfigManager.load_config linesep m)) k
        = PyDict.get (ConfigManager.config m) k)
  /\ (forall before after k v,
        ConfigManager.entries t = before ++ (k, v) :: after ->
        ~ In k (PyDict.keys after) ->
        PyDict.get (ConfigManager.config
                      (ConfigManager.load_config linesep m)) k
        = Some v).
Proof.
  intros Hf. destruct m as [c f wr out]. cbn [ConfigManager.file] in Hf.
  subst f. unfold ConfigManager.load_config.
  cbn [ConfigManager.file ConfigManager.config].
  rewrite load_lines_entries.
  fold (ConfigManager.entries t).
  cbn [ConfigManager.with_config ConfigManager.config ConfigManager.file
       ConfigManager.output].
  split; [reflexivity|]. split; [reflexivity|]. split; [reflexivity|].
  split; [apply update_keys|].
  split; [intros k Hk; apply get_update_stale; exact Hk|].
  intros before after k v -> Hk. apply get_update_last. exact Hk.
Qed.

(** X22.  When [.env] is missing or cannot be read, [load_config]
    replaces whatever the object held by the default settings and
    tries to write them out: with a writable file the defaults are on
    disk afterwards and a later [ConfigManager] reads them back; with
    an unwritable one the file is left alone and the failure is
    printed.  The load failure is printed only for a file that exists
    and cannot be read. *)
Theorem missing_file_gives_defaults (linesep : str)
  (m : ConfigManager.Manager) (w : bool) :
  ConfigManager.file m = ConfigManager.Absent
  \/ ConfigManager.file m = ConfigManager.Unreadable ->
  ConfigManager.config (ConfigManager.load_config linesep m)
  = ConfigManager.default_config
  /\ ConfigManager.output (ConfigManager.load_config linesep m)
     = ConfigManager.output m
       ++ match ConfigManager.file m with
          | ConfigManager.Unreadable => [ConfigManager.LoadFailed]
          | _ => []
          end
       ++ (if ConfigManager.writable m then []
           else [ConfigManager.SaveFailed])
  /\ (ConfigManager.writable m = false ->
      ConfigManager.file (ConfigManager.load_config linesep m)
      = ConfigManager.file m)
  /\ (ConfigManager.writable m = true ->
      ConfigManager.file (ConfigManager.load_config linesep m)
      = ConfigManager.Text
          (ConfigManager.write_newlines linesep
             (ConfigManager.save_text ConfigManager.default_config)))
  /\ (ConfigManager.writable m = true ->
      linesep = ConfigManager.LF \/ linesep = ConfigManager.CRLF ->
      ConfigManager.config
        (ConfigManager.new linesep
           (ConfigManager.file (ConfigManager.load_config linesep m)) w)
      = ConfigManager.default_config).
Proof.
  intros Hf. destruct m as [c f wr out]. cbn [ConfigManager.file] in Hf.
  unfold ConfigManager.load_config, ConfigManager.create_default_config,
    ConfigManager.save_config.
  cbn [ConfigManager.file ConfigManager.writable ConfigManager.output
       ConfigManager.config ConfigManager.with_config ConfigManager.print].
  assert (Hre :
            linesep = ConfigManager.LF \/ linesep = ConfigManager.CRLF ->
            ConfigManager.config
              (ConfigManager.new linesep
                 (ConfigManager.Text
                    (ConfigManager.write_newlines linesep
                       (ConfigManager.save_text
                          ConfigManager.default_config))) w)
            = ConfigManager.default_config).
  { intros Hl.
    exact (restart_after_save linesep
             {| ConfigManager.config := ConfigManager.default_config;
                ConfigManager.file := ConfigManager.Absent;
                ConfigManager.writable := true;
                ConfigManager.output := [] |}
             w Hl eq_refl default_config_clean default_config_NoDup). }
  destruct Hf as [-> | ->]; destruct wr;
    cbn -[ConfigManager.write_newlines ConfigManager.save_text
          ConfigManager.default_config ConfigManager.new];
    rewrite ?app_nil_r, <- ?app_assoc;
    (split; [reflexivity|]); (split; [reflexivity|]);
    (split; [intros H; try discriminate H; reflexivity|]);
    (split; [intros H; try discriminate H; reflexivity|]);
    intros H Hl; try discriminate H;
    exact (Hre Hl).
Qed.

(** X23.  Whatever [.env] holds, the settings of a new [ConfigManager]
    are in normal form: distinct keys, keys and values without
    surrounding white space or line breaks, keys without ["="] that do
    not begin with ["#"].  Saving them and starting again therefore
    gives the same settings: reading a file normalises it once. *)
Theorem loaded_config_normal (linesep : str) (f : ConfigManager.env_file)
  (w : bool) :
  forallb ConfigManager.clean_entry
    (ConfigManager.config (ConfigManager.new linesep f w)) = true
  /\ NoDup (PyDict.keys
              (ConfigManager.config (ConfigManager.new linesep f w)))
  /\ (linesep = ConfigManager.LF \/ linesep = ConfigManager.CRLF ->
      ConfigManager.config
        (ConfigManager.new linesep
           (ConfigManager.file
              (snd (ConfigManager.save_config linesep
                      (ConfigManager.new linesep f true)))) w)
      = ConfigManager.config (ConfigManager.new linesep f true)).
Proof.
  destruct (new_config_clean linesep f w) as [Hc Hd].
  split; [exact Hc|]. split; [exact Hd|].
  intros Hl.
  destruct (new_config_clean linesep f true) as [Hc' Hd'].
  apply restart_after_save; try assumption.
  unfold ConfigManager.new, ConfigManager.load_config,
    ConfigManager.create_default_config, ConfigManager.save_config.
  cbn [ConfigManager.file ConfigManager.config ConfigManager.writable
       ConfigManager.with_config ConfigManager.print].
  destruct f as [| |t]; try reflexivity.
  rewrite load_lines_entries. reflexivity.
Qed.

(* ================================================================== *)
(** ** The further statements at concrete inputs *)

Example split_on_pieces :
  split_on comma (lit "en,ja,ko") = [lit "en"; lit "ja"; lit "ko"]
  /\ split_on comma (lit "a,,b,") = [lit "a"; []; lit "b"; []]
  /\ split_on comma (lit "en, ja") = [lit "en"; lit " ja"].
Proof. repeat split. Qed.

Example three_devices_listed :
  map dev_index (fst (get_audio_devices three_devices)) = [1; 2]%Z
  /\ fst (setup_audio (Some three_devices) (Some (lit "2")) one_digit)
     = Some (fst (get_audio_devices three_devices), Some 2%Z).
Proof. split; reflexivity. Qed.

Lemma stop_recording_enqueues_witness :
  is_recording recording_state = true
  /\ translation_queue (exec stop_recording recording_state)
     = translation_queue recording_state ++ [Some [short_frame]].
Proof.
  split; [reflexivity|].
  exact (proj1 (stop_recording_enqueues recording_state short_frame []
                  eq_refl eq_refl eq_refl)).
Defined.

Lemma stop_recording_stream_failure_witness :
  stream_closes stuck_recording_state = false
  /\ translation_queue (exec stop_recording stuck_recording_state)
     = translation_queue stuck_recording_state.
Proof.
  split; [reflexivity|].
  exact (proj1 (stop_recording_stream_failure stuck_recording_state
                  [short_frame] eq_refl eq_refl eq_refl)).
Defined.

Lemma push_to_talk_enqueues_frames_witness :
  device_ready (initial scenario_world) = true
  /\ translation_queue
       (schedule scenario_cfg ascii_lower
          (Press key_k
           :: map (fun x => Capture (Some x)) [short_frame; short_frame]
           ++ [Release key_k])
          (initial scenario_world))
     = translation_queue (initial scenario_world)
       ++ [Some [short_frame; short_frame]].
Proof.
  split; [reflexivity|].
  exact (proj1 (push_to_talk_enqueues_frames scenario_cfg ascii_lower key_k
                  short_frame [short_frame] (initial scenario_world)
                  eq_refl eq_refl eq_refl eq_refl eq_refl eq_refl)).
Defined.

Lemma semantic_correction_result_witness :
  truthy ni_hao_shi_jie = true
  /\ truthy (result (semantic_correction ni_hao_shi_jie)
               (initial failing_correction_world)) = true.
Proof.
  split; [reflexivity|].
  exact (proj1 (proj2 (semantic_correction_result ni_hao_shi_jie
                         (initial failing_correction_world)))
           eq_refl).
Defined.

Lemma transcribe_audio_text_clean_witness :
  result (transcribe_audio scenario_cfg scenario_audio)
    (initial scenario_world) = Some ni_hao_shi_jie
  /\ strip ni_hao_shi_jie = ni_hao_shi_jie.
Proof.
  assert (H : result (transcribe_audio scenario_cfg scenario_audio)
                (initial scenario_world) = Some ni_hao_shi_jie)
    by (vm_compute; reflexivity).
  split; [exact H|].
  exact (proj2 (transcribe_audio_text_clean scenario_cfg scenario_audio
                  (initial scenario_world) ni_hao_shi_jie H)).
Defined.

Lemma job_call_budget_witness :
  result (transcribe_audio scenario_cfg [short_frame])
    (initial scenario_world) = None
  /\ chats (trace (exec (worker_process scenario_cfg [short_frame])
                     (initial scenario_world)))
     = chats (trace (initial scenario_world)).
Proof.
  assert (H : result (transcribe_audio scenario_cfg [short_frame])
                (initial scenario_world) = None) by reflexivity.
  split; [exact H|].
  exact (proj2 (proj2 (proj2 (job_call_budget scenario_cfg [short_frame]
                                (initial scenario_world)))) H).
Defined.

Lemma nothing_processed_after_exit_witness :
  worker exited_state = Exited
  /\ gets (trace
             (schedule scenario_cfg ascii_lower
                [Press key_k; Capture (Some short_frame); Release key_k;
                 Work; Work] exited_state))
     = gets (trace exited_state).
Proof.
  split; [reflexivity|].
  exact (proj1 (proj2 (nothing_processed_after_exit scenario_cfg ascii_lower
                         [Press key_k; Capture (Some short_frame);
                          Release key_k; Work; Work]
                         exited_state eq_refl))).
Defined.

Lemma translations_entries_clean_witness :
  truthy ni_hao = true
  /\ NoDup (PyDict.keys
              (result (translate_targets repeated_cfg ni_hao
                         (target_languages repeated_cfg) [])
                 (initial repeated_world))).
Proof.
  split; [reflexivity|].
  exact (proj1 (translations_entries_clean repeated_cfg ni_hao
                  (initial repeated_world) eq_refl)).
Defined.

Lemma format_output_empty_witness :
  result (format_output [(lit "en", [])] []) (initial quiet_world) = []
  /\ ([] : str) = []
  /\ Forall (fun v => v = []) (PyDict.values [(lit "en", ([] : str))]).
Proof.
  assert (H : result (format_output [(lit "en", [])] [])
                (initial quiet_world) = []) by reflexivity.
  split; [exact H|].
  exact (proj1 (proj1 (format_output_empty [(lit "en", [])] []
                         (initial quiet_world))) H).
Defined.

Lemma get_audio_devices_lists_inputs_witness :
  get_device_count three_devices = Some 3%Z
  /\ has_input three_devices 2%Z = true
  /\ In 2%Z (map dev_index (fst (get_audio_devices three_devices))).
Proof.
  split; [reflexivity|]. split; [reflexivity|].
  refine (proj2 (proj2 (proj2 (get_audio_devices_lists_inputs three_devices)))
            3%Z eq_refl _ 2%Z _ eq_refl).
  - intros i Hi.
    assert (Hc : i = 0%Z \/ i = 1%Z \/ i = 2%Z) by lia.
    destruct Hc as [-> | [-> | ->]]; reflexivity.
  - lia.
Defined.

Lemma select_input_device_choice_witness :
  one_digit (lit "1") = Some 1%Z
  /\ fst (select_input_device (Some (lit "1")) one_digit three_devices [])
     = Some (Some 1%Z).
Proof.
  split; [reflexivity|].
  refine (proj1 (select_input_device_choice (Some (lit "1")) one_digit
                   three_devices [])
            (lit "1") 1%Z 3%Z _ eq_refl eq_refl eq_refl eq_refl _ eq_refl _).
  - lia.
  - reflexivity.
Defined.

Lemma setup_audio_fatal_cases_witness :
  fst (setup_audio (Some three_devices) (Some (lit "x")) one_digit)
  = Some (fst (get_audio_devices three_devices), Some 1%Z)
  /\ fst (select_attempt (Some (lit "x")) one_digit three_devices) = None
  /\ exists i,
       Some 1%Z = Some i
       /\ In i (map dev_index (fst (get_audio_devices three_devices)))
       /\ forall j,
            In j (map dev_index (fst (get_audio_devices three_devices))) ->
            (i <= j)%Z.
Proof.
  assert (H : fst (setup_audio (Some three_devices) (Some (lit "x"))
                     one_digit)
              = Some (fst (get_audio_devices three_devices), Some 1%Z))
    by reflexivity.
  split; [exact H|]. split; [reflexivity|].
  exact (proj2 (proj2 (setup_audio_fatal_cases (Some three_devices)
                         (Some (lit "x")) one_digit)
                  three_devices _ _ eq_refl H) eq_refl).
Defined.

Lemma target_languages_round_trip_witness :
  [lit "en"; lit "ja"] <> []
  /\ target_languages_from (Some (join_on comma [lit "en"; lit "ja"]))
     = [lit "en"; lit "ja"].
Proof.
  assert (Hne : [lit "en"; lit "ja"] <> []) by discriminate.
  split; [exact Hne|].
  refine (proj1 (proj2 (proj2 (proj2
            (target_languages_round_trip [] [lit "en"; lit "ja"]
               scenario_cfg ni_hao (initial quiet_world))))) Hne _).
  repeat constructor.
Defined.

Lemma recording_reaches_model_witness :
  frombuffer (List.concat [repeat 0%Z (Z.to_nat 16000)])
  = Some (repeat 0%Z (Z.to_nat 8000))
  /\ worker
       (schedule scenario_cfg ascii_lower
          (Press key_k
           :: map (fun x => Capture (Some x)) [repeat 0%Z (Z.to_nat 16000)]
           ++ [Release key_k; Work; Work])
          (initial scenario_world))
     = Waiting.
Proof.
  assert (H : frombuffer (List.concat [repeat 0%Z (Z.to_nat 16000)])
              = Some (repeat 0%Z (Z.to_nat 8000)))
    by (vm_compute; reflexivity).
  split; [exact H|].
  refine (proj2 (proj2 (proj2 (proj2
            (recording_reaches_model scenario_cfg ascii_lower key_k
               (repeat 0%Z (Z.to_nat 16000)) []
               (repeat 0%Z (Z.to_nat 8000)) (initial scenario_world)
               eq_refl eq_refl eq_refl eq_refl eq_refl eq_refl eq_refl
               eq_refl H _))))).
  vm_compute. discriminate.
Defined.


Example hand_edited_read :
  ConfigManager.config
    (ConfigManager.new ConfigManager.LF
       (ConfigManager.Text ConfigManager.hand_edited) true)
  = [(lit "HOTKEY", lit "j"); (lit "TARGET_LANGUAGES", lit "en,ja");
     (lit "URL", lit "http://host/?a=b")].
Proof. reflexivity. Qed.

Example padded_value_stripped :
  ConfigManager.config
    (ConfigManager.new ConfigManager.LF
       (ConfigManager.file
          (snd (ConfigManager.save_config ConfigManager.LF
                  ConfigManager.padded_manager))) true)
  = [(lit "DEEPSEEK_API_KEY", lit "sk-1")].
Proof. reflexivity. Qed.

Lemma config_survives_restart_witness :
  fst (ConfigManager.save_config ConfigManager.CRLF
         ConfigManager.stale_manager) = true
  /\ ConfigManager.config
       (ConfigManager.new ConfigManager.CRLF
          (ConfigManager.file
             (snd (ConfigManager.save_config ConfigManager.CRLF
                     ConfigManager.stale_manager))) false)
     = ConfigManager.config ConfigManager.stale_manager.
Proof.
  split; [reflexivity|].
  refine (proj1 (proj2 (proj2
            (config_survives_restart ConfigManager.CRLF
               ConfigManager.stale_manager false
               (or_intror eq_refl) eq_refl eq_refl _)))).
  repeat constructor; cbn; intuition discriminate.
Defined.

Lemma load_config_merges_witness :
  ConfigManager.file ConfigManager.stale_manager
  = ConfigManager.Text ConfigManager.hand_edited
  /\ PyDict.get
       (ConfigManager.config
          (ConfigManager.load_config ConfigManager.LF
             ConfigManager.stale_manager))
       (lit "OSC_PORT")
     = PyDict.get (ConfigManager.config ConfigManager.stale_manager)
         (lit "OSC_PORT").
Proof.
  split; [reflexivity|].
  refine (proj1 (proj2 (proj2 (proj2 (proj2
            (load_config_merges ConfigManager.LF ConfigManager.stale_manager
               ConfigManager.hand_edited eq_refl)))))
            (lit "OSC_PORT") _).
  vm_compute. intuition discriminate.
Defined.

Lemma missing_file_gives_defaults_witness :
  ConfigManager.file ConfigManager.first_start = ConfigManager.Absent
  /\ ConfigManager.config
       (ConfigManager.load_config ConfigManager.CRLF
          ConfigManager.first_start)
     = ConfigManager.default_config.
Proof.
  split; [reflexivity|].
  exact (proj1 (missing_file_gives_defaults ConfigManager.CRLF
                  ConfigManager.first_start true (or_introl eq_refl))).
Defined.

Lemma loaded_config_normal_witness :
  ConfigManager.config
    (ConfigManager.new ConfigManager.CRLF
       (ConfigManager.file
          (snd (ConfigManager.save_config ConfigManager.CRLF
                  (ConfigManager.new ConfigManager.CRLF
                     (ConfigManager.Text ConfigManager.hand_edited)
                     true)))) false)
  = ConfigManager.config
      (ConfigManager.new ConfigManager.CRLF
         (ConfigManager.Text ConfigManager.hand_edited) true).
Proof.
  exact (proj2 (proj2 (loaded_config_normal ConfigManager.CRLF
                         (ConfigManager.Text ConfigManager.hand_edited)
                         false))
           (or_intror eq_refl)).
Defined.

Lemma busy_flag_means_open_job_witness :
  is_translating translating_state = true
  /\ List.length (recordings (gets (trace translating_state)))
     = S (task_dones (trace translating_state)).
Proof.
  split; [reflexivity|].
  exact (proj1 (busy_flag_means_open_job scenario_cfg ascii_lower
                  [Press key_k; Capture (Some short_frame); Release key_k;
                   Work]
                  scenario_world)
           eq_refl).
Defined.
